(** * EML-Lib downloader: a shallow embedding of [src/lib/utils/downloader.ts]

    The [Downloader] class is embedded as an event-driven state machine.
    Node's event loop is single-threaded: every callback of the class runs to
    its next [await] without interruption, so the five asynchronous workers
    are modelled by interleaving, one environment event (a promise settling,
    a stream event, a timer) at a time.

    Byte counts and millisecond timestamps are integers.  In the machine the
    quotients of the throughput computation are exact rationals ([Q]); the
    [data] handler is also given with the binary64 arithmetic of JavaScript
    ([Binary64]), which is where its quotients are stated.  The diff pass is
    given with its callbacks run one after the other, and with the promises
    of its callbacks settling in any order ([Interleaved]).  Error values
    are represented by their message.
    The machine tracks the fields of the [Downloader] object, the queue, the
    workers, the [fetch] calls and the emitted events; the bytes written to
    disk by [downloadFile] are not tracked. *)

From Stdlib Require Import List Ascii String ZArith NArith QArith Qround Bool
  Lia Permutation SpecFloat.
Import ListNotations.
Local Open Scope string_scope.
Local Open Scope list_scope.
Local Open Scope Z_scope.

(** ** Data model *)

(** Modelled from the spec: the [File] type ([types/file]) is not among the
    sources.  The fields are the ones [downloader.ts] reads, with the
    optionality given by the spec's FileDescriptor ([size], [sha1] and [url]
    may be absent). *)
Module File.
Inductive Kind := FILE | FOLDER.
Record t := mk {
  name : string;
  path : string;
  type : Kind;
  url : option string;
  size : option N;
  sha1 : option string;
  executable : bool
}.
End File.

(** The object [{ amount, size }] held by [this.downloaded] and sent as
    [total] and [downloaded] in events. *)
Module Counts.
Record t := mk { amount : Z; size : Z }.
End Counts.

(** An entry of [this.history]. *)
Module Sample.
Record t := mk { size : Z; time : Z }.
End Sample.

(** The mutable fields of a [Downloader] instance (lines 18-26). *)
Record Downloader := mkDownloader {
  dest : string;
  size : Z;
  amount : Z;
  downloaded : Counts.t;
  error : bool;
  speed : Q;
  eta : Q;
  history : list Sample.t
}.

Definition CONCURRENCY_LIMIT : nat := 5.

(** The payloads of [DownloaderEvents], in the order they are emitted.  An
    event records the values its fields have when it is emitted. *)
Inductive Emitted :=
| download_progress (total downloaded : Counts.t) (speed : Q) (eta : Z)
                    (type : File.Kind)
| download_error (filename : string) (type : File.Kind) (message : string)
| download_end (downloaded : Counts.t).

(** JavaScript truthiness of an optional string ([file.sha1 && ...],
    [... && file.url]): present and not empty. *)
Definition truthy (s : option string) : bool :=
  match s with
  | Some EmptyString => false
  | Some _ => true
  | None => false
  end.

(** [curr.size ?? 0] *)
Definition sizeOrZero (f : File.t) : Z :=
  match File.size f with
  | Some n => Z.of_N n
  | None => 0
  end.

(** ** The Node primitives used by the diff pass

    [path.join], [fs.access], [fs.mkdir(_, {recursive: true})] and
    [utils.getFileHash] are taken as an interface.  A primitive that rejects
    returns [None] ([access] rejecting is [false]). *)
Class FileSystem (FS : Type) := {
  join : list string -> string;
  access : FS -> string -> bool;
  mkdir : FS -> string -> option FS;
  getFileHash : FS -> string -> option string
}.

(** A flat file system used for concrete runs: paths are joined with [/],
    a node is a directory or a file known by its hash. *)
Inductive Node := Dir | Content (hash : string).

Definition Flat := list (string * Node).

Fixpoint flat_lookup (fs : Flat) (p : string) : option Node :=
  match fs with
  | [] => None
  | (q, n) :: rest => if String.eqb q p then Some n else flat_lookup rest p
  end.

Fixpoint flat_join (parts : list string) : string :=
  match parts with
  | [] => "."
  | [p] => p
  | p :: rest => p ++ "/" ++ flat_join rest
  end.

#[export] Instance FlatFS : FileSystem Flat := {
  join := flat_join;
  access fs p := match flat_lookup fs p with Some _ => true | None => false end;
  mkdir fs p := Some ((p, Dir) :: fs);
  getFileHash fs p :=
    match flat_lookup fs p with
    | Some (Content h) => Some h
    | _ => None
    end
}.

(** ** getFilesToDownload (lines 82-114) *)

Section DiffPass.
Context {FS : Type} `{FileSystem FS}.

(** Lines 88-94: a FOLDER entry is created when [fs.access] rejects. *)
Definition ensureFolder (fs : FS) (filePath : string) (file : File.t)
  : option FS :=
  match File.type file with
  | File.FOLDER => if access fs filePath then Some fs else mkdir fs filePath
  | File.FILE => Some fs
  end.

(** Lines 95-104: the value of [needsDownload] after the [try]/[catch].
    [getFileHash] is only called when [file.sha1] is truthy; if it rejects,
    the [catch] sets the flag. *)
Definition needsDownload (fs : FS) (filePath : string) (file : File.t)
  : bool :=
  if access fs filePath then
    match File.sha1 file with
    | Some h =>
        if truthy (Some h) then
          match getFileHash fs filePath with
          | Some local => negb (String.eqb h local)
          | None => true
          end
        else false
    | None => false
    end
  else true.

(** The callback of [files.map] for one entry: the file system after it
    and whether the entry was pushed ([None]: the callback rejects). *)
Definition checkFile (dest : string) (fs : FS) (file : File.t)
  : option (FS * bool) :=
  let filePath := join [dest; File.path file; File.name file] in
  match ensureFolder fs filePath file with
  | None => None
  | Some fs1 =>
      Some (fs1, needsDownload fs1 filePath file && truthy (File.url file))
  end.

(** The callbacks run to their end one after the other, in list order
    (one of the orders of [Interleaved], below). *)
Fixpoint getFilesToDownload (dest : string) (fs : FS) (files : list File.t)
  : option (FS * list File.t) :=
  match files with
  | [] => Some (fs, [])
  | file :: rest =>
      match checkFile dest fs file with
      | None => None
      | Some (fs1, pushed) =>
          match getFilesToDownload dest fs1 rest with
          | None => None
          | Some (fs2, filesToDownload) =>
              Some (fs2, if pushed then file :: filesToDownload
                         else filesToDownload)
          end
      end
  end.

(** Line 43. *)
Definition resolveFiles (dest : string) (fs : FS) (files : list File.t)
           (skipCheck : bool) : option (FS * list File.t) :=
  if negb skipCheck then getFilesToDownload dest fs files
  else Some (fs, files).
End DiffPass.

(** ** The throughput computation of the [data] handler (lines 157-171) *)

(** Lines 159-161: [shift] while the oldest sample is more than 6000 ms
    older than [now]. *)
Fixpoint prune (now : Z) (h : list Sample.t) : list Sample.t :=
  match h with
  | [] => []
  | s :: rest => if 6000 <? now - Sample.time s then prune now rest else h
  end.

(** Line 168: [history.reduce((acc, curr) => acc + curr.size, 0)]. *)
Definition totalSampled (h : list Sample.t) : Z :=
  fold_left (fun acc curr => acc + Sample.size curr) h 0.

(** [this.history[0].time]; the history is never empty where it is read
    (see [prune_push_nonempty]), so the default is not reached. *)
Definition oldestTime (h : list Sample.t) : Z :=
  match h with
  | s :: _ => Sample.time s
  | [] => 0
  end.

Definition Qlt_bool (x y : Q) : bool := negb (Qle_bool y x).

(** Line 169. *)
Definition elapsedSeconds (now : Z) (h : list Sample.t) : Q :=
  (inject_Z (now - oldestTime h) / inject_Z 1000)%Q.

(** Line 170. *)
Definition speedOf (now : Z) (h : list Sample.t) : Q :=
  let elapsed := elapsedSeconds now h in
  if Qlt_bool 0 elapsed then (inject_Z (totalSampled h) / elapsed)%Q else 0%Q.

(** Line 171. *)
Definition etaOf (total downloadedSize : Z) (speed : Q) : Q :=
  if Qlt_bool 0 speed then (inject_Z (total - downloadedSize) / speed)%Q
  else 0%Q.

(** The updates of the [data] handler to the Downloader object, for a chunk
    of [len] bytes received when [Date.now()] is [now]. *)
Definition onData (this : Downloader) (len : N) (now : Z) : Downloader :=
  let history' :=
    prune now (history this ++ [Sample.mk (Z.of_N len) now]) in
  let downloaded' :=
    Counts.mk (Counts.amount (downloaded this))
              (Counts.size (downloaded this) + Z.of_N len) in
  let speed' := speedOf now history' in
  let eta' := etaOf (size this) (Counts.size downloaded') speed' in
  mkDownloader (dest this) (size this) (amount this) downloaded'
               (error this) speed' eta' history'.

(** Lines 173-179. *)
Definition progressEvent (this : Downloader) (file : File.t) : Emitted :=
  download_progress (Counts.mk (amount this) (size this)) (downloaded this)
                    (speed this) (Qfloor (eta this)) (File.type file).

(** ** Workers *)

(** Where one call of [downloadFileWithRetry] stands: awaiting [fs.mkdir],
    awaiting [fetch], inside the stream promise (with the value of
    [bytesDownloadedThisAttempt]), awaiting [chmod], or awaiting the retry
    timer (with the delay passed to [setTimeout]). *)
Inductive Phase :=
| Mkdir
| Fetching
| Streaming (bytesDownloadedThisAttempt : Z)
| Chmod
| Sleeping (delay : Z).

(** A worker of line 60: in [downloadFileWithRetry(file, attempt)], returned
    from its loop, or rejected. *)
Inductive Worker :=
| Busy (file : File.t) (attempt : nat) (phase : Phase)
| Done
| Failed.

(** The promise returned by [download]. *)
Inductive Outcome :=
| Pending
| Resolved
| Rejected (message : string).

Record State := mkState {
  this : Downloader;
  queue : list File.t;
  workers : list Worker;
  outcome : Outcome;
  requests : list File.t;   (* the files whose [url] was passed to [fetch] *)
  emitted : list Emitted;
  platform : string         (* [process.platform] *)
}.

(** What the environment delivers; [w] is the index of the worker whose
    callback runs. *)
Inductive FetchResult :=
| NetworkError (message : string)
| HttpResponse (ok hasBody : bool) (statusText : string).

Inductive Event :=
| MkdirSettled (w : nat) (err : option string)
| FetchSettled (w : nat) (res : FetchResult)
| BodyData (w : nat) (len : N) (now : Z)
| BodyEnd (w : nat)
| BodyError (w : nat) (message : string)
| StreamFinish (w : nat)
| StreamError (w : nat) (message : string)
| ChmodSettled (w : nat) (err : option string)
| TimerFired (w : nat).

Fixpoint update {A} (l : list A) (i : nat) (x : A) : list A :=
  match l, i with
  | [], _ => []
  | _ :: t, O => x :: t
  | h :: t, S j => h :: update t j x
  end.

Definition setThis (st : State) (d : Downloader) : State :=
  mkState d (queue st) (workers st) (outcome st) (requests st) (emitted st)
          (platform st).

Definition setQueue (st : State) (q : list File.t) : State :=
  mkState (this st) q (workers st) (outcome st) (requests st) (emitted st)
          (platform st).

Definition setWorker (st : State) (w : nat) (x : Worker) : State :=
  mkState (this st) (queue st) (update (workers st) w x) (outcome st)
          (requests st) (emitted st) (platform st).

Definition setOutcome (st : State) (o : Outcome) : State :=
  mkState (this st) (queue st) (workers st) o (requests st) (emitted st)
          (platform st).

Definition logRequest (st : State) (file : File.t) : State :=
  mkState (this st) (queue st) (workers st) (outcome st)
          (requests st ++ [file]) (emitted st) (platform st).

Definition emit (st : State) (e : Emitted) : State :=
  mkState (this st) (queue st) (workers st) (outcome st) (requests st)
          (emitted st ++ [e]) (platform st).

Definition isDone (x : Worker) : bool :=
  match x with Done => true | _ => false end.

(** Lines 69-71: the continuation of [await Promise.all(workers)] runs once,
    when every worker has returned and none has rejected before. *)
Definition settleAll (st : State) : State :=
  match outcome st with
  | Pending =>
      if forallb isDone (workers st)
      then setOutcome (emit st (download_end (downloaded (this st)))) Resolved
      else st
  | _ => st
  end.

(** Line 122: the delay passed to [setTimeout]. *)
Definition retryDelay (attempt : nat) : Z := 1000 * (Z.of_nat attempt + 1).

(** Lines 120-131: [downloadFile] rejected with [message] in the call
    numbered [attempt].  The first worker to reject rejects [Promise.all],
    and with it [download] (lines 72-73). *)
Definition downloadFileWithRetry_catch (st : State) (w : nat) (file : File.t)
           (attempt : nat) (message : string) : State :=
  if (attempt <? 5)%nat then
    setWorker st w (Busy file attempt (Sleeping (retryDelay attempt)))
  else
    let st1 :=
      emit st (download_error (File.name file) (File.type file) message) in
    let st2 := setWorker st1 w Failed in
    match outcome st2 with
    | Pending =>
        setOutcome st2
          (Rejected ("Failed to download " ++ File.name file
                     ++ " after 5 attempts"))
    | _ => st2
    end.

(** Lines 116-118: [downloadFileWithRetry(file, attempt)] enters
    [downloadFile], which runs to its [await fs.mkdir]. *)
Definition downloadFileWithRetry (st : State) (w : nat) (file : File.t)
           (attempt : nat) : State :=
  setWorker st w (Busy file attempt Mkdir).

Definition incrAmount (d : Downloader) : Downloader :=
  mkDownloader (dest d) (size d) (amount d)
               (Counts.mk (Counts.amount (downloaded d) + 1)
                          (Counts.size (downloaded d)))
               (error d) (speed d) (eta d) (history d).

(** Line 119, then the worker's loop (lines 63-66): take the next file of
    the queue and call [downloadFileWithRetry] on it, or return. *)
Definition downloadFileWithRetry_then (st : State) (w : nat) : State :=
  let st1 := setThis st (incrAmount (this st)) in
  match queue st1 with
  | file :: rest => downloadFileWithRetry (setQueue st1 rest) w file 0
  | [] => settleAll (setWorker st1 w Done)
  end.

(** Lines 187 and 203: [this.downloaded.size -= bytesDownloadedThisAttempt]. *)
Definition giveBack (d : Downloader) (bytes : Z) : Downloader :=
  mkDownloader (dest d) (size d) (amount d)
               (Counts.mk (Counts.amount (downloaded d))
                          (Counts.size (downloaded d) - bytes))
               (error d) (speed d) (eta d) (history d).

(** Line 211. *)
Definition chmodJavaFiles (st : State) (file : File.t) : bool :=
  negb (String.eqb (platform st) "win32") && File.executable file.

(** One callback of [downloadFileWithRetry] / [downloadFile] (lines
    116-208).  An event that finds its worker in another phase has no
    listener and leaves the state as it is. *)
Definition step (st : State) (ev : Event) : State :=
  match ev with
  | MkdirSettled w err =>
      match nth_error (workers st) w with
      | Some (Busy file attempt Mkdir) =>
          match err with
          | Some message =>
              downloadFileWithRetry_catch st w file attempt message
          | None =>
              setWorker (logRequest st file) w (Busy file attempt Fetching)
          end
      | _ => st
      end
  | FetchSettled w res =>
      match nth_error (workers st) w with
      | Some (Busy file attempt Fetching) =>
          match res with
          | NetworkError message =>
              downloadFileWithRetry_catch st w file attempt message
          | HttpResponse ok hasBody statusText =>
              if negb ok || negb hasBody then
                downloadFileWithRetry_catch st w file attempt
                  ("Error while fetching " ++ File.name file ++ ": "
                   ++ statusText)
              else setWorker st w (Busy file attempt (Streaming 0))
          end
      | _ => st
      end
  | BodyData w len now =>
      match nth_error (workers st) w with
      | Some (Busy file attempt (Streaming bytes)) =>
          let this' := onData (this st) len now in
          let st1 := emit (setThis st this') (progressEvent this' file) in
          setWorker st1 w (Busy file attempt (Streaming (bytes + Z.of_N len)))
      | _ => st
      end
  | BodyEnd w => st
  | BodyError w message | StreamError w message =>
      match nth_error (workers st) w with
      | Some (Busy file attempt (Streaming bytes)) =>
          downloadFileWithRetry_catch (setThis st (giveBack (this st) bytes))
                                      w file attempt message
      | _ => st
      end
  | StreamFinish w =>
      match nth_error (workers st) w with
      | Some (Busy file attempt (Streaming bytes)) =>
          if chmodJavaFiles st file
          then setWorker st w (Busy file attempt Chmod)
          else downloadFileWithRetry_then st w
      | _ => st
      end
  | ChmodSettled w err =>
      match nth_error (workers st) w with
      | Some (Busy file attempt Chmod) =>
          match err with
          | Some message =>
              downloadFileWithRetry_catch st w file attempt message
          | None => downloadFileWithRetry_then st w
          end
      | _ => st
      end
  | TimerFired w =>
      match nth_error (workers st) w with
      | Some (Busy file attempt (Sleeping _)) =>
          downloadFileWithRetry st w file (S attempt)
      | _ => st
      end
  end.

Definition run (st : State) (trace : list Event) : State :=
  fold_left step trace st.

(** ** download (lines 42-75) *)

(** Lines 60-67: each of the [CONCURRENCY_LIMIT] workers runs to its first
    [await] when it is created: it shifts the queue and enters
    [downloadFileWithRetry], or returns when the queue is already empty. *)
Fixpoint spawn (n : nat) (q : list File.t) : list Worker * list File.t :=
  match n with
  | O => ([], q)
  | S m =>
      match q with
      | file :: rest =>
          let (ws, q') := spawn m rest in (Busy file 0 Mkdir :: ws, q')
      | [] => let (ws, q') := spawn m [] in (Done :: ws, q')
      end
  end.

(** Line 45. *)
Definition sumSizes (files : list File.t) : Z :=
  fold_left (fun acc curr => acc + sizeOrZero curr) files 0.

(** Lines 45-71, from the resolved list on: the fields are reassigned, then
    the call returns at once (line 53) or starts the workers. *)
Definition startBatch (prev : Downloader) (os : string)
           (filesToDownload : list File.t) : State :=
  let this' :=
    mkDownloader (dest prev) (sumSizes filesToDownload)
                 (Z.of_nat (List.length filesToDownload)) (Counts.mk 0 0) false
                 0%Q 0%Q [] in
  if (size this' =? 0) || (List.length filesToDownload =? 0)%nat then
    mkState this' [] [] Resolved [] [download_end (downloaded this')] os
  else
    let (ws, q) := spawn CONCURRENCY_LIMIT filesToDownload in
    mkState this' q ws Pending [] [] os.

(** [download(files, skipCheck)] up to its first suspension: [None] when the
    diff pass rejects. *)
Definition download {FS : Type} `{FileSystem FS} (prev : Downloader)
           (os : string) (fs : FS) (files : list File.t) (skipCheck : bool)
  : option (FS * State) :=
  match resolveFiles (dest prev) fs files skipCheck with
  | None => None
  | Some (fs', filesToDownload) =>
      Some (fs', startBatch prev os filesToDownload)
  end.

(** The constructor (lines 31-34). *)
Definition newDownloader {FS : Type} `{FileSystem FS} (d : string)
  : Downloader :=
  mkDownloader (join [d]) 0 0 (Counts.mk 0 0) false 0%Q 0%Q [].

(** ** Concrete manifests and runs *)

Definition exPrev : Downloader := newDownloader (FS := Flat) "game".

Definition exJar : File.t :=
  File.mk "a.jar" "libs" File.FILE (Some "http://h/a.jar") (Some 10%N)
          (Some "abc") false.

Definition exFolder : File.t :=
  File.mk "libs" "" File.FOLDER None None None false.

Definition exNoUrl : File.t :=
  File.mk "b.jar" "libs" File.FILE None (Some 5%N) (Some "def") false.

Definition exTool : File.t :=
  File.mk "java" "bin" File.FILE (Some "http://h/java") (Some 10%N) None true.

(** A disk holding [libs/a.jar] with the hash its descriptor announces. *)
Definition exDisk : Flat := [("game/libs/a.jar", Content "abc")].

(** One attempt on worker 0 that ends in a 404 answer, and the timer that
    follows it. *)
Definition exFailedAttempt : list Event :=
  [MkdirSettled 0 None; FetchSettled 0 (HttpResponse false true "Not Found")].

Definition exFiveFailures : list Event :=
  exFailedAttempt ++ [TimerFired 0] ++ exFailedAttempt ++ [TimerFired 0]
  ++ exFailedAttempt ++ [TimerFired 0] ++ exFailedAttempt ++ [TimerFired 0]
  ++ exFailedAttempt.

Definition exSixFailures : list Event :=
  exFiveFailures ++ [TimerFired 0] ++ exFailedAttempt.

(** Chunks of 10, 20 and 30 bytes at 0 s, 1 s and 2 s. *)
Definition exThreeChunks : list (N * Z) :=
  [(10%N, 0); (20%N, 1000); (30%N, 2000)].

Definition exArchive : File.t :=
  File.mk "assets.zip" "" File.FILE (Some "http://h/assets.zip") (Some 100%N)
          None false.

Definition exAfterThreeChunks : Downloader :=
  fold_left (fun d c => onData d (fst c) (snd c)) exThreeChunks
            (this (startBatch exPrev "linux" [exArchive])).

(** ** Predicates used by the properties *)

(** The files a worker holds, the queue and the [fetch] calls all come
    from the resolved list. *)
Definition holdsFrom (batch : list File.t) (x : Worker) : Prop :=
  match x with
  | Busy file _ _ => In file batch
  | _ => True
  end.

Definition fromBatch (batch : list File.t) (st : State) : Prop :=
  Forall (fun f => In f batch) (requests st)
  /\ Forall (fun f => In f batch) (queue st)
  /\ Forall (holdsFrom batch) (workers st).

(** The number of [download_end] events in a log. *)
Fixpoint countEnd (log : list Emitted) : nat :=
  match log with
  | [] => O
  | download_end _ :: rest => S (countEnd rest)
  | _ :: rest => countEnd rest
  end.

Definition sumOver {A} (f : A -> Z) (l : list A) : Z :=
  fold_right (fun x s => f x + s) 0 l.

(** A worker that has not returned accounts for one file that is not
    downloaded (yet). *)
Definition notDone (x : Worker) : Z :=
  match x with
  | Done => 0
  | _ => 1
  end.

(** The two bounds on a [download_progress] event. *)
Definition amountBounded (e : Emitted) : Prop :=
  match e with
  | download_progress total dl _ _ _ => Counts.amount dl <= Counts.amount total
  | _ => True
  end.

Definition sizeBounded (e : Emitted) : Prop :=
  match e with
  | download_progress total dl _ _ _ => Counts.size dl <= Counts.size total
  | _ => True
  end.

(** The environment keeps to the manifest at an event: a chunk does not
    take its attempt beyond the declared size of the file, and a [chmod]
    that is awaited does not reject. *)
Definition keepsToManifest (st : State) (ev : Event) : bool :=
  match ev with
  | BodyData w len _ =>
      match nth_error (workers st) w with
      | Some (Busy file _ (Streaming bytes)) =>
          bytes + Z.of_N len <=? sizeOrZero file
      | _ => true
      end
  | ChmodSettled w (Some _) =>
      match nth_error (workers st) w with
      | Some (Busy _ _ Chmod) => false
      | _ => true
      end
  | _ => true
  end.

Fixpoint runKeepsToManifest (st : State) (trace : list Event) : bool :=
  match trace with
  | [] => true
  | ev :: rest => keepsToManifest st ev && runKeepsToManifest (step st ev) rest
  end.

(** What is still to be counted for a worker's file: its declared size,
    less the bytes of the attempt in progress. *)
Definition slack (x : Worker) : Z :=
  match x with
  | Busy file _ (Streaming bytes) => sizeOrZero file - bytes
  | Busy file _ Chmod => 0
  | Busy file _ _ => sizeOrZero file
  | _ => 0
  end.

Definition withinSize (x : Worker) : Prop :=
  match x with
  | Busy file _ (Streaming bytes) => bytes <= sizeOrZero file
  | _ => True
  end.


(** The worker an event is delivered to. *)
Definition eventWorker (ev : Event) : nat :=
  match ev with
  | MkdirSettled w _ | FetchSettled w _ | BodyData w _ _ | BodyEnd w
  | BodyError w _ | StreamFinish w | StreamError w _ | ChmodSettled w _
  | TimerFired w => w
  end.

(** While the attempt of worker [w] is streaming, [w] only receives [data]
    and [end]; the other workers receive anything. *)
Definition duringAttempt (w : nat) (ev : Event) : bool :=
  if (eventWorker ev =? w)%nat then
    match ev with
    | BodyData _ _ _ | BodyEnd _ => true
    | _ => false
    end
  else true.

(** The bytes of the chunks delivered to worker [w] in a trace. *)
Fixpoint bytesCounted (w : nat) (trace : list Event) : Z :=
  match trace with
  | [] => 0
  | BodyData w' len _ :: rest =>
      (if (w' =? w)%nat then Z.of_N len else 0) + bytesCounted w rest
  | _ :: rest => bytesCounted w rest
  end.

(** The samples of a history that are at most 6000 ms older than [now]. *)
Definition withinWindow (now : Z) (h : list Sample.t) : list Sample.t :=
  filter (fun s => now - Sample.time s <=? 6000) h.

(** Timestamps in arrival order never decrease. *)
Fixpoint chronological (h : list Sample.t) : bool :=
  match h with
  | [] => true
  | s :: rest =>
      forallb (fun later => Sample.time s <=? Sample.time later) rest
      && chronological rest
  end.

(** A run that brings worker 0 to its third chunk. *)
Definition exStreaming : State :=
  run (startBatch exPrev "linux" [exArchive])
      [MkdirSettled 0 None; FetchSettled 0 (HttpResponse true true "OK");
       BodyData 0 10%N 0; BodyData 0 20%N 1000].

(** The server sends one byte more than the manifest announces. *)
Definition exOversized : list Event :=
  [MkdirSettled 0 None; FetchSettled 0 (HttpResponse true true "OK");
   BodyData 0 11%N 0].

(** The [download_end] events of a log, against the state of the promise
    of [download]: one, emitted last with the counters of the state, when
    it has resolved; none while it is pending or once it has rejected. *)
Definition endMatchesOutcome (st : State) : Prop :=
  match outcome st with
  | Resolved =>
      forallb isDone (workers st) = true
      /\ exists log,
           emitted st = log ++ [download_end (downloaded (this st))]
           /\ countEnd log = O
  | _ => countEnd (emitted st) = O
  end.

(** Every file of the batch is downloaded, queued, or with a worker that
    has not returned; and the progress events sent so far respect the bound
    on [amount]. *)
Definition amountAccounted (st : State) : Prop :=
  Counts.amount (downloaded (this st)) + Z.of_nat (List.length (queue st))
  + sumOver notDone (workers st) <= amount (this st)
  /\ Forall amountBounded (emitted st).

(** Under [runKeepsToManifest]: the bytes counted so far, the bytes still
    expected by the workers and the declared sizes of the queue fit in the
    total, no attempt is beyond its file's size, and the progress events
    sent so far respect the bound on [size]. *)
Definition sizeAccounted (st : State) : Prop :=
  Counts.size (downloaded (this st)) + sumOver slack (workers st)
  + sumOver sizeOrZero (queue st) <= size (this st)
  /\ Forall withinSize (workers st)
  /\ Forall sizeBounded (emitted st).

(** Worker 0 receives its file in two chunks and the stream finishes. *)
Definition exCleanRun : list Event :=
  [MkdirSettled 0 None; FetchSettled 0 (HttpResponse true true "OK");
   BodyData 0 4%N 0; BodyData 0 6%N 500; BodyEnd 0; StreamFinish 0].

(** Worker 0 has just opened its stream. *)
Definition exFetched : State :=
  run (startBatch exPrev "linux" [exArchive])
      [MkdirSettled 0 None; FetchSettled 0 (HttpResponse true true "OK")].

Definition exTwoChunks : list Event :=
  [BodyData 0 10%N 0; BodyData 0 20%N 1000].

(** ** Predicates used by the further properties *)

Definition isBusy (x : Worker) : bool :=
  match x with Busy _ _ _ => true | _ => false end.

(** Line 53, as a test on the resolved list. *)
Definition zeroWork (filesToDownload : list File.t) : bool :=
  (sumSizes filesToDownload =? 0) || (List.length filesToDownload =? 0)%nat.

(** A progress event of a batch: its [total] is the number of files and
    the summed size of the resolved list, its [type] is the kind of one of
    the files. *)
Definition progressOf (batch : list File.t) (e : Emitted) : Prop :=
  match e with
  | download_progress total _ _ _ type =>
      total = Counts.mk (Z.of_nat (List.length batch)) (sumSizes batch)
      /\ In type (map File.type batch)
  | _ => True
  end.

(** The speed and the ETA carried by a progress event. *)
Definition speedNonneg (e : Emitted) : Prop :=
  match e with
  | download_progress _ _ speed _ _ => (0 <= speed)%Q
  | _ => True
  end.

Definition etaNonneg (e : Emitted) : Prop :=
  match e with
  | download_progress _ _ _ eta _ => 0 <= eta
  | _ => True
  end.

(** The bytes that the open attempt of a worker has added to
    [downloaded.size] and would give back on a stream error. *)
Definition inFlight (x : Worker) : Z :=
  match x with
  | Busy _ _ (Streaming bytes) => bytes
  | _ => 0
  end.

Definition countersNonneg (e : Emitted) : Prop :=
  match e with
  | download_progress _ dl _ _ _ | download_end dl =>
      0 <= Counts.amount dl /\ 0 <= Counts.size dl
  | _ => True
  end.

(** The open attempts account for part of [downloaded.size], and
    [downloaded.amount] is not negative. *)
Definition openBytesCounted (st : State) : Prop :=
  Forall (fun x => 0 <= inFlight x) (workers st)
  /\ sumOver inFlight (workers st) <= Counts.size (downloaded (this st))
  /\ 0 <= Counts.amount (downloaded (this st)).

(** Every file of the list is downloaded, queued or with a worker that has
    not returned, and a worker only returns when the queue is empty. *)
Definition allAccounted (st : State) : Prop :=
  Counts.amount (downloaded (this st)) + Z.of_nat (List.length (queue st))
  + sumOver notDone (workers st) = amount (this st)
  /\ (queue st = [] \/ Forall (fun x => isDone x = false) (workers st)).





(** Attempts are numbered 0 to 5, and a worker that waits for a retry has
    one left. *)
Definition attemptBounded (x : Worker) : Prop :=
  match x with
  | Busy _ attempt (Sleeping _) => (attempt < 5)%nat
  | Busy _ attempt _ => (attempt <= 5)%nat
  | _ => True
  end.

(** The [fetch] calls a worker can still make for its file. *)
Definition fetchesLeft (x : Worker) : Z :=
  match x with
  | Busy _ attempt Mkdir => 6 - Z.of_nat attempt
  | Busy _ attempt _ => 5 - Z.of_nat attempt
  | _ => 0
  end.

Definition withinFetchBudget (batch : list File.t) (st : State) : Prop :=
  Forall attemptBounded (workers st)
  /\ Z.of_nat (List.length (requests st)) + sumOver fetchesLeft (workers st)
     + 6 * Z.of_nat (List.length (queue st))
     <= 6 * Z.of_nat (List.length batch).

(** Two states that differ at most by the promise of [download] and by the
    log. *)
Definition sameWork (st1 st2 : State) : Prop :=
  this st1 = this st2
  /\ queue st1 = queue st2
  /\ workers st1 = workers st2
  /\ requests st1 = requests st2
  /\ platform st1 = platform st2.

(** A file is received whole, its [chmod] rejects, and the retry receives
    it whole again. *)
Definition chmodRetry (len : N) : list Event :=
  [MkdirSettled 0 None; FetchSettled 0 (HttpResponse true true "OK");
   BodyData 0 len 0; BodyEnd 0; StreamFinish 0;
   ChmodSettled 0 (Some "EPERM"); TimerFired 0;
   MkdirSettled 0 None; FetchSettled 0 (HttpResponse true true "OK");
   BodyData 0 len 0].

(** The clock read by the [data] handlers of a trace never goes back from
    [t]. *)
Fixpoint clockNeverGoesBack (t : Z) (trace : list Event) : bool :=
  match trace with
  | [] => true
  | BodyData _ _ now :: rest => (t <=? now) && clockNeverGoesBack now rest
  | _ :: rest => clockNeverGoesBack t rest
  end.

(** The clock after a trace that started at [t]. *)
Fixpoint clockAfter (t : Z) (trace : list Event) : Z :=
  match trace with
  | [] => t
  | BodyData _ _ now :: rest => clockAfter now rest
  | _ :: rest => clockAfter t rest
  end.

(** The timestamp of the newest sample of a history. *)
Definition newestTime (h : list Sample.t) : Z :=
  Sample.time (last h (Sample.mk 0 0)).

(** A history in arrival order, not ahead of the clock [t], whose samples
    are all at most 6000 ms older than the newest. *)
Definition windowed (t : Z) (h : list Sample.t) : Prop :=
  chronological h = true
  /\ Forall (fun s => Sample.time s <= t) h
  /\ Forall (fun s => newestTime h - Sample.time s <= 6000) h.

Definition isFILE (file : File.t) : bool :=
  match File.type file with
  | File.FILE => true
  | File.FOLDER => false
  end.

(** ** The Yggdrasil client ([src/unnamed/part_000], lines 28-37)

    Only the constructor is embedded: the other methods send a request and
    read untyped JSON. *)

(** [url.endsWith('/')] *)
Fixpoint endsWithSlash (url : string) : bool :=
  match url with
  | EmptyString => false
  | String c EmptyString => Ascii.eqb c "/"%char
  | String _ rest => endsWithSlash rest
  end.

(** [url.slice(0, -1)] *)
Fixpoint sliceButLast (url : string) : string :=
  match url with
  | EmptyString => EmptyString
  | String _ EmptyString => EmptyString
  | String c rest => String c (sliceButLast rest)
  end.

(** The constructor: the value given to [this.url]. *)
Definition Yggdrasil (url : string) : string :=
  (if endsWithSlash url then sliceButLast url else url) ++ "/authserver".

(** A worker that is past the [fetch] call of its attempt has its file in
    the [fetch] log. *)
Definition requestMade (reqs : list File.t) (x : Worker) : Prop :=
  match x with
  | Busy file _ Fetching | Busy file _ (Streaming _) | Busy file _ Chmod =>
      In file reqs
  | _ => True
  end.

(** The worker holds the file, or has rejected (and may have held it). *)
Definition heldOrLost (file : File.t) (x : Worker) : Prop :=
  match x with
  | Busy held _ _ => held = file
  | Failed => True
  | Done => False
  end.

(** Every file of the resolved list is still queued, has been fetched, or
    is with a worker, unless a worker has rejected. *)
Definition noFileForgotten (batch : list File.t) (st : State) : Prop :=
  Forall (requestMade (requests st)) (workers st)
  /\ forall file,
      In file batch ->
      In file (queue st) \/ In file (requests st)
      \/ exists w x, nth_error (workers st) w = Some x /\ heldOrLost file x.

(** ** The throughput computation in binary64 (lines 157-179)

    JavaScript numbers are IEEE 754 binary64 values.  The byte counts and
    the timestamps are integers far below 2^53 and are kept in [Z]; the
    three divisions of lines 169-171 and [Math.floor] are those of
    binary64, with round to nearest, ties to even. *)
Module Binary64.

Definition prec : Z := 53.
Definition emax : Z := 1024.

(** The number an integer literal or an integer-valued variable holds. *)
Definition ofInteger (z : Z) : spec_float :=
  binary_normalize prec emax z 0 false.

(** [x / y] *)
Definition div (x y : spec_float) : spec_float := SFdiv prec emax x y.

(** [x > 0] *)
Definition positive (x : spec_float) : bool := SFltb (ofInteger 0) x.

(** [Math.floor(x)] *)
Definition Math_floor (x : spec_float) : spec_float :=
  match x with
  | S754_finite s m e =>
      if e <? 0 then
        ofInteger (Z.shiftr (if s then Z.neg m else Z.pos m) (- e))
      else x
  | _ => x
  end.

Record Downloader := mkDownloader {
  dest : string;
  size : Z;
  amount : Z;
  downloaded : Counts.t;
  error : bool;
  speed : spec_float;
  eta : spec_float;
  history : list Sample.t
}.

(** The payload of [download_progress]. *)
Record Progress := mkProgress {
  total : Counts.t;
  progress_downloaded : Counts.t;
  progress_speed : spec_float;
  progress_eta : spec_float;
  type : File.Kind
}.

(** Line 169. *)
Definition elapsedSeconds (now : Z) (h : list Sample.t) : spec_float :=
  div (ofInteger (now - oldestTime h)) (ofInteger 1000).

(** Line 170. *)
Definition speedOf (now : Z) (h : list Sample.t) : spec_float :=
  let elapsed := elapsedSeconds now h in
  if positive elapsed then div (ofInteger (totalSampled h)) elapsed
  else ofInteger 0.

(** Line 171. *)
Definition etaOf (total downloadedSize : Z) (speed : spec_float)
  : spec_float :=
  if positive speed then div (ofInteger (total - downloadedSize)) speed
  else ofInteger 0.

(** The updates of the [data] handler to the Downloader object, for a chunk
    of [len] bytes received when [Date.now()] is [now]. *)
Definition onData (this : Downloader) (len : N) (now : Z) : Downloader :=
  let history' :=
    prune now (history this ++ [Sample.mk (Z.of_N len) now]) in
  let downloaded' :=
    Counts.mk (Counts.amount (downloaded this))
              (Counts.size (downloaded this) + Z.of_N len) in
  let speed' := speedOf now history' in
  let eta' := etaOf (size this) (Counts.size downloaded') speed' in
  mkDownloader (dest this) (size this) (amount this) downloaded'
               (error this) speed' eta' history'.

(** Lines 173-179. *)
Definition progressEvent (this : Downloader) (file : File.t) : Progress :=
  mkProgress (Counts.mk (amount this) (size this)) (downloaded this)
             (speed this) (Math_floor (eta this)) (File.type file).

(** Lines 45-51: the object when a batch of [count] files and [bytes]
    bytes starts. *)
Definition reset (root : string) (count bytes : Z) : Downloader :=
  mkDownloader root bytes count (Counts.mk 0 0) false (ofInteger 0)
               (ofInteger 0) [].

(** The handler run on a list of chunks, each with its [Date.now()]. *)
Definition onChunks (this : Downloader) (chunks : list (N * Z)) : Downloader :=
  fold_left (fun d c => onData d (fst c) (snd c)) chunks this.
End Binary64.

(** A clock that is set back: chunks at 7000 ms, at 0 ms, then at 6500 ms. *)
Definition exClockSetBack : list (N * Z) :=
  [(1%N, 7000); (1%N, 0); (1%N, 6500)].

(** One byte at 0 ms and two bytes at 72 ms of a file of 128 bytes. *)
Definition exSlowStart : list (N * Z) := [(1%N, 0); (2%N, 72)].

(** ** getFilesToDownload, one settled promise at a time (lines 82-114)

    [files.map] starts every callback at once; each runs up to its first
    [await], and is resumed when the promise it waits for settles.  The
    callbacks therefore interleave, and [filesToDownload.push] happens in
    the order in which they complete, not in the order of [files].  A
    primitive takes effect on the disk when its promise settles. *)
Module Interleaved.

(** Where a callback is suspended, or how it ended. *)
Inductive Stage :=
| FolderAccess      (* line 90: await fs.access(filePath) *)
| FolderMkdir       (* line 92: await fs.mkdir(filePath, ...) *)
| FileAccess        (* line 98: await fs.access(filePath) *)
| FileHash          (* line 99: await utils.getFileHash(filePath) *)
| Returned
| Threw.

Inductive Promise (A : Type) :=
| Waiting
| Fulfilled (value : A)
| Thrown.
Arguments Waiting {A}.
Arguments Fulfilled {A} value.
Arguments Thrown {A}.

Record Pass (FS : Type) := mkPass {
  disk : FS;
  callbacks : list (File.t * Stage);
  filesToDownload : list File.t
}.
Arguments mkPass {FS} disk callbacks filesToDownload.
Arguments disk {FS} p.
Arguments callbacks {FS} p.
Arguments filesToDownload {FS} p.

Section Callbacks.
Context {FS : Type} `{FileSystem FS}.
Variable root : string.

(** The callback of [file], suspended at its first [await]. *)
Definition called (file : File.t) : File.t * Stage :=
  (file, match File.type file with
         | File.FOLDER => FolderAccess
         | File.FILE => FileAccess
         end).

(** Lines 83-85. *)
Definition begin (fs : FS) (files : list File.t) : Pass FS :=
  mkPass fs (map called files) [].

Definition suspend (d : Pass FS) (i : nat) (file : File.t) (stage : Stage)
  : Pass FS :=
  mkPass (disk d) (update (callbacks d) i (file, stage)) (filesToDownload d).

(** Lines 106-108, and the callback returns. *)
Definition finish (d : Pass FS) (i : nat) (file : File.t)
           (needsDownload : bool) : Pass FS :=
  mkPass (disk d) (update (callbacks d) i (file, Returned))
         (if needsDownload && truthy (File.url file)
          then filesToDownload d ++ [file]
          else filesToDownload d).

(** The promise awaited by callback [i] settles and the callback runs up
    to its next [await]. *)
Definition settle (d : Pass FS) (i : nat) : Pass FS :=
  match nth_error (callbacks d) i with
  | Some (file, stage) =>
      let filePath := join [root; File.path file; File.name file] in
      match stage with
      | FolderAccess =>
          if access (disk d) filePath then suspend d i file FileAccess
          else suspend d i file FolderMkdir
      | FolderMkdir =>
          match mkdir (disk d) filePath with
          | Some fs' =>
              mkPass fs' (update (callbacks d) i (file, FileAccess))
                     (filesToDownload d)
          | None => suspend d i file Threw
          end
      | FileAccess =>
          if access (disk d) filePath then
            if truthy (File.sha1 file) then suspend d i file FileHash
            else finish d i file false
          else finish d i file true
      | FileHash =>
          match getFileHash (disk d) filePath, File.sha1 file with
          | Some local, Some h => finish d i file (negb (String.eqb h local))
          | _, _ => finish d i file true
          end
      | Returned | Threw => d
      end
  | None => d
  end.

Definition pass (fs : FS) (files : list File.t) (order : list nat) : Pass FS :=
  fold_left settle order (begin fs files).

(** The disk when the promise numbered [k] of [order] settles (for [k]
    the length of [order] or more: the disk in the end). *)
Definition diskAt (fs : FS) (files : list File.t) (order : list nat) (k : nat)
  : FS :=
  disk (pass fs files (firstn k order)).

(** The promises a callback has still to wait for, at most. *)
Definition awaitsLeft (stage : Stage) : nat :=
  match stage with
  | FolderAccess => 4
  | FolderMkdir => 3
  | FileAccess => 2
  | FileHash => 1
  | Returned | Threw => 0
  end.

Definition threw (c : File.t * Stage) : bool :=
  match snd c with Threw => true | _ => false end.

Definition returned (c : File.t * Stage) : bool :=
  match snd c with Returned => true | _ => false end.

(** Lines 111-113: [Promise.all] rejects as soon as one callback has
    thrown, and is fulfilled once all have returned. *)
Definition getFilesToDownload (fs : FS) (files : list File.t)
           (order : list nat) : Promise (list File.t) :=
  let d := pass fs files order in
  if existsb threw (callbacks d) then Thrown
  else if forallb returned (callbacks d) then Fulfilled (filesToDownload d)
  else Waiting.
End Callbacks.

(** [download(files, skipCheck)] up to the start of its batch, the promises
    of the diff pass settling in [order]. *)
Definition download {FS : Type} `{FileSystem FS} (prev : Downloader)
           (os : string) (fs : FS) (files : list File.t) (skipCheck : bool)
           (order : list nat) : Promise State :=
  if negb skipCheck then
    match getFilesToDownload (dest prev) fs files order with
    | Fulfilled filesToDownload =>
        Fulfilled (startBatch prev os filesToDownload)
    | Waiting => Waiting
    | Thrown => Thrown
    end
  else Fulfilled (startBatch prev os files).

(** Every callback of the first [n] is settled four times, one callback
    after the other. *)
Definition inTurn (n : nat) : list nat :=
  flat_map (fun i => [i; i; i; i]) (seq 0 n).
End Interleaved.

(** Modelled from the spec: the rule of the Diff Resolver for a FILE entry
    (absent locally, or hash set and not the hash recomputed for the local
    file, means "needs download"; hash unset, existence alone is enough to
    skip), for the entries that have a URL. *)
Definition toFetch {FS : Type} `{FileSystem FS} (root : string) (fs : FS)
           (file : File.t) : bool :=
  match File.url file with
  | Some u => negb (String.eqb u "")
  | None => false
  end
  && (negb (access fs (join [root; File.path file; File.name file]))
      || match File.sha1 file with
         | Some h =>
             negb (String.eqb h "")
             && match getFileHash fs (join [root; File.path file;
                                            File.name file]) with
                | Some local => negb (String.eqb h local)
                | None => true
                end
         | None => false
         end).

(** The callbacks of a manifest of FILE entries wait for [fs.access] or
    for the hash of a file that is there and whose descriptor has one, or
    have returned. *)
Definition fileStage {FS : Type} `{FileSystem FS} (root : string) (fs : FS)
           (c : File.t * Interleaved.Stage) : Prop :=
  match snd c with
  | Interleaved.FileAccess | Interleaved.Returned => True
  | Interleaved.FileHash =>
      access fs (join [root; File.path (fst c); File.name (fst c)]) = true
      /\ truthy (File.sha1 (fst c)) = true
  | _ => False
  end.

(** A stale file (its hash is not the announced one) listed before a
    missing one, on the disk that holds the first. *)
Definition exStale : File.t :=
  File.mk "old.jar" "libs" File.FILE (Some "http://h/old.jar") (Some 7%N)
          (Some "new") false.

Definition exMissing : File.t :=
  File.mk "gone.jar" "libs" File.FILE (Some "http://h/gone.jar") (Some 3%N)
          None false.

Definition exStaleDisk : Flat := [("game/libs/old.jar", Content "old")].

(** What one entry leaves behind once its callback has run to its end:
    the disk and the list of [checkFile], or a callback that has thrown. *)
Definition afterCallback {FS : Type} `{FileSystem FS} (root : string)
           (d : Interleaved.Pass FS) (n : nat) (file : File.t)
  : Interleaved.Pass FS :=
  match checkFile root (Interleaved.disk d) file with
  | Some (fs1, pushed) =>
      Interleaved.mkPass
        fs1 (update (Interleaved.callbacks d) n (file, Interleaved.Returned))
        (if pushed then Interleaved.filesToDownload d ++ [file]
         else Interleaved.filesToDownload d)
  | None =>
      Interleaved.mkPass
        (Interleaved.disk d)
        (update (Interleaved.callbacks d) n (file, Interleaved.Threw))
        (Interleaved.filesToDownload d)
  end.

(** Two descriptors are the same when all their fields are. *)
Definition File_eq_dec (x y : File.t) : {x = y} + {x <> y}.
Proof.
  decide equality;
    try apply Bool.bool_dec;
    try (decide equality; try apply N.eq_dec; apply string_dec);
    apply string_dec.
Defined.

(** The [fetch] calls a worker can still make for [file]. *)
Definition fetchesLeftFor (file : File.t) (x : Worker) : Z :=
  match x with
  | Busy held _ _ => if File_eq_dec held file then fetchesLeft x else 0
  | _ => 0
  end.

(** The [fetch] calls made for [file], those its workers can still make
    and six for each time it is queued never exceed six for each time it
    is listed. *)
Definition withinFileBudget (batch : list File.t) (file : File.t)
           (st : State) : Prop :=
  Z.of_nat (count_occ File_eq_dec (requests st) file)
  + sumOver (fetchesLeftFor file) (workers st)
  + 6 * Z.of_nat (count_occ File_eq_dec (queue st) file)
  <= 6 * Z.of_nat (count_occ File_eq_dec batch file).

(** * Properties *)

(** ** Field projections of the state updates *)

Lemma update_length {A} (l : list A) i x :
  List.length (update l i x) = List.length l.
Proof.
  revert i; induction l as [|h t IH]; intros [|j]; simpl; auto.
Qed.

Lemma nth_error_update_same {A} (l : list A) i x y :
  nth_error l i = Some y -> nth_error (update l i x) i = Some x.
Proof.
  revert i; induction l as [|h t IH]; intros [|j]; simpl;
    try discriminate; auto.
Qed.

Lemma nth_error_update_other {A} (l : list A) i j x :
  i <> j -> nth_error (update l i x) j = nth_error l j.
Proof.
  revert i j; induction l as [|h t IH]; intros [|i] [|j] Hij; simpl; auto;
    congruence.
Qed.

Lemma Forall_update {A} (P : A -> Prop) (l : list A) i x :
  Forall P l -> P x -> Forall P (update l i x).
Proof.
  intros Hl Hx; revert i; induction Hl as [|h t Hh Ht IH]; intros [|j]; simpl;
    constructor; auto.
Qed.

(** ** Retry policy *)

Lemma downloadFileWithRetry_catch_retry st w file attempt message :
  (attempt < 5)%nat ->
  downloadFileWithRetry_catch st w file attempt message
  = setWorker st w (Busy file attempt (Sleeping (retryDelay attempt))).
Proof.
  intros Hlt; unfold downloadFileWithRetry_catch.
  apply Nat.ltb_lt in Hlt; rewrite Hlt; reflexivity.
Qed.

Lemma downloadFileWithRetry_catch_exhausted st w file attempt message :
  (5 <= attempt)%nat ->
  downloadFileWithRetry_catch st w file attempt message
  = let st2 :=
      setWorker
        (emit st (download_error (File.name file) (File.type file) message))
        w Failed in
    match outcome st with
    | Pending =>
        setOutcome st2
          (Rejected ("Failed to download " ++ File.name file
                     ++ " after 5 attempts"))
    | _ => st2
    end.
Proof.
  intros Hge; unfold downloadFileWithRetry_catch.
  apply Nat.ltb_ge in Hge; rewrite Hge; reflexivity.
Qed.

(** ** Diff pass *)

Section DiffPassFacts.
Context {FS : Type} `{FileSystem FS}.


Lemma checkFile_FILE dest fs file :
  File.type file = File.FILE ->
  checkFile dest fs file
  = Some (fs, needsDownload fs (join [dest; File.path file; File.name file])
                            file
              && truthy (File.url file)).
Proof.
  intros Hty; unfold checkFile, ensureFolder; rewrite Hty; reflexivity.
Qed.


Lemma truthy_present (s : option string) : truthy s = true -> s <> None.
Proof. destruct s; [discriminate|discriminate]. Qed.
End DiffPassFacts.

(** ** A batch that has resolved does not move *)

Lemma all_done_lookup ws w :
  forallb isDone ws = true ->
  nth_error ws w = Some Done \/ nth_error ws w = None.
Proof.
  revert w; induction ws as [|x ws IH]; intros [|w] Hall; simpl in *; auto.
  - apply andb_true_iff in Hall as [Hx _]. destruct x; try discriminate; auto.
  - apply andb_true_iff in Hall as [_ Hws]. auto.
Qed.

Lemma step_all_done st ev :
  forallb isDone (workers st) = true -> step st ev = st.
Proof.
  intros Hall.
  destruct ev as [w err|w res|w len now|w|w msg|w|w msg|w err|w]; simpl; auto;
    destruct (all_done_lookup _ w Hall) as [-> | ->]; reflexivity.
Qed.

Lemma run_all_done st trace :
  forallb isDone (workers st) = true -> run st trace = st.
Proof.
  intros Hall; unfold run; induction trace as [|ev rest IH]; simpl; auto.
  rewrite step_all_done by exact Hall. exact IH.
Qed.

Lemma startBatch_zero_work prev os selected :
  sumSizes selected = 0 \/ selected = [] ->
  startBatch prev os selected
  = mkState (mkDownloader (dest prev) (sumSizes selected)
                          (Z.of_nat (List.length selected)) (Counts.mk 0 0)
                          false 0%Q 0%Q [])
            [] [] Resolved [] [download_end (Counts.mk 0 0)] os.
Proof.
  intros Hzero; unfold startBatch; cbn [size downloaded].
  destruct Hzero as [Hsum | ->].
  - rewrite Hsum; reflexivity.
  - reflexivity.
Qed.

(** ** Workers only ever hold files of the batch *)

Ltac fields :=
  unfold downloadFileWithRetry, setWorker, setThis, setQueue, setOutcome,
    logRequest, emit, incrAmount, giveBack;
  cbn [this queue workers outcome requests emitted platform dest size amount
       downloaded error speed eta history Counts.amount Counts.size].

Ltac step_cases st ev :=
  destruct ev as [w err|w res|w len now|w|w msg|w|w msg|w err|w]; unfold step;
  try (destruct (nth_error (workers st) w)
         as [[file attempt [ | |bytes| |delay]| |]|] eqn:Hw).

Lemma nth_error_Forall {A} (P : A -> Prop) l i x :
  Forall P l -> nth_error l i = Some x -> P x.
Proof.
  intros Hall Hnth. rewrite Forall_forall in Hall.
  apply Hall. eapply nth_error_In; eauto.
Qed.

Lemma fromBatch_setWorker batch st w x :
  fromBatch batch st -> holdsFrom batch x -> fromBatch batch (setWorker st w x).
Proof.
  intros (Hr & Hq & Hw) Hx.
  repeat split; simpl; auto; try (apply Forall_update; simpl; auto).
Qed.

Lemma fromBatch_failed batch st w file attempt message :
  fromBatch batch st -> In file batch ->
  fromBatch batch (downloadFileWithRetry_catch st w file attempt message).
Proof.
  intros Hinv Hin. unfold downloadFileWithRetry_catch.
  destruct (attempt <? 5)%nat.
  - apply fromBatch_setWorker; simpl; auto.
  - destruct Hinv as (Hr & Hq & Hw). cbn [outcome setWorker emit].
    destruct (outcome st); repeat split; simpl; auto;
      try (apply Forall_update; simpl; auto).
Qed.

Lemma fromBatch_settleAll batch st :
  fromBatch batch st -> fromBatch batch (settleAll st).
Proof.
  intros Hinv. unfold settleAll.
  destruct (outcome st); auto.
  destruct (forallb isDone (workers st)); auto.
Qed.

Lemma fromBatch_succeeded batch st w :
  fromBatch batch st -> fromBatch batch (downloadFileWithRetry_then st w).
Proof.
  intros (Hr & Hq & Hw). unfold downloadFileWithRetry_then. cbn [queue setThis].
  destruct (queue st) as [|file rest] eqn:Hqueue.
  - apply fromBatch_settleAll.
    repeat split; simpl; auto; try (apply Forall_update; simpl; auto).
    rewrite Hqueue; constructor.
  - inversion Hq; subst.
    repeat split; simpl; auto; try (apply Forall_update; simpl; auto).
Qed.

Lemma fromBatch_step batch st ev :
  fromBatch batch st -> fromBatch batch (step st ev).
Proof.
  intros Hinv.
  assert (Hhold : forall w x, nth_error (workers st) w = Some x ->
                              holdsFrom batch x).
  { intros w x. apply nth_error_Forall. apply Hinv. }
  step_cases st ev; auto;
    try (pose proof (Hhold _ _ Hw) as Hfile; simpl in Hfile).
  - destruct err.
    + now apply fromBatch_failed.
    + destruct Hinv as (Hr & Hq & Hws). repeat split; simpl; auto.
      * apply Forall_app; split; auto.
      * apply Forall_update; simpl; auto.
  - destruct res as [m|ok hasBody statusText].
    + now apply fromBatch_failed.
    + destruct (negb ok || negb hasBody).
      * now apply fromBatch_failed.
      * apply fromBatch_setWorker; simpl; auto.
  - destruct Hinv as (Hr & Hq & Hws). repeat split; simpl; auto.
    apply Forall_update; simpl; auto.
  - apply fromBatch_failed; auto.
  - destruct (chmodJavaFiles st file).
    + apply fromBatch_setWorker; simpl; auto.
    + now apply fromBatch_succeeded.
  - apply fromBatch_failed; auto.
  - destruct err.
    + now apply fromBatch_failed.
    + now apply fromBatch_succeeded.
  - apply fromBatch_setWorker; simpl; auto.
Qed.

Lemma fromBatch_run batch trace :
  forall st, fromBatch batch st -> fromBatch batch (run st trace).
Proof.
  unfold run; induction trace as [|ev rest IH]; simpl;
    auto using fromBatch_step.
Qed.

Lemma spawn_fromBatch batch n :
  forall q, Forall (fun f => In f batch) q ->
            Forall (holdsFrom batch) (fst (spawn n q))
            /\ Forall (fun f => In f batch) (snd (spawn n q)).
Proof.
  induction n as [|n IH]; intros q Hq; simpl; auto.
  destruct q as [|file rest].
  - specialize (IH [] Hq). destruct (spawn n []) as [ws q']; simpl in *.
    destruct IH; split; auto; constructor; simpl; auto.
  - inversion Hq; subst. specialize (IH rest H2).
    destruct (spawn n rest) as [ws q']; simpl in *.
    destruct IH; split; auto; constructor; simpl; auto.
Qed.

Lemma fromBatch_start prev os batch :
  fromBatch batch (startBatch prev os batch).
Proof.
  unfold startBatch.
  destruct (_ || _).
  - repeat split; simpl; constructor.
  - assert (Hall : Forall (fun f => In f batch) batch)
      by (apply Forall_forall; auto).
    destruct (spawn_fromBatch batch CONCURRENCY_LIMIT batch Hall) as [Hws Hq].
    destruct (spawn CONCURRENCY_LIMIT batch) as [ws q]; simpl in *.
    repeat split; simpl; auto.
Qed.

(** Every [fetch] of a run was made for a file of the resolved list. *)
Lemma requests_from_batch prev os batch trace file :
  In file (requests (run (startBatch prev os batch) trace)) -> In file batch.
Proof.
  intros Hin.
  destruct (fromBatch_run batch trace _ (fromBatch_start prev os batch))
    as (Hr & _).
  rewrite Forall_forall in Hr. auto.
Qed.

(** ** The end event and the outcome of the call *)

Lemma countEnd_app log e :
  countEnd (log ++ [e])
  = (countEnd log + match e with download_end _ => 1 | _ => 0 end)%nat.
Proof.
  induction log as [|e' log IH]; simpl.
  - destruct e; reflexivity.
  - destruct e'; simpl; rewrite IH; reflexivity.
Qed.

Lemma endMatchesOutcome_failed st w file attempt message :
  outcome st <> Resolved -> endMatchesOutcome st ->
  endMatchesOutcome (downloadFileWithRetry_catch st w file attempt message).
Proof.
  unfold endMatchesOutcome, downloadFileWithRetry_catch. intros Hne Hinv.
  destruct (attempt <? 5)%nat; cbn [outcome setWorker emit emitted setOutcome].
  - destruct (outcome st); try congruence; exact Hinv.
  - destruct (outcome st) eqn:Ho;
      cbn [outcome setWorker emit emitted setOutcome]; try congruence;
      rewrite ?Ho, countEnd_app, Hinv; reflexivity.
Qed.

Lemma endMatchesOutcome_settleAll st :
  outcome st <> Resolved -> endMatchesOutcome st ->
  endMatchesOutcome (settleAll st).
Proof.
  unfold endMatchesOutcome, settleAll. intros Hne Hinv.
  destruct (outcome st) eqn:Ho; try congruence; try (rewrite Ho; exact Hinv).
  destruct (forallb isDone (workers st)) eqn:Hall; simpl.
  - split; [exact Hall|]. now exists (emitted st).
  - rewrite Ho; exact Hinv.
Qed.

Lemma endMatchesOutcome_succeeded st w :
  outcome st <> Resolved -> endMatchesOutcome st ->
  endMatchesOutcome (downloadFileWithRetry_then st w).
Proof.
  intros Hne Hinv. unfold downloadFileWithRetry_then. cbn [queue setThis].
  destruct (queue st) as [|file rest].
  - apply endMatchesOutcome_settleAll; [exact Hne|].
    unfold endMatchesOutcome in *; simpl.
    destruct (outcome st); try congruence; exact Hinv.
  - unfold endMatchesOutcome in *; simpl.
    destruct (outcome st); try congruence; exact Hinv.
Qed.

Lemma endMatchesOutcome_step st ev :
  endMatchesOutcome st -> endMatchesOutcome (step st ev).
Proof.
  intros Hinv.
  destruct (outcome st) eqn:Ho.
  2:{ unfold endMatchesOutcome in Hinv; rewrite Ho in Hinv.
      rewrite step_all_done by apply Hinv.
      unfold endMatchesOutcome; rewrite Ho; exact Hinv. }
  all: assert (Hne : outcome st <> Resolved) by congruence.
  all: assert (Hplain : forall st', outcome st' = outcome st ->
                          countEnd (emitted st') = countEnd (emitted st) ->
                          endMatchesOutcome st')
    by (intros st' Ho' He'; unfold endMatchesOutcome in *;
        rewrite Ho' , Ho in *; congruence).
  all: step_cases st ev; auto;
    repeat match goal with
      | |- context [match ?x with _ => _ end] => destruct x
      end;
    try (apply endMatchesOutcome_failed; [assumption|]);
    try (apply endMatchesOutcome_succeeded; [assumption|]);
    auto;
    try (apply Hplain; simpl; rewrite ?countEnd_app; simpl; auto; lia).
Qed.

Lemma endMatchesOutcome_run trace :
  forall st, endMatchesOutcome st -> endMatchesOutcome (run st trace).
Proof.
  unfold run; induction trace as [|ev rest IH]; simpl;
    auto using endMatchesOutcome_step.
Qed.

Lemma endMatchesOutcome_start prev os batch :
  endMatchesOutcome (startBatch prev os batch).
Proof.
  unfold startBatch.
  destruct (_ || _).
  - unfold endMatchesOutcome; simpl. split; auto. now exists [].
  - destruct (spawn CONCURRENCY_LIMIT batch) as [ws q].
    unfold endMatchesOutcome; reflexivity.
Qed.
(** ** Retry delays *)


Lemma workers_settleAll st : workers (settleAll st) = workers st.
Proof.
  unfold settleAll. destruct (outcome st); auto.
  destruct (forallb isDone (workers st)); auto.
Qed.






(** ** Counting files *)

Lemma sumOver_update {A} (f : A -> Z) l i x y :
  nth_error l i = Some x ->
  sumOver f (update l i y) = sumOver f l - f x + f y.
Proof.
  revert i; induction l as [|h t IH]; intros [|j] Hnth; simpl in *;
    try discriminate.
  - injection Hnth as ->. lia.
  - rewrite (IH _ Hnth). lia.
Qed.

Lemma sumOver_nonneg {A} (f : A -> Z) l :
  (forall x, 0 <= f x) -> 0 <= sumOver f l.
Proof.
  intros Hf; induction l as [|h t IH]; simpl; [lia|].
  specialize (Hf h); lia.
Qed.

Lemma notDone_nonneg x : 0 <= notDone x.
Proof. destruct x; simpl; lia. Qed.

Lemma sizeOrZero_nonneg file : 0 <= sizeOrZero file.
Proof. unfold sizeOrZero; destruct (File.size file); lia. Qed.

Lemma onData_fields d len now :
  dest (onData d len now) = dest d
  /\ size (onData d len now) = size d
  /\ amount (onData d len now) = amount d
  /\ Counts.amount (downloaded (onData d len now))
     = Counts.amount (downloaded d)
  /\ Counts.size (downloaded (onData d len now))
     = Counts.size (downloaded d) + Z.of_N len
  /\ error (onData d len now) = error d.
Proof. repeat split. Qed.

Lemma amountAccounted_failed st w file attempt phase message :
  nth_error (workers st) w = Some (Busy file attempt phase) ->
  amountAccounted st ->
  amountAccounted (downloadFileWithRetry_catch st w file attempt message).
Proof.
  intros Hw [Hsum Hev]. unfold downloadFileWithRetry_catch, amountAccounted.
  destruct (attempt <? 5)%nat.
  - fields.
    rewrite (sumOver_update _ _ _ _ _ Hw). simpl. split; [lia|exact Hev].
  - fields.
    destruct (outcome st); fields;
      rewrite (sumOver_update _ _ _ _ _ Hw); simpl;
      (split; [lia|apply Forall_app; split; auto; constructor; simpl; auto]).
Qed.

Lemma amountAccounted_settleAll st :
  amountAccounted st -> amountAccounted (settleAll st).
Proof.
  intros [Hsum Hev]. unfold settleAll.
  destruct (outcome st); try (split; assumption).
  destruct (forallb isDone (workers st)); try (split; assumption).
  split; simpl; [exact Hsum|].
  apply Forall_app; split; auto. constructor; simpl; auto.
Qed.

Lemma amountAccounted_succeeded st w file attempt phase :
  nth_error (workers st) w = Some (Busy file attempt phase) ->
  amountAccounted st ->
  amountAccounted (downloadFileWithRetry_then st w).
Proof.
  intros Hw [Hsum Hev]. unfold downloadFileWithRetry_then. cbn [queue setThis].
  destruct (queue st) as [|next rest] eqn:Hq.
  - apply amountAccounted_settleAll. split; [|exact Hev].
    fields.
    rewrite (sumOver_update _ _ _ _ _ Hw), Hq. simpl in *. lia.
  - split; [|exact Hev].
    fields.
    rewrite (sumOver_update _ _ _ _ _ Hw).
    change (List.length (next :: rest)) with (S (List.length rest)) in Hsum.
    simpl notDone. lia.
Qed.

Lemma amountAccounted_bound st :
  amountAccounted st ->
  Counts.amount (downloaded (this st)) <= amount (this st).
Proof.
  intros [Hsum _].
  pose proof (sumOver_nonneg notDone (workers st) notDone_nonneg). lia.
Qed.

Lemma amountAccounted_step st ev :
  amountAccounted st -> amountAccounted (step st ev).
Proof.
  intros Hinv. pose proof (amountAccounted_bound st Hinv) as Hb.
  step_cases st ev; auto.
  - destruct err.
    + eapply amountAccounted_failed; eauto.
    + destruct Hinv as [Hsum Hev]. split; [|exact Hev].
      fields.
      rewrite (sumOver_update _ _ _ _ _ Hw). simpl. lia.
  - destruct res as [m|ok hasBody statusText];
      [|destruct (negb ok || negb hasBody)];
      try (eapply amountAccounted_failed; eauto).
    destruct Hinv as [Hsum Hev]. split; [|exact Hev].
    fields.
    rewrite (sumOver_update _ _ _ _ _ Hw). simpl. lia.
  - destruct Hinv as [Hsum Hev].
    destruct (onData_fields (this st) len now) as (_ & _ & Ha & Hda & _).
    split.
    + fields.
      rewrite (sumOver_update _ _ _ _ _ Hw), Ha, Hda. simpl. lia.
    + fields.
      apply Forall_app; split; [exact Hev|]. constructor; [|constructor].
      unfold progressEvent, amountBounded. cbn [Counts.amount].
      rewrite Ha, Hda. exact Hb.
  - eapply amountAccounted_failed with (st := setThis st _); eauto.
  - destruct (chmodJavaFiles st file).
    + destruct Hinv as [Hsum Hev]. split; [|exact Hev].
      fields.
      rewrite (sumOver_update _ _ _ _ _ Hw). simpl. lia.
    + eapply amountAccounted_succeeded; eauto.
  - eapply amountAccounted_failed with (st := setThis st _); eauto.
  - destruct err.
    + eapply amountAccounted_failed; eauto.
    + eapply amountAccounted_succeeded; eauto.
  - destruct Hinv as [Hsum Hev]. split; [|exact Hev].
    fields.
    rewrite (sumOver_update _ _ _ _ _ Hw). simpl. lia.
Qed.

Lemma amountAccounted_run trace :
  forall st, amountAccounted st -> amountAccounted (run st trace).
Proof.
  unfold run; induction trace as [|ev rest IH]; simpl;
    auto using amountAccounted_step.
Qed.

Lemma spawn_amount n :
  forall q, Z.of_nat (List.length (snd (spawn n q)))
            + sumOver notDone (fst (spawn n q))
            = Z.of_nat (List.length q).
Proof.
  induction n as [|n IH]; intros q; [simpl; lia|].
  destruct q as [|file rest]; cbn [spawn].
  - specialize (IH []). destruct (spawn n []); simpl in *. lia.
  - specialize (IH rest). destruct (spawn n rest).
    cbn [fst snd sumOver fold_right notDone List.length] in *.
    rewrite Nat2Z.inj_succ. lia.
Qed.

Lemma amountAccounted_start prev os batch :
  amountAccounted (startBatch prev os batch).
Proof.
  unfold startBatch.
  destruct (_ || _).
  - split; simpl; [lia|]. constructor; simpl; auto.
  - pose proof (spawn_amount CONCURRENCY_LIMIT batch) as Hs.
    destruct (spawn CONCURRENCY_LIMIT batch) as [ws q].
    split; [|constructor].
    cbn [this queue workers downloaded Counts.amount amount fst snd] in *. lia.
Qed.
(** ** Counting bytes *)

Lemma slack_nonneg x : withinSize x -> 0 <= slack x.
Proof.
  destruct x as [file attempt [| |bytes| |delay]| |]; simpl;
    intros; try lia; apply sizeOrZero_nonneg.
Qed.

Lemma sumOver_slack_nonneg ws : Forall withinSize ws -> 0 <= sumOver slack ws.
Proof.
  induction 1 as [|x ws Hx _ IH]; simpl; [lia|].
  pose proof (slack_nonneg x Hx); lia.
Qed.

Lemma sizeAccounted_bound st :
  sizeAccounted st -> Counts.size (downloaded (this st)) <= size (this st).
Proof.
  intros (Hsum & Hws & _).
  pose proof (sumOver_slack_nonneg _ Hws).
  pose proof (sumOver_nonneg sizeOrZero (queue st) sizeOrZero_nonneg). lia.
Qed.

Lemma sizeAccounted_failed st w file attempt old message :
  nth_error (workers st) w = Some old ->
  Counts.size (downloaded (this st))
  + (sumOver slack (workers st) - slack old + sizeOrZero file)
  + sumOver sizeOrZero (queue st) <= size (this st) ->
  Forall withinSize (workers st) ->
  Forall sizeBounded (emitted st) ->
  sizeAccounted (downloadFileWithRetry_catch st w file attempt message).
Proof.
  intros Hw Hsum Hws Hev. unfold downloadFileWithRetry_catch, sizeAccounted.
  pose proof (sizeOrZero_nonneg file).
  destruct (attempt <? 5)%nat.
  - fields. rewrite (sumOver_update _ _ _ _ _ Hw). simpl slack.
    repeat split; [lia| |exact Hev]. apply Forall_update; simpl; auto.
  - fields. destruct (outcome st); fields;
      rewrite (sumOver_update _ _ _ _ _ Hw); simpl slack;
      (repeat split;
       [lia
       |apply Forall_update; simpl; auto
       |apply Forall_app; split; auto; constructor; simpl; auto]).
Qed.

Lemma sizeAccounted_settleAll st :
  sizeAccounted st -> sizeAccounted (settleAll st).
Proof.
  intros (Hsum & Hws & Hev). unfold settleAll.
  destruct (outcome st); try (repeat split; assumption).
  destruct (forallb isDone (workers st)); try (repeat split; assumption).
  repeat split; fields; auto.
  apply Forall_app; split; auto. constructor; simpl; auto.
Qed.

Lemma sizeAccounted_succeeded st w old :
  nth_error (workers st) w = Some old ->
  sizeAccounted st ->
  sizeAccounted (downloadFileWithRetry_then st w).
Proof.
  intros Hw (Hsum & Hws & Hev).
  unfold downloadFileWithRetry_then. cbn [queue setThis].
  pose proof (slack_nonneg old (nth_error_Forall _ _ _ _ Hws Hw)) as Hold.
  destruct (queue st) as [|next rest] eqn:Hq.
  - apply sizeAccounted_settleAll. unfold sizeAccounted. fields.
    rewrite (sumOver_update _ _ _ _ _ Hw), Hq. simpl in *.
    repeat split; [lia| |exact Hev]. apply Forall_update; simpl; auto.
  - unfold sizeAccounted. fields.
    rewrite (sumOver_update _ _ _ _ _ Hw). simpl in *.
    repeat split; [lia| |exact Hev]. apply Forall_update; simpl; auto.
Qed.

Lemma sizeAccounted_step st ev :
  keepsToManifest st ev = true ->
  sizeAccounted st -> sizeAccounted (step st ev).
Proof.
  intros Hkeep Hinv.
  assert (Hmove : forall w old new,
             nth_error (workers st) w = Some old ->
             slack new <= slack old -> withinSize new ->
             sizeAccounted (setWorker st w new)).
  { intros w old new Hw Hle Hnew. destruct Hinv as (Hsum & Hws & Hev).
    unfold sizeAccounted. fields. rewrite (sumOver_update _ _ _ _ _ Hw).
    repeat split; [lia| |exact Hev]. apply Forall_update; auto. }
  step_cases st ev; auto.
  - destruct err.
    + destruct Hinv as (Hsum & Hws & Hev).
      eapply sizeAccounted_failed; eauto. simpl; lia.
    + destruct Hinv as (Hsum & Hws & Hev).
      unfold sizeAccounted. fields. rewrite (sumOver_update _ _ _ _ _ Hw).
      simpl slack.
      repeat split; [lia| |exact Hev]. apply Forall_update; simpl; auto.
  - pose proof (sizeOrZero_nonneg file).
    destruct res as [m|ok hasBody statusText];
      [|destruct (negb ok || negb hasBody)];
      try (destruct Hinv as (Hsum & Hws & Hev);
           eapply sizeAccounted_failed; eauto; simpl; lia).
    eapply Hmove; eauto; simpl; lia.
  - unfold keepsToManifest in Hkeep. rewrite Hw in Hkeep.
    apply Z.leb_le in Hkeep.
    destruct (onData_fields (this st) len now) as (_ & Hs & _ & _ & Hds & _).
    assert (Hnext : sizeAccounted
                      (setWorker (setThis st (onData (this st) len now)) w
                         (Busy file attempt (Streaming (bytes + Z.of_N len))))).
    { destruct Hinv as (Hsum & Hws & Hev).
      unfold sizeAccounted. fields. rewrite (sumOver_update _ _ _ _ _ Hw).
      rewrite Hs, Hds. simpl slack.
      repeat split; [lia| |exact Hev]. apply Forall_update; simpl; auto. }
    pose proof (sizeAccounted_bound _ Hnext) as Hb.
    destruct Hnext as (Hsum' & Hws' & Hev').
    unfold sizeAccounted. fields. repeat split; auto.
    apply Forall_app; split; [exact Hev'|]. constructor; [|constructor].
    unfold progressEvent, sizeBounded. cbn [Counts.size].
    revert Hb. fields. auto.
  - destruct Hinv as (Hsum & Hws & Hev).
    eapply sizeAccounted_failed with (st := setThis st _); eauto.
    fields. simpl slack. lia.
  - pose proof (nth_error_Forall _ _ _ _ (proj1 (proj2 Hinv)) Hw) as Hin.
    simpl in Hin.
    destruct (chmodJavaFiles st file).
    + eapply Hmove; eauto; simpl; auto; lia.
    + eapply sizeAccounted_succeeded; eauto.
  - destruct Hinv as (Hsum & Hws & Hev).
    eapply sizeAccounted_failed with (st := setThis st _); eauto.
    fields. simpl slack. lia.
  - destruct err.
    + unfold keepsToManifest in Hkeep. rewrite Hw in Hkeep. discriminate.
    + eapply sizeAccounted_succeeded; eauto.
  - eapply Hmove; eauto; simpl; auto; lia.
Qed.

Lemma sizeAccounted_run trace :
  forall st, runKeepsToManifest st trace = true ->
             sizeAccounted st -> sizeAccounted (run st trace).
Proof.
  unfold run; induction trace as [|ev rest IH]; simpl; auto.
  intros st Hkeep Hinv. apply andb_true_iff in Hkeep as [Hev Hrest].
  apply IH; auto using sizeAccounted_step.
Qed.

Lemma fold_left_sum {A} (f : A -> Z) l :
  forall a, fold_left (fun acc x => acc + f x) l a = a + sumOver f l.
Proof.
  induction l as [|h t IH]; intros a; simpl; [lia|]. rewrite IH. lia.
Qed.

Lemma sumSizes_sumOver files : sumSizes files = sumOver sizeOrZero files.
Proof. unfold sumSizes. rewrite fold_left_sum. lia. Qed.

Lemma sumOver_cons {A} (f : A -> Z) x l :
  sumOver f (x :: l) = f x + sumOver f l.
Proof. reflexivity. Qed.

Lemma spawn_size n :
  forall q, sumOver slack (fst (spawn n q))
            + sumOver sizeOrZero (snd (spawn n q))
            = sumOver sizeOrZero q
            /\ Forall withinSize (fst (spawn n q)).
Proof.
  induction n as [|n IH]; intros q; [simpl; split; [lia|constructor]|].
  destruct q as [|file rest]; cbn [spawn].
  - specialize (IH []). destruct (spawn n []). cbn [fst snd] in *.
    rewrite sumOver_cons. simpl slack.
    destruct IH; split; [lia|constructor; simpl; auto].
  - specialize (IH rest). destruct (spawn n rest). cbn [fst snd] in *.
    rewrite !sumOver_cons. simpl slack.
    destruct IH; split; [lia|constructor; simpl; auto].
Qed.

Lemma sizeAccounted_start prev os batch :
  sizeAccounted (startBatch prev os batch).
Proof.
  unfold startBatch. cbn [size].
  destruct (_ || _) eqn:Hzero.
  - pose proof (sumOver_nonneg sizeOrZero batch sizeOrZero_nonneg).
    unfold sizeAccounted; simpl. rewrite sumSizes_sumOver.
    repeat split; [lia|constructor|constructor; simpl; auto].
  - destruct (spawn_size CONCURRENCY_LIMIT batch) as [Hs Hws].
    destruct (spawn CONCURRENCY_LIMIT batch) as [ws q].
    unfold sizeAccounted.
    cbn [this queue workers emitted downloaded Counts.size size fst snd] in *.
    rewrite sumSizes_sumOver. repeat split; [lia|exact Hws|constructor].
Qed.
(** ** Throughput *)

Lemma totalSampled_sum h : totalSampled h = sumOver Sample.size h.
Proof. unfold totalSampled. rewrite fold_left_sum. lia. Qed.

Lemma prune_push_nonempty now h len :
  prune now (h ++ [Sample.mk len now]) <> [].
Proof.
  induction h as [|s rest IH]; simpl.
  - replace (now - now) with 0 by lia. simpl. discriminate.
  - destruct (6000 <? now - Sample.time s); [exact IH|discriminate].
Qed.

(** What [prune] removes is a prefix of samples that are all too old. *)
Lemma prune_suffix now h :
  exists old, h = old ++ prune now h
              /\ Forall (fun s => 6000 < now - Sample.time s) old.
Proof.
  induction h as [|s rest (old & Heq & Hold)]; simpl.
  - exists []; split; auto.
  - destruct (6000 <? now - Sample.time s) eqn:Hs.
    + exists (s :: old); split.
      * simpl; congruence.
      * constructor; auto. now apply Z.ltb_lt.
    + exists []; split; auto.
Qed.

Lemma withinWindow_all now bound h :
  now - bound <= 6000 ->
  forallb (fun later => bound <=? Sample.time later) h = true ->
  withinWindow now h = h.
Proof.
  intros Hb; induction h as [|s rest IH]; simpl; auto.
  intros Hall; apply andb_true_iff in Hall as [Hs Hrest].
  apply Z.leb_le in Hs.
  replace (now - Sample.time s <=? 6000) with true
    by (symmetry; apply Z.leb_le; lia).
  f_equal; auto.
Qed.

Lemma prune_withinWindow now h :
  chronological h = true -> prune now h = withinWindow now h.
Proof.
  induction h as [|s rest IH]; simpl; auto.
  intros Hc; apply andb_true_iff in Hc as [Hs Hrest].
  destruct (6000 <? now - Sample.time s) eqn:Hold.
  - apply Z.ltb_lt in Hold.
    replace (now - Sample.time s <=? 6000) with false
      by (symmetry; apply Z.leb_gt; lia).
    auto.
  - apply Z.ltb_ge in Hold.
    replace (now - Sample.time s <=? 6000) with true
      by (symmetry; apply Z.leb_le; lia).
    f_equal. symmetry. eapply withinWindow_all; eauto.
Qed.

Lemma chronological_last h s :
  chronological (h ++ [s]) = true ->
  Forall (fun x => Sample.time x <= Sample.time s) (h ++ [s]).
Proof.
  induction h as [|x rest IH]; simpl.
  - intros _. constructor; [lia|constructor].
  - intros Hc; apply andb_true_iff in Hc as [Hx Hrest].
    constructor; auto.
    rewrite forallb_app in Hx. apply andb_true_iff in Hx as [_ Hx].
    simpl in Hx. apply andb_true_iff in Hx as [Hx _]. now apply Z.leb_le.
Qed.

Lemma Qlt_bool_iff x y : Qlt_bool x y = true <-> (x < y)%Q.
Proof.
  unfold Qlt_bool. rewrite negb_true_iff.
  split.
  - intros Hle. apply Qnot_le_lt. intros Hc.
    apply Qle_bool_iff in Hc. congruence.
  - intros Hlt. destruct (Qle_bool y x) eqn:Hle; auto.
    apply Qle_bool_iff in Hle. exfalso. eapply Qlt_not_le; eauto.
Qed.

Lemma elapsed_positive now oldest :
  (0 < inject_Z (now - oldest) / inject_Z 1000)%Q <-> oldest < now.
Proof.
  unfold Qlt, Qdiv, Qmult, Qinv, inject_Z; simpl. lia.
Qed.

Lemma speedOf_zero now h : oldestTime h = now -> speedOf now h = 0%Q.
Proof.
  intros Heq. unfold speedOf, elapsedSeconds. rewrite Heq.
  replace (now - now) with 0 by lia. reflexivity.
Qed.

Lemma speedOf_positive now h :
  oldestTime h < now ->
  speedOf now h
  = (inject_Z (sumOver Sample.size h)
     / (inject_Z (now - oldestTime h) / inject_Z 1000))%Q.
Proof.
  intros Hlt. unfold speedOf, elapsedSeconds.
  apply elapsed_positive in Hlt. apply Qlt_bool_iff in Hlt.
  unfold elapsedSeconds in Hlt. rewrite Hlt, totalSampled_sum. reflexivity.
Qed.
Lemma chronological_suffix a b :
  chronological (a ++ b) = true -> chronological b = true.
Proof.
  induction a as [|x a IH]; simpl; auto.
  intros Hc; apply andb_true_iff in Hc as [_ Hc]; auto.
Qed.

Lemma chronological_push h len t :
  chronological h = true ->
  Forall (fun x => Sample.time x <= t) h ->
  chronological (h ++ [Sample.mk len t]) = true.
Proof.
  induction h as [|x h IH]; simpl; auto.
  intros Hc Hall; apply andb_true_iff in Hc as [Hx Hc].
  inversion Hall; subst.
  apply andb_true_iff; split; auto.
  rewrite forallb_app, Hx. simpl.
  apply andb_true_iff; split; auto. now apply Z.leb_le.
Qed.

(** With a clock that does not go back, the history stays in arrival
    order from one chunk to the next. *)
Lemma chronological_kept d len now len' now' :
  chronological (history d ++ [Sample.mk (Z.of_N len) now]) = true ->
  now <= now' ->
  chronological (history (onData d len now) ++ [Sample.mk (Z.of_N len') now'])
  = true.
Proof.
  intros Hc Hle.
  change (history (onData d len now))
    with (prune now (history d ++ [Sample.mk (Z.of_N len) now])).
  destruct (prune_suffix now (history d ++ [Sample.mk (Z.of_N len) now]))
    as (old & Heq & _).
  pose proof (chronological_last _ _ Hc) as Hall.
  rewrite Heq in Hc, Hall.
  apply chronological_push.
  - eapply chronological_suffix; eauto.
  - apply Forall_app in Hall as [_ Hall].
    eapply Forall_impl; [|exact Hall]. simpl; intros; lia.
Qed.

(** ** One attempt among the others *)

Lemma workers_failed st w file attempt message :
  exists x,
    workers (downloadFileWithRetry_catch st w file attempt message)
    = update (workers st) w x.
Proof.
  unfold downloadFileWithRetry_catch. destruct (attempt <? 5)%nat.
  - eexists; reflexivity.
  - fields. destruct (outcome st); eexists; reflexivity.
Qed.

Lemma workers_succeeded st w :
  exists x, workers (downloadFileWithRetry_then st w) = update (workers st) w x.
Proof.
  unfold downloadFileWithRetry_then. cbn [queue setThis].
  destruct (queue st).
  - rewrite workers_settleAll. eexists; reflexivity.
  - eexists; reflexivity.
Qed.

(** An event only moves the worker it is delivered to. *)
Lemma step_other_worker st ev w :
  eventWorker ev <> w ->
  nth_error (workers (step st ev)) w = nth_error (workers st) w.
Proof.
  intros Hne.
  assert (Hupd : forall st' x,
             workers st' = update (workers st) (eventWorker ev) x ->
             nth_error (workers st') w = nth_error (workers st) w)
    by (intros st' x ->; now apply nth_error_update_other).
  destruct ev as [w' err|w' res|w' len now|w'|w' msg|w'|w' msg|w' err|w'];
    unfold step; auto;
    destruct (nth_error (workers st) w')
      as [[file attempt [ | |bytes| |delay]| |]|]; auto;
    simpl eventWorker in *;
    repeat match goal with
      | |- context [match ?x with _ => _ end] => destruct x
      | |- context [if ?x then _ else _] => destruct x
      end;
    try (destruct (workers_failed st w' file attempt s) as [x Hx];
         now apply (Hupd _ x));
    try (destruct (workers_succeeded st w') as [x Hx]; now apply (Hupd _ x));
    try (eapply Hupd; reflexivity).
  all: match goal with
       | |- context [downloadFileWithRetry_catch ?s ?a ?f ?n ?m] =>
           destruct (workers_failed s a f n m) as [x Hx];
           now apply (Hupd _ x)
       end.
Qed.

(** While worker [w] streams, its counter is the sum of the chunks it has
    received, whatever the other workers do. *)
Lemma streaming_counts_chunks w file attempt trace :
  forall st bytes,
    nth_error (workers st) w = Some (Busy file attempt (Streaming bytes)) ->
    forallb (duringAttempt w) trace = true ->
    nth_error (workers (run st trace)) w
    = Some (Busy file attempt (Streaming (bytes + bytesCounted w trace))).
Proof.
  unfold run.
  induction trace as [|ev rest IH]; intros st bytes Hw Hall; cbn [fold_left].
  - rewrite Hw; simpl; do 3 f_equal; lia.
  - simpl in Hall. apply andb_true_iff in Hall as [Hev Hrest].
    unfold duringAttempt in Hev.
    destruct (eventWorker ev =? w)%nat eqn:Hsame.
    + apply Nat.eqb_eq in Hsame.
      destruct ev; try discriminate; simpl in Hsame; subst w0.
      * rewrite (IH _ (bytes + Z.of_N len)); auto.
        -- simpl. rewrite Nat.eqb_refl. do 3 f_equal; lia.
        -- unfold step; rewrite Hw. fields.
           eapply nth_error_update_same; eauto.
      * apply IH; auto.
    + apply Nat.eqb_neq in Hsame.
      assert (Hskip : bytesCounted w (ev :: rest) = bytesCounted w rest).
      { destruct ev; simpl in *; auto.
        apply Nat.eqb_neq in Hsame. rewrite Hsame. lia. }
      rewrite Hskip. apply IH; auto.
      rewrite step_other_worker; auto.
Qed.

(** The error path of the stream promise, field by field. *)
Lemma stream_error_frame st w file attempt bytes message ev :
  nth_error (workers st) w = Some (Busy file attempt (Streaming bytes)) ->
  ev = BodyError w message \/ ev = StreamError w message ->
  Counts.size (downloaded (this (step st ev)))
  = Counts.size (downloaded (this st)) - bytes
  /\ Counts.amount (downloaded (this (step st ev)))
     = Counts.amount (downloaded (this st))
  /\ amount (this (step st ev)) = amount (this st)
  /\ size (this (step st ev)) = size (this st)
  /\ history (this (step st ev)) = history (this st)
  /\ speed (this (step st ev)) = speed (this st)
  /\ eta (this (step st ev)) = eta (this st)
  /\ queue (step st ev) = queue st
  /\ requests (step st ev) = requests st
  /\ nth_error (workers (step st ev)) w
     = Some (if (attempt <? 5)%nat
             then Busy file attempt (Sleeping (retryDelay attempt))
             else Failed).
Proof.
  intros Hw [-> | ->]; unfold step; rewrite Hw;
    unfold downloadFileWithRetry_catch;
    destruct (attempt <? 5)%nat; fields;
    try (destruct (outcome st); fields);
    repeat split; eapply nth_error_update_same; eauto.
Qed.
(** ** A rejected call stays rejected *)

Lemma outcome_failed st w file attempt message m :
  outcome st = Rejected m ->
  outcome (downloadFileWithRetry_catch st w file attempt message) = Rejected m.
Proof.
  intros Ho. unfold downloadFileWithRetry_catch.
  destruct (attempt <? 5)%nat; fields; auto.
  rewrite Ho; fields; auto.
Qed.

Lemma outcome_succeeded st w m :
  outcome st = Rejected m ->
  outcome (downloadFileWithRetry_then st w) = Rejected m.
Proof.
  intros Ho. unfold downloadFileWithRetry_then. cbn [queue setThis].
  destruct (queue st); fields; auto.
  unfold settleAll; fields. rewrite Ho. fields. auto.
Qed.

Lemma rejected_step st ev m :
  outcome st = Rejected m -> outcome (step st ev) = Rejected m.
Proof.
  intros Ho.
  step_cases st ev; auto;
    repeat match goal with
      | |- context [match ?x with _ => _ end] => destruct x
      | |- context [if ?x then _ else _] => destruct x
      end;
    auto using outcome_failed, outcome_succeeded.
Qed.

Lemma rejected_run trace :
  forall st m, outcome st = Rejected m -> outcome (run st trace) = Rejected m.
Proof.
  unfold run; induction trace as [|ev rest IH]; simpl; auto using rejected_step.
Qed.

Lemma run_app st t1 t2 : run st (t1 ++ t2) = run (run st t1) t2.
Proof. unfold run. apply fold_left_app. Qed.

(** * The claims *)

(** C1 (the code departs from it): a file whose every attempt fails is
    tried six times, not five.  On [exJar], answered 404 each time: after
    the fifth failed attempt there have been five [fetch] calls, no event
    has been emitted, the call is still pending and the worker waits 5000 ms
    for a sixth attempt; only the sixth failure emits the one
    [download_error] event (file name, kind and message of the last failure)
    and rejects the call with the DOWNLOAD_ERROR message, which itself says
    "after 5 attempts".  No [download_end] is emitted.  In general a failure
    of an attempt numbered below 5 emits nothing and leaves the call as it
    is, and the failure of attempt 5, the sixth, emits the error event. *)
Theorem exhausted_after_six_attempts :
  List.length
    (requests (run (startBatch exPrev "linux" [exJar]) exFiveFailures)) = 5%nat
  /\ emitted (run (startBatch exPrev "linux" [exJar]) exFiveFailures) = []
  /\ outcome (run (startBatch exPrev "linux" [exJar]) exFiveFailures) = Pending
  /\ nth_error
       (workers (run (startBatch exPrev "linux" [exJar]) exFiveFailures)) 0
     = Some (Busy exJar 4 (Sleeping 5000))
  /\ List.length
       (requests (run (startBatch exPrev "linux" [exJar]) exSixFailures))
     = 6%nat
  /\ emitted (run (startBatch exPrev "linux" [exJar]) exSixFailures)
     = [download_error "a.jar" File.FILE
                       "Error while fetching a.jar: Not Found"]
  /\ outcome (run (startBatch exPrev "linux" [exJar]) exSixFailures)
     = Rejected "Failed to download a.jar after 5 attempts"
  /\ countEnd (emitted (run (startBatch exPrev "linux" [exJar]) exSixFailures))
     = 0%nat
  /\ (forall st w file attempt message,
         (attempt < 5)%nat ->
         emitted (downloadFileWithRetry_catch st w file attempt message)
         = emitted st
         /\ outcome (downloadFileWithRetry_catch st w file attempt message)
            = outcome st)
  /\ (forall st w file message,
         emitted (downloadFileWithRetry_catch st w file 5 message)
         = emitted st
           ++ [download_error (File.name file) (File.type file) message]).
Proof.
  do 8 (split; [reflexivity|]).
  split.
  - intros st w file attempt message Hlt.
    rewrite downloadFileWithRetry_catch_retry by assumption. split; reflexivity.
  - intros st w file message.
    rewrite downloadFileWithRetry_catch_exhausted by lia.
    simpl. destruct (outcome st); reflexivity.
Qed.

(** C2 (the code departs from it): with [skipCheck] set, [download] hands
    the whole list to the workers.  On the manifest [exFolder; exJar] the
    FOLDER entry, which has no URL, is given to worker 0, and once its
    [mkdir] settles [fetch] is called for it. *)
Theorem skipCheck_queues_every_entry :
  (forall (fs : Flat) files,
      resolveFiles (dest exPrev) fs files true = Some (fs, files))
  /\ exists st,
       download exPrev "linux" ([] : Flat) [exFolder; exJar] true
       = Some ([], st)
       /\ workers st
          = [Busy exFolder 0 Mkdir; Busy exJar 0 Mkdir; Done; Done; Done]
       /\ requests (step st (MkdirSettled 0 None)) = [exFolder]
       /\ File.type exFolder = File.FOLDER
       /\ File.url exFolder = None.
Proof.
  split; [reflexivity|].
  eexists; repeat split; reflexivity.
Qed.
(** C3, as stated, fails: [downloaded.size] counts the bytes received while
    [total.size] sums the sizes the manifest declares.  On [exJar],
    declared 10 bytes, a first chunk of 11 bytes is reported by a progress
    event whose [downloaded.size] is 11 and whose [total.size] is 10. *)
Lemma progress_size_exceeds_total :
  exists total dl sp et ty,
    In (download_progress total dl sp et ty)
       (emitted (run (startBatch exPrev "linux" [exJar]) exOversized))
    /\ Counts.size total < Counts.size dl.
Proof.
  exists (Counts.mk 1 10), (Counts.mk 0 11), 0%Q, 0, File.FILE.
  split; [left; reflexivity|simpl; lia].
Qed.

(** C3, amended: every [download] call starts with both downloaded
    counters at zero; at every progress event, and in every state,
    [downloaded.amount <= total.amount]; and when no attempt receives more
    bytes than its file declares and no awaited [chmod] rejects, also
    [downloaded.size <= total.size] at every progress event and in every
    state. *)
Theorem progress_counters_bounded prev os batch trace :
  downloaded (this (startBatch prev os batch)) = Counts.mk 0 0
  /\ Forall amountBounded (emitted (run (startBatch prev os batch) trace))
  /\ Counts.amount (downloaded (this (run (startBatch prev os batch) trace)))
     <= amount (this (run (startBatch prev os batch) trace))
  /\ (runKeepsToManifest (startBatch prev os batch) trace = true ->
      Forall sizeBounded (emitted (run (startBatch prev os batch) trace))
      /\ Counts.size (downloaded (this (run (startBatch prev os batch) trace)))
         <= size (this (run (startBatch prev os batch) trace))).
Proof.
  pose proof (amountAccounted_run trace _ (amountAccounted_start prev os batch))
    as Hamount.
  split; [|split; [apply Hamount|split]].
  - unfold startBatch. destruct (_ || _); [reflexivity|].
    destruct (spawn CONCURRENCY_LIMIT batch); reflexivity.
  - now apply amountAccounted_bound.
  - intros Hkeep.
    pose proof (sizeAccounted_run trace _ Hkeep
                  (sizeAccounted_start prev os batch)) as Hsize.
    split; [apply Hsize|now apply sizeAccounted_bound].
Qed.

Lemma progress_counters_bounded_witness :
  runKeepsToManifest (startBatch exPrev "linux" [exJar]) exCleanRun = true
  /\ List.length (emitted (run (startBatch exPrev "linux" [exJar]) exCleanRun))
     = 3%nat
  /\ Forall sizeBounded
            (emitted (run (startBatch exPrev "linux" [exJar]) exCleanRun))
  /\ Counts.size
       (downloaded (this (run (startBatch exPrev "linux" [exJar]) exCleanRun)))
     <= size (this (run (startBatch exPrev "linux" [exJar]) exCleanRun)).
Proof.
  assert (Hkeep : runKeepsToManifest (startBatch exPrev "linux" [exJar])
                                     exCleanRun = true) by reflexivity.
  split; [exact Hkeep|split; [reflexivity|]].
  exact (proj2 (proj2 (proj2
           (progress_counters_bounded exPrev "linux" [exJar] exCleanRun)))
           Hkeep).
Defined.

(** C4: in every state a [download] call can reach, the log holds exactly
    one [download_end] event if and only if the call has resolved, and
    otherwise none.  When it has resolved (the zero-work return included)
    that event is the last one, carries the counters of the state, and
    nothing changes afterwards; when the call has rejected it stays
    rejected and no [download_end] is ever emitted. *)
Theorem end_event_iff_resolved prev os batch trace :
  (countEnd (emitted (run (startBatch prev os batch) trace)) = 1%nat
   <-> outcome (run (startBatch prev os batch) trace) = Resolved)
  /\ (outcome (run (startBatch prev os batch) trace) <> Resolved ->
      countEnd (emitted (run (startBatch prev os batch) trace)) = 0%nat)
  /\ (outcome (run (startBatch prev os batch) trace) = Resolved ->
      (exists log,
          emitted (run (startBatch prev os batch) trace)
          = log ++ [download_end
                      (downloaded
                         (this (run (startBatch prev os batch) trace)))]
          /\ countEnd log = 0%nat)
      /\ forall more,
          run (run (startBatch prev os batch) trace) more
          = run (startBatch prev os batch) trace)
  /\ (forall m,
         outcome (run (startBatch prev os batch) trace) = Rejected m ->
         forall more,
           outcome (run (run (startBatch prev os batch) trace) more)
           = Rejected m
           /\ countEnd (emitted (run (run (startBatch prev os batch) trace)
                                     more)) = 0%nat).
Proof.
  pose proof (endMatchesOutcome_run trace _
                (endMatchesOutcome_start prev os batch)) as Hinv.
  set (st := run (startBatch prev os batch) trace) in *.
  assert (Hres : outcome st = Resolved ->
                 (exists log,
                     emitted st = log ++ [download_end (downloaded (this st))]
                     /\ countEnd log = 0%nat)
                 /\ forall more, run st more = st).
  { intros Ho. unfold endMatchesOutcome in Hinv. rewrite Ho in Hinv.
    destruct Hinv as [Hall Hlog]. split; [exact Hlog|].
    intros more. now apply run_all_done. }
  assert (Hnot : outcome st <> Resolved -> countEnd (emitted st) = 0%nat).
  { intros Hne. unfold endMatchesOutcome in Hinv.
    destruct (outcome st); congruence. }
  split; [split|split; [exact Hnot|split; [exact Hres|]]].
  - intros Hone. destruct (outcome st) eqn:Ho; auto;
      rewrite Hnot in Hone by congruence; discriminate.
  - intros Ho. destruct (Hres Ho) as [(log & -> & Hlog) _].
    rewrite countEnd_app, Hlog. reflexivity.
  - intros m Hrej more.
    pose proof (rejected_run more st m Hrej) as Ho.
    split; [exact Ho|].
    unfold st in Ho |- *. rewrite <- run_app in Ho |- *.
    pose proof (endMatchesOutcome_run (trace ++ more) _
                  (endMatchesOutcome_start prev os batch)) as Hinv'.
    unfold endMatchesOutcome in Hinv'. rewrite Ho in Hinv'. exact Hinv'.
Qed.

Lemma end_event_iff_resolved_witness :
  outcome (run (startBatch exPrev "linux" [exJar]) exCleanRun) = Resolved
  /\ emitted (run (startBatch exPrev "linux" [exJar]) exCleanRun)
     = [download_progress (Counts.mk 1 10) (Counts.mk 0 4) 0%Q 0 File.FILE;
        download_progress (Counts.mk 1 10) (Counts.mk 0 10)
                          (speedOf 500 [Sample.mk 4 0; Sample.mk 6 500]) 0
                          File.FILE;
        download_end (Counts.mk 1 10)]
  /\ countEnd (emitted (run (startBatch exPrev "linux" [exJar]) exCleanRun))
     = 1%nat.
Proof.
  assert (Ho : outcome (run (startBatch exPrev "linux" [exJar]) exCleanRun)
               = Resolved) by reflexivity.
  split; [exact Ho|split; [reflexivity|]].
  exact (proj2 (proj1
           (end_event_iff_resolved exPrev "linux" [exJar] exCleanRun)) Ho).
Defined.
(** C5: when the resolved list is empty or its sizes sum to zero,
    [download] emits [download_end] with [downloaded = {amount: 0, size: 0}]
    and resolves at once; no worker is started, so whatever the environment
    delivers afterwards the state does not move: no [fetch] is ever called
    and no other event is emitted. *)
Theorem zero_work_short_circuit {FS : Type} `{FileSystem FS} prev os
        (fs fs' : FS) files skipCheck selected :
  resolveFiles (dest prev) fs files skipCheck = Some (fs', selected) ->
  selected = [] \/ sumSizes selected = 0 ->
  exists st,
    download prev os fs files skipCheck = Some (fs', st)
    /\ emitted st = [download_end (Counts.mk 0 0)]
    /\ downloaded (this st) = Counts.mk 0 0
    /\ outcome st = Resolved
    /\ workers st = []
    /\ forall trace,
        run st trace = st
        /\ requests (run st trace) = []
        /\ emitted (run st trace) = [download_end (Counts.mk 0 0)].
Proof.
  intros Hres Hzero.
  exists (startBatch prev os selected).
  unfold download. rewrite Hres.
  rewrite startBatch_zero_work by tauto.
  repeat split; rewrite run_all_done; reflexivity.
Qed.

Lemma zero_work_short_circuit_witness :
  resolveFiles (dest exPrev) exDisk [exFolder; exJar; exNoUrl] false
  = Some (("game//libs", Dir) :: exDisk, [])
  /\ exists st,
       download exPrev "linux" exDisk [exFolder; exJar; exNoUrl] false
       = Some (("game//libs", Dir) :: exDisk, st)
       /\ emitted st = [download_end (Counts.mk 0 0)]
       /\ downloaded (this st) = Counts.mk 0 0
       /\ outcome st = Resolved
       /\ workers st = []
       /\ forall trace,
           run st trace = st
           /\ requests (run st trace) = []
           /\ emitted (run st trace) = [download_end (Counts.mk 0 0)].
Proof.
  assert (Hres : resolveFiles (dest exPrev) exDisk [exFolder; exJar; exNoUrl]
                              false
                 = Some (("game//libs", Dir) :: exDisk, [])) by reflexivity.
  split; [exact Hres|].
  exact (zero_work_short_circuit exPrev "linux" exDisk _ _ false [] Hres
           (or_introl eq_refl)).
Defined.


(** ** The throughput tracker in binary64 *)

Lemma elapsed_in_window_positive d :
  1 <= d <= 6000 ->
  Binary64.positive (Binary64.div (Binary64.ofInteger d)
                                  (Binary64.ofInteger 1000)) = true.
Proof.
  intros Hd.
  assert (Hall : forallb
                   (fun n => Binary64.positive
                               (Binary64.div (Binary64.ofInteger (Z.of_nat n))
                                             (Binary64.ofInteger 1000)))
                   (seq 1 (Z.to_nat 6000)) = true)
    by (vm_compute; reflexivity).
  rewrite forallb_forall in Hall.
  specialize (Hall (Z.to_nat d)). rewrite Z2Nat.id in Hall by lia.
  apply Hall, in_seq. lia.
Qed.

(** C7, as stated, fails when [Date.now()] is set back between two chunks:
    the loop of lines 159-161 stops at the first sample that is recent
    enough, so an older sample behind it stays.  With chunks at 7000 ms,
    0 ms and 6500 ms the history after the third chunk still holds the
    sample of 0 ms, 6500 ms older than the newest; and the time elapsed
    since the oldest retained sample being negative, neither zero nor a
    divisor that is used, the speed is 0 and not the sum of the retained
    sizes divided by it. *)
Lemma stale_sample_outlives_window :
  exists s,
    In s (Binary64.history
            (Binary64.onChunks (Binary64.reset "game" 1 100) exClockSetBack))
    /\ 6000
       < newestTime (Binary64.history
                       (Binary64.onChunks (Binary64.reset "game" 1 100)
                                          exClockSetBack))
         - Sample.time s
    /\ Binary64.speed
         (Binary64.onChunks (Binary64.reset "game" 1 100) exClockSetBack)
       = Binary64.ofInteger 0
    /\ Binary64.elapsedSeconds
         6500 (Binary64.history
                 (Binary64.onChunks (Binary64.reset "game" 1 100)
                                    exClockSetBack))
       = Binary64.div (Binary64.ofInteger (-500)) (Binary64.ofInteger 1000).
Proof.
  exists (Sample.mk 1 0).
  split; [right; left; reflexivity|].
  split; [vm_compute; reflexivity|].
  split; reflexivity.
Qed.

(** C7, amended: on a chunk of [len] bytes received at [now], not earlier
    than the samples already held (timestamps never decrease), with the
    arithmetic of binary64: the sample [(len, now)] is appended and the
    history becomes exactly the samples at most 6000 ms older than [now]
    (what is dropped is a prefix of older ones); the speed is 0 when the
    oldest retained sample is from [now], and otherwise the sum of the
    retained sizes divided by the seconds elapsed since that sample (the
    milliseconds divided by 1000); the ETA is
    [(total size - downloaded size) / speed] when the speed is positive and
    0 otherwise; the progress event carries [Math.floor] of the ETA.  After
    chunks of 10, 20 and 30 bytes at 0 s, 1 s and 2 s the speed is 30 bytes
    per second.  The history and the counters are those the [data] event
    of a streaming worker leaves in the machine. *)
Theorem throughput_tracker (tracker : Binary64.Downloader) file len now :
  chronological (Binary64.history tracker ++ [Sample.mk (Z.of_N len) now])
  = true ->
  Binary64.history (Binary64.onData tracker len now)
  = withinWindow now (Binary64.history tracker ++ [Sample.mk (Z.of_N len) now])
  /\ (exists dropped,
         Binary64.history tracker ++ [Sample.mk (Z.of_N len) now]
         = dropped ++ Binary64.history (Binary64.onData tracker len now)
         /\ Forall (fun s => 6000 < now - Sample.time s) dropped)
  /\ In (Sample.mk (Z.of_N len) now)
        (Binary64.history (Binary64.onData tracker len now))
  /\ oldestTime (Binary64.history (Binary64.onData tracker len now)) <= now
  /\ (oldestTime (Binary64.history (Binary64.onData tracker len now)) = now ->
      Binary64.speed (Binary64.onData tracker len now) = Binary64.ofInteger 0)
  /\ (oldestTime (Binary64.history (Binary64.onData tracker len now)) < now ->
      Binary64.speed (Binary64.onData tracker len now)
      = Binary64.div
          (Binary64.ofInteger
             (sumOver Sample.size
                      (Binary64.history (Binary64.onData tracker len now))))
          (Binary64.div
             (Binary64.ofInteger
                (now - oldestTime
                         (Binary64.history (Binary64.onData tracker len now))))
             (Binary64.ofInteger 1000)))
  /\ Counts.size (Binary64.downloaded (Binary64.onData tracker len now))
     = Counts.size (Binary64.downloaded tracker) + Z.of_N len
  /\ (Binary64.positive (Binary64.speed (Binary64.onData tracker len now))
      = true ->
      Binary64.eta (Binary64.onData tracker len now)
      = Binary64.div
          (Binary64.ofInteger
             (Binary64.size tracker
              - Counts.size
                  (Binary64.downloaded (Binary64.onData tracker len now))))
          (Binary64.speed (Binary64.onData tracker len now)))
  /\ (Binary64.positive (Binary64.speed (Binary64.onData tracker len now))
      = false ->
      Binary64.eta (Binary64.onData tracker len now) = Binary64.ofInteger 0)
  /\ Binary64.progressEvent (Binary64.onData tracker len now) file
     = Binary64.mkProgress
         (Counts.mk (Binary64.amount tracker) (Binary64.size tracker))
         (Binary64.downloaded (Binary64.onData tracker len now))
         (Binary64.speed (Binary64.onData tracker len now))
         (Binary64.Math_floor (Binary64.eta (Binary64.onData tracker len now)))
         (File.type file)
  /\ Binary64.speed
       (Binary64.onChunks (Binary64.reset "game" 1 100) exThreeChunks)
     = Binary64.ofInteger 30
  /\ (forall st w attempt bytes,
         nth_error (workers st) w
         = Some (Busy file attempt (Streaming bytes)) ->
         history (this st) = Binary64.history tracker ->
         downloaded (this st) = Binary64.downloaded tracker ->
         history (this (step st (BodyData w len now)))
         = Binary64.history (Binary64.onData tracker len now)
         /\ downloaded (this (step st (BodyData w len now)))
            = Binary64.downloaded (Binary64.onData tracker len now)).
Proof.
  intros Hchron.
  set (pushed := Binary64.history tracker ++ [Sample.mk (Z.of_N len) now]) in *.
  assert (Hhist : Binary64.history (Binary64.onData tracker len now)
                  = prune now pushed) by reflexivity.
  assert (Hin : In (Sample.mk (Z.of_N len) now) (withinWindow now pushed)).
  { apply filter_In. split.
    - apply in_or_app; right; now left.
    - simpl. apply Z.leb_le. lia. }
  assert (Hold : oldestTime (withinWindow now pushed) <= now
                 /\ now - oldestTime (withinWindow now pushed) <= 6000).
  { pose proof (chronological_last _ _ Hchron) as Hall. fold pushed in Hall.
    destruct (withinWindow now pushed) as [|s rest] eqn:Hret; [destruct Hin|].
    assert (Hs : In s pushed /\ (now - Sample.time s <=? 6000) = true).
    { apply (proj1 (filter_In (fun x => now - Sample.time x <=? 6000) s
                              pushed)).
      unfold withinWindow in Hret. rewrite Hret. now left. }
    destruct Hs as [Hs Hrecent]. apply Z.leb_le in Hrecent.
    rewrite Forall_forall in Hall. specialize (Hall s Hs).
    cbn [oldestTime Sample.time] in *. lia. }
  assert (Hspeed : Binary64.speed (Binary64.onData tracker len now)
                   = Binary64.speedOf now (prune now pushed)) by reflexivity.
  assert (Heta : Binary64.eta (Binary64.onData tracker len now)
                 = Binary64.etaOf
                     (Binary64.size tracker)
                     (Counts.size
                        (Binary64.downloaded (Binary64.onData tracker len now)))
                     (Binary64.speed (Binary64.onData tracker len now)))
    by reflexivity.
  pose proof (prune_withinWindow now pushed Hchron) as Hprune.
  split; [now rewrite Hhist|].
  split; [rewrite Hhist; apply prune_suffix|].
  split; [now rewrite Hhist, Hprune|].
  split; [rewrite Hhist, Hprune; apply Hold|].
  split; [|split; [|split; [reflexivity|]]].
  3: split; [|split; [|split; [reflexivity|split; [reflexivity|]]]].
  - intros Heq. rewrite Hhist in Heq. rewrite Hspeed.
    unfold Binary64.speedOf, Binary64.elapsedSeconds.
    rewrite Heq, Z.sub_diag. reflexivity.
  - intros Hlt. rewrite Hhist in *. rewrite Hspeed.
    unfold Binary64.speedOf, Binary64.elapsedSeconds.
    rewrite elapsed_in_window_positive by (rewrite Hprune in *; lia).
    now rewrite totalSampled_sum.
  - intros Hpos. rewrite Heta. unfold Binary64.etaOf. now rewrite Hpos.
  - intros Hnot. rewrite Heta. unfold Binary64.etaOf. now rewrite Hnot.
  - intros st w attempt bytes Hw Hh Hd. unfold step. rewrite Hw.
    fields. unfold onData, Binary64.onData.
    cbn [history downloaded Binary64.history Binary64.downloaded].
    now rewrite Hh, Hd.
Qed.

Lemma throughput_tracker_witness :
  chronological
    (Binary64.history
       (Binary64.onChunks (Binary64.reset "game" 1 128) [(1%N, 0)])
     ++ [Sample.mk (Z.of_N 2) 72]) = true
  /\ Binary64.history
       (Binary64.onChunks (Binary64.reset "game" 1 128) exSlowStart)
     = [Sample.mk 1 0; Sample.mk 2 72]
  /\ Binary64.progressEvent
       (Binary64.onChunks (Binary64.reset "game" 1 128) exSlowStart) exArchive
     = Binary64.mkProgress
         (Counts.mk 1 128) (Counts.mk 0 3)
         (Binary64.div (Binary64.ofInteger 3)
                       (Binary64.div (Binary64.ofInteger 72)
                                     (Binary64.ofInteger 1000)))
         (Binary64.ofInteger 2) File.FILE.
Proof.
  assert (Hc : chronological
                 (Binary64.history
                    (Binary64.onChunks (Binary64.reset "game" 1 128)
                                       [(1%N, 0)])
                  ++ [Sample.mk (Z.of_N 2) 72]) = true)
    by reflexivity.
  split; [exact Hc|].
  destruct (throughput_tracker
              (Binary64.onChunks (Binary64.reset "game" 1 128) [(1%N, 0)])
              exArchive 2%N 72 Hc)
    as (Hhist & _ & _ & _ & _ & _ & _ & _ & _ & Hevent & _).
  split; [exact Hhist|].
  etransitivity; [exact Hevent|]. vm_compute. reflexivity.
Defined.

(** C8: take a worker whose stream has just opened and let it receive
    chunks while the other workers do anything.  Its counter then holds the
    sum of its chunks, and when the body or the write stream errors, exactly
    that sum is subtracted from [downloaded.size]; [downloaded.amount],
    [amount], [size], the history (with the samples of the failed attempt),
    the speed, the ETA, the queue and the [fetch] log are left as they are.
    The error goes to the retry policy (a retry is scheduled while the
    attempt number is below 5), and the next attempt opens its stream with a
    counter of zero and the same [downloaded.size]. *)
Theorem failed_attempt_gives_back_its_bytes st w file attempt trace ev message :
  nth_error (workers st) w = Some (Busy file attempt (Streaming 0)) ->
  forallb (duringAttempt w) trace = true ->
  ev = BodyError w message \/ ev = StreamError w message ->
  nth_error (workers (run st trace)) w
  = Some (Busy file attempt (Streaming (bytesCounted w trace)))
  /\ Counts.size (downloaded (this (step (run st trace) ev)))
     = Counts.size (downloaded (this (run st trace))) - bytesCounted w trace
  /\ Counts.amount (downloaded (this (step (run st trace) ev)))
     = Counts.amount (downloaded (this (run st trace)))
  /\ amount (this (step (run st trace) ev)) = amount (this (run st trace))
  /\ size (this (step (run st trace) ev)) = size (this (run st trace))
  /\ history (this (step (run st trace) ev)) = history (this (run st trace))
  /\ speed (this (step (run st trace) ev)) = speed (this (run st trace))
  /\ eta (this (step (run st trace) ev)) = eta (this (run st trace))
  /\ queue (step (run st trace) ev) = queue (run st trace)
  /\ requests (step (run st trace) ev) = requests (run st trace)
  /\ nth_error (workers (step (run st trace) ev)) w
     = Some (if (attempt <? 5)%nat
             then Busy file attempt (Sleeping (retryDelay attempt))
             else Failed)
  /\ ((attempt < 5)%nat ->
      forall statusText,
        nth_error
          (workers (run (step (run st trace) ev)
                        [TimerFired w; MkdirSettled w None;
                         FetchSettled w (HttpResponse true true statusText)]))
          w
        = Some (Busy file (S attempt) (Streaming 0))
        /\ Counts.size
             (downloaded
                (this (run (step (run st trace) ev)
                           [TimerFired w; MkdirSettled w None;
                            FetchSettled w
                              (HttpResponse true true statusText)])))
           = Counts.size (downloaded (this (step (run st trace) ev)))).
Proof.
  intros Hw Hduring Hev.
  pose proof (streaming_counts_chunks w file attempt trace st 0 Hw Hduring)
    as Hcount.
  rewrite Z.add_0_l in Hcount.
  destruct (stream_error_frame _ _ _ _ _ message ev Hcount Hev)
    as (H1 & H2 & H3 & H4 & H5 & H6 & H7 & H8 & H9 & H10).
  repeat (split; [assumption|]).
  intros Hlt statusText.
  apply Nat.ltb_lt in Hlt. rewrite Hlt in H10.
  set (st2 := step (run st trace) ev) in *.
  assert (Ha : nth_error (workers (step st2 (TimerFired w))) w
               = Some (Busy file (S attempt) Mkdir)).
  { unfold step. rewrite H10. fields. eapply nth_error_update_same; eauto. }
  assert (Hb : nth_error (workers (step (step st2 (TimerFired w))
                                        (MkdirSettled w None))) w
               = Some (Busy file (S attempt) Fetching)).
  { unfold step at 1. rewrite Ha. fields. eapply nth_error_update_same; eauto. }
  unfold run. cbn [fold_left].
  split.
  - unfold step at 1. rewrite Hb. cbn [negb orb]. fields.
    eapply nth_error_update_same; eauto.
  - unfold step at 1. rewrite Hb. cbn [negb orb]. fields.
    unfold step at 1. rewrite Ha. fields.
    unfold step at 1. rewrite H10. reflexivity.
Qed.

Lemma failed_attempt_gives_back_its_bytes_witness :
  nth_error (workers exFetched) 0 = Some (Busy exArchive 0 (Streaming 0))
  /\ forallb (duringAttempt 0) exTwoChunks = true
  /\ bytesCounted 0 exTwoChunks = 30
  /\ Counts.size (downloaded (this (run exFetched exTwoChunks))) = 30
  /\ Counts.size
       (downloaded
          (this (step (run exFetched exTwoChunks) (BodyError 0 "reset"))))
     = 30 - 30
  /\ history (this (step (run exFetched exTwoChunks) (BodyError 0 "reset")))
     = [Sample.mk 10 0; Sample.mk 20 1000].
Proof.
  assert (Hw : nth_error (workers exFetched) 0
               = Some (Busy exArchive 0 (Streaming 0))) by reflexivity.
  assert (Hd : forallb (duringAttempt 0) exTwoChunks = true) by reflexivity.
  split; [exact Hw|split; [exact Hd|]].
  split; [reflexivity|split; [reflexivity|]].
  destruct (failed_attempt_gives_back_its_bytes exFetched 0 exArchive 0
              exTwoChunks (BodyError 0 "reset") "reset" Hw Hd
              (or_introl eq_refl))
    as (_ & Hsize & _ & _ & _ & Hhist & _).
  split; [exact Hsize|exact Hhist].
Defined.


(** * Further properties *)

(** ** The worker pool and the queue *)

(** A callback replaces at most the entry of the worker it runs for. *)
Lemma workers_step st ev :
  workers (step st ev) = workers st
  \/ exists old new,
       nth_error (workers st) (eventWorker ev) = Some old
       /\ workers (step st ev) = update (workers st) (eventWorker ev) new.
Proof.
  step_cases st ev; auto; right; simpl eventWorker; rewrite Hw;
    eexists; 
    repeat match goal with
      | |- context [match ?x with _ => _ end] => destruct x
      | |- context [if ?x then _ else _] => destruct x
      end;
    try (match goal with
         | |- context [downloadFileWithRetry_catch ?s ?a ?f ?n ?m] =>
             destruct (workers_failed s a f n m) as [x Hx]
         end; exists x; split; [reflexivity|exact Hx]);
    try (destruct (workers_succeeded st w) as [x Hx];
         exists x; split; [reflexivity|exact Hx]);
    try (eexists; split; reflexivity).
Qed.

Lemma workers_length_step st ev :
  List.length (workers (step st ev)) = List.length (workers st).
Proof.
  destruct (workers_step st ev) as [-> | (old & new & _ & ->)]; auto.
  apply update_length.
Qed.

Lemma workers_length_run trace :
  forall st, List.length (workers (run st trace)) = List.length (workers st).
Proof.
  unfold run; induction trace as [|ev rest IH]; intros st; simpl; auto.
  rewrite IH. apply workers_length_step.
Qed.

(** The workers created by lines 60-67: the first files of the list, in
    order, one per worker; workers beyond the list return at once. *)
Lemma spawn_firstn n :
  forall q,
    spawn n q
    = (map (fun file => Busy file 0 Mkdir) (firstn n q)
       ++ repeat Done (n - List.length q),
       skipn n q).
Proof.
  induction n as [|n IH]; intros q; [reflexivity|].
  destruct q as [|file rest]; cbn [spawn].
  - rewrite IH, firstn_nil, skipn_nil. simpl. now rewrite Nat.sub_0_r.
  - rewrite IH. reflexivity.
Qed.

Lemma startBatch_started prev os batch :
  zeroWork batch = false ->
  startBatch prev os batch
  = mkState (mkDownloader (dest prev) (sumSizes batch)
                          (Z.of_nat (List.length batch)) (Counts.mk 0 0)
                          false 0%Q 0%Q [])
            (skipn CONCURRENCY_LIMIT batch)
            (map (fun file => Busy file 0 Mkdir)
                 (firstn CONCURRENCY_LIMIT batch)
             ++ repeat Done (CONCURRENCY_LIMIT - List.length batch))
            Pending [] [] os.
Proof.
  intros Hz. unfold startBatch. cbn [size].
  unfold zeroWork in Hz. rewrite Hz, spawn_firstn. reflexivity.
Qed.

Lemma startBatch_zero prev os batch :
  zeroWork batch = true ->
  workers (startBatch prev os batch) = []
  /\ queue (startBatch prev os batch) = [].
Proof.
  intros Hz. unfold startBatch. cbn [size].
  unfold zeroWork in Hz. rewrite Hz. split; reflexivity.
Qed.

Lemma filter_length_le {A} (f : A -> bool) l :
  (List.length (filter f l) <= List.length l)%nat.
Proof.
  induction l as [|x l IH]; simpl; auto. destruct (f x); simpl; lia.
Qed.

(** A [shift] takes the head of the queue, for the worker whose callback
    runs; nothing else touches the queue. *)
Lemma queue_step st ev :
  queue (step st ev) = queue st
  \/ exists file,
       queue st = file :: queue (step st ev)
       /\ nth_error (workers (step st ev)) (eventWorker ev)
          = Some (Busy file 0 Mkdir).
Proof.
  assert (Hcatch : forall s w file attempt message,
             queue (downloadFileWithRetry_catch s w file attempt message)
             = queue s).
  { intros. unfold downloadFileWithRetry_catch.
    destruct (attempt <? 5)%nat; fields; auto. destruct (outcome s); auto. }
  assert (Hthen : forall w old,
             nth_error (workers st) w = Some old ->
             queue (downloadFileWithRetry_then st w) = queue st
             \/ exists file,
                 queue st = file :: queue (downloadFileWithRetry_then st w)
                 /\ nth_error (workers (downloadFileWithRetry_then st w)) w
                    = Some (Busy file 0 Mkdir)).
  { intros w old Hw. unfold downloadFileWithRetry_then. cbn [queue setThis].
    destruct (queue st) as [|file rest] eqn:Hq.
    - left. unfold settleAll. fields.
      destruct (outcome st); fields; auto.
      destruct (forallb isDone _); fields; auto.
    - right. exists file. fields. split; auto.
      eapply nth_error_update_same; eauto. }
  step_cases st ev; auto; simpl eventWorker;
    repeat match goal with
      | |- context [match ?x with _ => _ end] => destruct x
      | |- context [if ?x then _ else _] => destruct x
      end;
    rewrite ?Hcatch; auto; eapply Hthen; eauto.
Qed.

Lemma queue_suffix_run batch trace :
  forall st,
    (exists handed, batch = handed ++ queue st) ->
    exists handed, batch = handed ++ queue (run st trace).
Proof.
  unfold run; induction trace as [|ev rest IH]; intros st Hsuf; simpl; auto.
  apply IH. destruct Hsuf as [handed Heq].
  destruct (queue_step st ev) as [-> | (file & Hq & _)].
  - now exists handed.
  - exists (handed ++ [file]). rewrite <- app_assoc. simpl.
    rewrite <- Hq. exact Heq.
Qed.
Lemma pool_length prev os batch trace :
  List.length (workers (run (startBatch prev os batch) trace))
  = (if zeroWork batch then 0 else CONCURRENCY_LIMIT)%nat.
Proof.
  rewrite workers_length_run.
  destruct (zeroWork batch) eqn:Hz.
  - destruct (startBatch_zero prev os batch Hz) as [-> _]. reflexivity.
  - rewrite (startBatch_started prev os batch Hz). cbn [workers].
    rewrite length_app, length_map, repeat_length, length_firstn.
    unfold CONCURRENCY_LIMIT. lia.
Qed.

(** X1: a batch that is not returned at once runs exactly
    [CONCURRENCY_LIMIT] workers for its whole life, and a batch returned at
    once runs none; so at no moment are more than five files with a
    worker. *)
Theorem worker_pool_is_bounded prev os batch trace :
  List.length (workers (run (startBatch prev os batch) trace))
  = (if zeroWork batch then 0 else CONCURRENCY_LIMIT)%nat
  /\ (List.length
        (filter isBusy (workers (run (startBatch prev os batch) trace)))
      <= CONCURRENCY_LIMIT)%nat.
Proof.
  pose proof (pool_length prev os batch trace) as Hlen.
  split; [exact Hlen|].
  eapply Nat.le_trans; [apply filter_length_le|].
  rewrite Hlen. destruct (zeroWork batch); unfold CONCURRENCY_LIMIT; lia.
Qed.

(** X2: the queue is first in, first out.  The first five files of the
    resolved list go to the five workers in order and the rest is queued in
    order; from then on the queue is always what is left of the list after
    the files handed out, and the only thing a callback does to it is to
    take its head for the worker that has just finished a file. *)
Theorem queue_is_first_in_first_out prev os batch trace ev :
  (if zeroWork batch
   then workers (startBatch prev os batch) = []
        /\ queue (startBatch prev os batch) = []
   else workers (startBatch prev os batch)
        = map (fun file => Busy file 0 Mkdir) (firstn CONCURRENCY_LIMIT batch)
          ++ repeat Done (CONCURRENCY_LIMIT - List.length batch)
        /\ queue (startBatch prev os batch) = skipn CONCURRENCY_LIMIT batch)
  /\ (exists handed,
         batch = handed ++ queue (run (startBatch prev os batch) trace))
  /\ (queue (step (run (startBatch prev os batch) trace) ev)
      = queue (run (startBatch prev os batch) trace)
      \/ exists file,
          queue (run (startBatch prev os batch) trace)
          = file :: queue (step (run (startBatch prev os batch) trace) ev)
          /\ nth_error
               (workers (step (run (startBatch prev os batch) trace) ev))
               (eventWorker ev)
             = Some (Busy file 0 Mkdir)).
Proof.
  split; [|split].
  - destruct (zeroWork batch) eqn:Hz.
    + now apply startBatch_zero.
    + rewrite (startBatch_started prev os batch Hz). split; reflexivity.
  - apply queue_suffix_run.
    destruct (zeroWork batch) eqn:Hz.
    + destruct (startBatch_zero prev os batch Hz) as [_ ->].
      exists batch. now rewrite app_nil_r.
    + rewrite (startBatch_started prev os batch Hz). cbn [queue].
      exists (firstn CONCURRENCY_LIMIT batch).
      symmetry. apply firstn_skipn.
  - apply queue_step.
Qed.

(** ** What a callback does to the Downloader object and to the log *)

Lemma this_catch st w file attempt message :
  this (downloadFileWithRetry_catch st w file attempt message) = this st.
Proof.
  unfold downloadFileWithRetry_catch.
  destruct (attempt <? 5)%nat; fields; auto. destruct (outcome st); auto.
Qed.

Lemma this_settleAll st : this (settleAll st) = this st.
Proof.
  unfold settleAll. destruct (outcome st); auto.
  destruct (forallb isDone (workers st)); auto.
Qed.

Lemma this_then st w :
  this (downloadFileWithRetry_then st w) = incrAmount (this st).
Proof.
  unfold downloadFileWithRetry_then. cbn [queue setThis].
  destruct (queue st); [rewrite this_settleAll|]; reflexivity.
Qed.

(** The four things a callback can do to the fields of the object. *)
Lemma this_step st ev :
  this (step st ev) = this st
  \/ (exists w file attempt bytes len now,
         ev = BodyData w len now
         /\ nth_error (workers st) w
            = Some (Busy file attempt (Streaming bytes))
         /\ this (step st ev) = onData (this st) len now)
  \/ (exists file attempt bytes,
         nth_error (workers st) (eventWorker ev)
         = Some (Busy file attempt (Streaming bytes))
         /\ this (step st ev) = giveBack (this st) bytes)
  \/ this (step st ev) = incrAmount (this st).
Proof.
  step_cases st ev; auto; simpl eventWorker;
    try (destruct err); try (destruct res as [m|ok hasBody statusText]);
    try (destruct (negb ok || negb hasBody));
    try (destruct (chmodJavaFiles st file));
    rewrite ?this_catch, ?this_then; auto.
  all: try (right; left; exists w, file, attempt, bytes, len, now;
            repeat split; auto; fail).
  all: right; right; left; exists file, attempt, bytes; repeat split; auto.
Qed.
Lemma emitted_catch st w file attempt message :
  emitted (downloadFileWithRetry_catch st w file attempt message)
  = if (attempt <? 5)%nat then emitted st
    else emitted st
         ++ [download_error (File.name file) (File.type file) message].
Proof.
  unfold downloadFileWithRetry_catch.
  destruct (attempt <? 5)%nat; fields; auto. destruct (outcome st); auto.
Qed.

Lemma emitted_then st w :
  emitted (downloadFileWithRetry_then st w) = emitted st
  \/ (outcome st = Pending
      /\ emitted (downloadFileWithRetry_then st w)
         = emitted st
           ++ [download_end
                 (downloaded (this (downloadFileWithRetry_then st w)))]).
Proof.
  rewrite this_then.
  unfold downloadFileWithRetry_then. cbn [queue setThis].
  destruct (queue st); fields; auto.
  unfold settleAll; fields.
  destruct (outcome st); fields; auto.
  destruct (forallb isDone _); fields; auto.
Qed.

(** The three things a callback can add to the log. *)
Lemma emitted_step st ev :
  emitted (step st ev) = emitted st
  \/ (exists w file attempt bytes len now,
         ev = BodyData w len now
         /\ nth_error (workers st) w
            = Some (Busy file attempt (Streaming bytes))
         /\ emitted (step st ev)
            = emitted st ++ [progressEvent (onData (this st) len now) file])
  \/ (exists file attempt phase message,
         nth_error (workers st) (eventWorker ev)
         = Some (Busy file attempt phase)
         /\ (5 <= attempt)%nat
         /\ emitted (step st ev)
            = emitted st
              ++ [download_error (File.name file) (File.type file) message])
  \/ (outcome st = Pending
      /\ emitted (step st ev)
         = emitted st ++ [download_end (downloaded (this (step st ev)))]).
Proof.
  assert (Hcatch : forall s file attempt phase message,
             emitted s = emitted st ->
             nth_error (workers st) (eventWorker ev)
             = Some (Busy file attempt phase) ->
             emitted (downloadFileWithRetry_catch s (eventWorker ev) file
                                                  attempt message)
             = emitted st
             \/ exists file' attempt' phase' message',
                 nth_error (workers st) (eventWorker ev)
                 = Some (Busy file' attempt' phase')
                 /\ (5 <= attempt')%nat
                 /\ emitted (downloadFileWithRetry_catch s (eventWorker ev)
                                                        file attempt message)
                    = emitted st
                      ++ [download_error (File.name file') (File.type file')
                                         message']).
  { intros s file attempt phase message Hs Hw. rewrite emitted_catch, Hs.
    destruct (attempt <? 5)%nat eqn:Hlt; auto.
    right. exists file, attempt, phase, message.
    apply Nat.ltb_ge in Hlt. repeat split; auto. }
  step_cases st ev; auto; simpl eventWorker in *;
    try (destruct err); try (destruct res as [m|ok hasBody statusText]);
    try (destruct (negb ok || negb hasBody));
    try (destruct (chmodJavaFiles st file)); auto.
  all: try (right; left; exists w, file, attempt, bytes, len, now;
            repeat split; auto; fail).
  all: try (destruct (emitted_then st w) as [He | [Ho He]];
            [left; exact He|right; right; right; split; assumption]).
  all: match goal with
       | |- context [downloadFileWithRetry_catch ?s ?a ?f ?n ?m] =>
           destruct (Hcatch s f n _ m eq_refl Hw) as [He | He];
           [left; exact He|right; right; left; exact He]
       end.
Qed.

Lemma this_start prev os batch :
  this (startBatch prev os batch)
  = mkDownloader (dest prev) (sumSizes batch) (Z.of_nat (List.length batch))
                 (Counts.mk 0 0) false 0%Q 0%Q [].
Proof.
  unfold startBatch. destruct (_ || _); [reflexivity|].
  destruct (spawn CONCURRENCY_LIMIT batch); reflexivity.
Qed.

Lemma emitted_start prev os batch :
  emitted (startBatch prev os batch)
  = if zeroWork batch then [download_end (Counts.mk 0 0)] else [].
Proof.
  unfold startBatch, zeroWork. cbn [size]. destruct (_ || _); [reflexivity|].
  destruct (spawn CONCURRENCY_LIMIT batch); reflexivity.
Qed.

Lemma totals_step st ev :
  dest (this (step st ev)) = dest (this st)
  /\ size (this (step st ev)) = size (this st)
  /\ amount (this (step st ev)) = amount (this st)
  /\ error (this (step st ev)) = error (this st).
Proof.
  destruct (this_step st ev)
    as [-> | [(w & file & attempt & bytes & len & now & _ & _ & ->)
             | [(file & attempt & bytes & _ & ->) | ->]]];
    repeat split.
Qed.

Lemma totals_run trace :
  forall st,
    dest (this (run st trace)) = dest (this st)
    /\ size (this (run st trace)) = size (this st)
    /\ amount (this (run st trace)) = amount (this st)
    /\ error (this (run st trace)) = error (this st).
Proof.
  unfold run; induction trace as [|ev rest IH]; intros st; simpl; auto.
  destruct (IH (step st ev)) as (-> & -> & -> & ->). apply totals_step.
Qed.

Lemma progressOf_step batch st ev :
  fromBatch batch st ->
  amount (this st) = Z.of_nat (List.length batch) ->
  size (this st) = sumSizes batch ->
  Forall (progressOf batch) (emitted st) ->
  Forall (progressOf batch) (emitted (step st ev)).
Proof.
  intros Hfrom Ha Hs Hall.
  destruct (emitted_step st ev)
    as [-> | [(w & file & attempt & bytes & len & now & _ & Hw & ->)
             | [(file & attempt & phase & message & _ & _ & ->)
               | (_ & ->)]]]; auto;
    apply Forall_app; split; auto; constructor; auto; try exact I.
  unfold progressEvent, progressOf.
  destruct (onData_fields (this st) len now) as (_ & -> & -> & _).
  rewrite Ha, Hs. split; auto.
  apply in_map.
  exact (nth_error_Forall _ _ _ _ (proj2 (proj2 Hfrom)) Hw).
Qed.

Lemma progressOf_run batch trace :
  forall st,
    fromBatch batch st ->
    amount (this st) = Z.of_nat (List.length batch) ->
    size (this st) = sumSizes batch ->
    Forall (progressOf batch) (emitted st) ->
    Forall (progressOf batch) (emitted (run st trace)).
Proof.
  unfold run; induction trace as [|ev rest IH]; intros st Hf Ha Hs Hall;
    simpl; auto.
  destruct (totals_step st ev) as (_ & Hs' & Ha' & _).
  apply IH; try congruence.
  - now apply fromBatch_step.
  - now apply progressOf_step.
Qed.

(** X7: the totals of a batch are fixed when it starts: in every state
    [amount] is the number of files of the resolved list and [size] the sum
    of their declared sizes, [dest] is the one of the instance, and every
    progress event carries these totals and the kind of a file of the
    list. *)
Theorem totals_are_fixed prev os batch trace :
  dest (this (run (startBatch prev os batch) trace)) = dest prev
  /\ amount (this (run (startBatch prev os batch) trace))
     = Z.of_nat (List.length batch)
  /\ size (this (run (startBatch prev os batch) trace)) = sumSizes batch
  /\ error (this (run (startBatch prev os batch) trace)) = false
  /\ Forall (progressOf batch)
            (emitted (run (startBatch prev os batch) trace)).
Proof.
  destruct (totals_run trace (startBatch prev os batch))
    as (-> & -> & -> & ->).
  rewrite this_start. repeat split.
  apply progressOf_run.
  - apply fromBatch_start.
  - now rewrite this_start.
  - now rewrite this_start.
  - rewrite emitted_start. destruct (zeroWork batch); repeat constructor.
Qed.
(** ** Speed and ETA are not negative *)

Lemma sumOver_sizes_nonneg h :
  Forall (fun s => 0 <= Sample.size s) h -> 0 <= sumOver Sample.size h.
Proof.
  induction 1 as [|s h Hs _ IH]; simpl; lia.
Qed.

Lemma Qdiv_nonneg a b : (0 <= a)%Q -> (0 < b)%Q -> (0 <= a / b)%Q.
Proof.
  intros Ha Hb. apply Qle_shift_div_l; auto. now rewrite Qmult_0_l.
Qed.

Lemma inject_Z_nonneg z : 0 <= z -> (0 <= inject_Z z)%Q.
Proof. intros Hz. change 0%Q with (inject_Z 0). now rewrite <- Zle_Qle. Qed.

Lemma speedOf_nonneg now h :
  Forall (fun s => 0 <= Sample.size s) h -> (0 <= speedOf now h)%Q.
Proof.
  intros Hall. unfold speedOf.
  destruct (Qlt_bool 0 (elapsedSeconds now h)) eqn:Hpos; [|apply Qle_refl].
  apply Qlt_bool_iff in Hpos. apply Qdiv_nonneg; auto.
  apply inject_Z_nonneg. rewrite totalSampled_sum.
  now apply sumOver_sizes_nonneg.
Qed.

Lemma etaOf_nonneg total done sp :
  done <= total -> (0 <= etaOf total done sp)%Q.
Proof.
  intros Hle. unfold etaOf.
  destruct (Qlt_bool 0 sp) eqn:Hpos; [|apply Qle_refl].
  apply Qlt_bool_iff in Hpos. apply Qdiv_nonneg; auto.
  apply inject_Z_nonneg. lia.
Qed.

Lemma history_onData_nonneg d len now :
  Forall (fun s => 0 <= Sample.size s) (history d) ->
  Forall (fun s => 0 <= Sample.size s) (history (onData d len now)).
Proof.
  intros Hall.
  change (history (onData d len now))
    with (prune now (history d ++ [Sample.mk (Z.of_N len) now])).
  destruct (prune_suffix now (history d ++ [Sample.mk (Z.of_N len) now]))
    as (old & Heq & _).
  assert (Hpushed : Forall (fun s => 0 <= Sample.size s)
                           (history d ++ [Sample.mk (Z.of_N len) now])).
  { apply Forall_app; split; auto. constructor; simpl; auto. lia. }
  rewrite Heq in Hpushed. now apply Forall_app in Hpushed.
Qed.

Lemma rate_step st ev :
  Forall (fun s => 0 <= Sample.size s) (history (this st))
  /\ (0 <= speed (this st))%Q
  /\ Forall speedNonneg (emitted st) ->
  Forall (fun s => 0 <= Sample.size s) (history (this (step st ev)))
  /\ (0 <= speed (this (step st ev)))%Q
  /\ Forall speedNonneg (emitted (step st ev)).
Proof.
  intros (Hh & Hs & He).
  assert (Hdata : forall len now,
             (0 <= speed (onData (this st) len now))%Q).
  { intros len now.
    change (speed (onData (this st) len now))
      with (speedOf now (history (onData (this st) len now))).
    apply speedOf_nonneg. now apply history_onData_nonneg. }
  split; [|split].
  - destruct (this_step st ev)
      as [-> | [(w & file & attempt & bytes & len & now & _ & _ & ->)
               | [(file & attempt & bytes & _ & ->) | ->]]]; auto.
    now apply history_onData_nonneg.
  - destruct (this_step st ev)
      as [-> | [(w & file & attempt & bytes & len & now & _ & _ & ->)
               | [(file & attempt & bytes & _ & ->) | ->]]]; auto.
  - destruct (emitted_step st ev)
      as [-> | [(w & file & attempt & bytes & len & now & _ & Hw & ->)
               | [(file & attempt & phase & message & _ & _ & ->)
                 | (_ & ->)]]]; auto;
      apply Forall_app; split; auto; constructor; auto; try exact I.
    apply Hdata.
Qed.

Lemma eta_step st ev :
  keepsToManifest st ev = true ->
  sizeAccounted st ->
  (0 <= eta (this st))%Q /\ Forall etaNonneg (emitted st) ->
  (0 <= eta (this (step st ev)))%Q
  /\ Forall etaNonneg (emitted (step st ev)).
Proof.
  intros Hkeep Hsize (Heta & He).
  pose proof (sizeAccounted_bound _ (sizeAccounted_step st ev Hkeep Hsize))
    as Hb.
  destruct (totals_step st ev) as (_ & Hsz & _).
  assert (Hdata : forall len now,
             this (step st ev) = onData (this st) len now ->
             (0 <= eta (onData (this st) len now))%Q).
  { intros len now Heq. rewrite Heq in Hb, Hsz.
    change (eta (onData (this st) len now))
      with (etaOf (size (this st))
                  (Counts.size (downloaded (onData (this st) len now)))
                  (speed (onData (this st) len now))).
    apply etaOf_nonneg. lia. }
  split.
  - destruct (this_step st ev)
      as [-> | [(w & file & attempt & bytes & len & now & _ & _ & Heq)
               | [(file & attempt & bytes & _ & ->) | ->]]]; auto.
    rewrite Heq. now apply Hdata.
  - destruct (emitted_step st ev)
      as [-> | [(w & file & attempt & bytes & len & now & Hev & Hw & ->)
               | [(file & attempt & phase & message & _ & _ & ->)
                 | (_ & ->)]]]; auto;
      apply Forall_app; split; auto; constructor; auto; try exact I.
    unfold progressEvent, etaNonneg.
    assert (Heq : this (step st ev) = onData (this st) len now)
      by (subst ev; unfold step; rewrite Hw; reflexivity).
    specialize (Hdata len now Heq).
    change 0 with (Qfloor 0). now apply Qfloor_resp_le.
Qed.

(** X8: the speed is never negative, in any state and in any progress
    event.  The ETA can be (when more bytes arrive than the manifest
    declares); it is not, in any state nor in any progress event, as long
    as no attempt receives more than its file declares and no awaited
    [chmod] rejects. *)
Theorem speed_and_eta_not_negative prev os batch trace :
  (0 <= speed (this (run (startBatch prev os batch) trace)))%Q
  /\ Forall speedNonneg (emitted (run (startBatch prev os batch) trace))
  /\ (runKeepsToManifest (startBatch prev os batch) trace = true ->
      (0 <= eta (this (run (startBatch prev os batch) trace)))%Q
      /\ Forall etaNonneg (emitted (run (startBatch prev os batch) trace))).
Proof.
  assert (Hrate : forall tr st,
             Forall (fun s => 0 <= Sample.size s) (history (this st))
             /\ (0 <= speed (this st))%Q
             /\ Forall speedNonneg (emitted st) ->
             Forall (fun s => 0 <= Sample.size s)
                    (history (this (run st tr)))
             /\ (0 <= speed (this (run st tr)))%Q
             /\ Forall speedNonneg (emitted (run st tr))).
  { unfold run; induction tr as [|ev rest IH]; intros st Hinv; simpl; auto.
    apply IH. now apply rate_step. }
  assert (Heta : forall tr st,
             runKeepsToManifest st tr = true ->
             sizeAccounted st ->
             (0 <= eta (this st))%Q /\ Forall etaNonneg (emitted st) ->
             (0 <= eta (this (run st tr)))%Q
             /\ Forall etaNonneg (emitted (run st tr))).
  { unfold run; induction tr as [|ev rest IH]; intros st Hkeep Hsize Hinv;
      simpl; auto.
    simpl in Hkeep. apply andb_true_iff in Hkeep as [Hev Hrest].
    apply IH; auto using sizeAccounted_step, eta_step. }
  assert (Hlog : forall P : Emitted -> Prop,
             (forall d, P (download_end d)) ->
             Forall P (emitted (startBatch prev os batch))).
  { intros P HP. rewrite emitted_start.
    destruct (zeroWork batch); repeat constructor; auto. }
  split; [|split].
  - apply Hrate. rewrite this_start. cbn [history speed].
    split; [constructor|split; [apply Qle_refl|]].
    apply Hlog. intros d; exact I.
  - apply Hrate. rewrite this_start. cbn [history speed].
    split; [constructor|split; [apply Qle_refl|]].
    apply Hlog. intros d; exact I.
  - intros Hkeep. apply Heta; auto using sizeAccounted_start.
    rewrite this_start. cbn [eta]. split; [apply Qle_refl|].
    apply Hlog. intros d; exact I.
Qed.

Lemma speed_and_eta_not_negative_witness :
  runKeepsToManifest (startBatch exPrev "linux" [exJar]) exCleanRun = true
  /\ (0 <= eta (this (run (startBatch exPrev "linux" [exJar]) exCleanRun)))%Q
  /\ Forall etaNonneg
            (emitted (run (startBatch exPrev "linux" [exJar]) exCleanRun)).
Proof.
  assert (Hkeep : runKeepsToManifest (startBatch exPrev "linux" [exJar])
                                     exCleanRun = true) by reflexivity.
  split; [exact Hkeep|].
  exact (proj2 (proj2
           (speed_and_eta_not_negative exPrev "linux" [exJar] exCleanRun))
           Hkeep).
Defined.
(** ** The counters are not negative *)

Lemma openBytesCounted_move st w old new :
  nth_error (workers st) w = Some old ->
  0 <= inFlight new <= inFlight old ->
  openBytesCounted st -> openBytesCounted (setWorker st w new).
Proof.
  intros Hw [Hn Hle] (Hws & Hsum & Ha). unfold openBytesCounted. fields.
  rewrite (sumOver_update _ _ _ _ _ Hw).
  repeat split; [apply Forall_update; auto|lia|exact Ha].
Qed.

Lemma openBytesCounted_catch st w file attempt old message :
  nth_error (workers st) w = Some old ->
  Forall (fun x => 0 <= inFlight x) (workers st) ->
  sumOver inFlight (workers st) - inFlight old
  <= Counts.size (downloaded (this st)) ->
  0 <= Counts.amount (downloaded (this st)) ->
  openBytesCounted (downloadFileWithRetry_catch st w file attempt message).
Proof.
  intros Hw Hws Hsum Ha.
  unfold downloadFileWithRetry_catch, openBytesCounted.
  destruct (attempt <? 5)%nat; fields; [|destruct (outcome st); fields];
    rewrite (sumOver_update _ _ _ _ _ Hw); simpl inFlight;
    (repeat split; [apply Forall_update; simpl; auto; lia|lia|exact Ha]).
Qed.

Lemma openBytesCounted_then st w old :
  nth_error (workers st) w = Some old ->
  openBytesCounted st ->
  openBytesCounted (downloadFileWithRetry_then st w).
Proof.
  intros Hw (Hws & Hsum & Ha).
  pose proof (nth_error_Forall _ _ _ _ Hws Hw) as Hold. simpl in Hold.
  unfold downloadFileWithRetry_then. cbn [queue setThis].
  destruct (queue st) as [|next rest].
  - unfold openBytesCounted. rewrite workers_settleAll, this_settleAll.
    fields. rewrite (sumOver_update _ _ _ _ _ Hw). simpl inFlight.
    repeat split; [apply Forall_update; simpl; auto; lia|lia|lia].
  - unfold openBytesCounted. fields.
    rewrite (sumOver_update _ _ _ _ _ Hw). simpl inFlight.
    repeat split; [apply Forall_update; simpl; auto; lia|lia|lia].
Qed.

Lemma openBytesCounted_step st ev :
  openBytesCounted st -> openBytesCounted (step st ev).
Proof.
  intros Hinv.
  assert (Hfail : forall w file attempt old message,
             nth_error (workers st) w = Some old ->
             0 <= inFlight old ->
             openBytesCounted
               (downloadFileWithRetry_catch st w file attempt message)).
  { intros w file attempt old message Hw Hold.
    destruct Hinv as (Hws & Hsum & Ha).
    eapply openBytesCounted_catch; eauto. lia. }
  step_cases st ev; auto;
    try (pose proof (nth_error_Forall _ _ _ _ (proj1 Hinv) Hw) as Hold;
         simpl in Hold).
  - destruct err; [eapply Hfail; eauto|].
    apply (openBytesCounted_move (logRequest st file) w _ _ Hw);
      simpl; auto; lia.
  - destruct res as [m|ok hasBody statusText];
      [|destruct (negb ok || negb hasBody)]; try (eapply Hfail; eauto).
    apply (openBytesCounted_move st w _ _ Hw); simpl; auto; lia.
  - destruct Hinv as (Hws & Hsum & Ha).
    destruct (onData_fields (this st) len now) as (_ & _ & _ & Hda & Hds & _).
    unfold openBytesCounted. fields.
    rewrite (sumOver_update _ _ _ _ _ Hw), Hda, Hds. simpl inFlight.
    repeat split; [apply Forall_update; simpl; auto; lia|lia|exact Ha].
  - destruct Hinv as (Hws & Hsum & Ha).
    eapply openBytesCounted_catch with (st := setThis st _); eauto.
    fields. simpl inFlight. lia.
  - destruct (chmodJavaFiles st file).
    + apply (openBytesCounted_move st w _ _ Hw); simpl; auto; lia.
    + eapply openBytesCounted_then; eauto.
  - destruct Hinv as (Hws & Hsum & Ha).
    eapply openBytesCounted_catch with (st := setThis st _); eauto.
    fields. simpl inFlight. lia.
  - destruct err; [eapply Hfail; eauto|eapply openBytesCounted_then; eauto].
  - apply (openBytesCounted_move st w _ _ Hw); simpl; auto; lia.
Qed.

Lemma openBytesCounted_nonneg st :
  openBytesCounted st ->
  0 <= Counts.amount (downloaded (this st))
  /\ 0 <= Counts.size (downloaded (this st)).
Proof.
  intros (Hws & Hsum & Ha). split; auto.
  assert (0 <= sumOver inFlight (workers st)); [|lia].
  clear Hsum. induction Hws as [|x ws Hx _ IH]; simpl; lia.
Qed.

Lemma countersNonneg_step st ev :
  openBytesCounted st ->
  Forall countersNonneg (emitted st) ->
  Forall countersNonneg (emitted (step st ev)).
Proof.
  intros Hinv He.
  pose proof (openBytesCounted_nonneg _ (openBytesCounted_step st ev Hinv))
    as Hnn.
  destruct (emitted_step st ev)
    as [-> | [(w & file & attempt & bytes & len & now & Hev & Hw & ->)
             | [(file & attempt & phase & message & _ & _ & ->)
               | (_ & ->)]]]; auto;
    apply Forall_app; split; auto; constructor; auto; try exact I.
  assert (Heq : this (step st ev) = onData (this st) len now)
    by (subst ev; unfold step; rewrite Hw; reflexivity).
  rewrite Heq in Hnn. exact Hnn.
Qed.

Lemma openBytesCounted_start prev os batch :
  openBytesCounted (startBatch prev os batch).
Proof.
  unfold openBytesCounted. rewrite this_start. cbn [downloaded Counts.size
                                                    Counts.amount].
  destruct (zeroWork batch) eqn:Hz.
  - destruct (startBatch_zero prev os batch Hz) as [-> _].
    repeat split; simpl; auto; lia.
  - rewrite (startBatch_started prev os batch Hz). cbn [workers].
    assert (Hzero : forall ws,
               Forall (fun x => inFlight x = 0) ws ->
               Forall (fun x => 0 <= inFlight x) ws
               /\ sumOver inFlight ws = 0).
    { induction 1 as [|x ws Hx _ [IH1 IH2]]; simpl; split; auto; try lia.
      constructor; auto; lia. }
    destruct (Hzero (map (fun file => Busy file 0 Mkdir)
                         (firstn CONCURRENCY_LIMIT batch)
                     ++ repeat Done (CONCURRENCY_LIMIT - List.length batch)))
      as [H1 H2].
    { apply Forall_app; split.
      - apply Forall_forall. intros x Hx. apply in_map_iff in Hx.
        destruct Hx as (f & <- & _). reflexivity.
      - apply Forall_forall. intros x Hx. apply repeat_spec in Hx.
        subst; reflexivity. }
    repeat split; auto; lia.
Qed.

(** X6: neither downloaded counter is ever negative: giving back the bytes
    of a failed attempt never takes [downloaded.size] below the bytes of the
    attempts still open, and these are not negative.  So every progress and
    end event carries counters that are not negative. *)
Theorem counters_not_negative prev os batch trace :
  0 <= Counts.amount (downloaded (this (run (startBatch prev os batch) trace)))
  /\ sumOver inFlight (workers (run (startBatch prev os batch) trace))
     <= Counts.size (downloaded (this (run (startBatch prev os batch) trace)))
  /\ 0 <= Counts.size
            (downloaded (this (run (startBatch prev os batch) trace)))
  /\ Forall countersNonneg (emitted (run (startBatch prev os batch) trace)).
Proof.
  assert (Hrun : forall tr st,
             openBytesCounted st ->
             Forall countersNonneg (emitted st) ->
             openBytesCounted (run st tr)
             /\ Forall countersNonneg (emitted (run st tr))).
  { unfold run; induction tr as [|ev rest IH]; intros st Hinv He; simpl; auto.
    apply IH; auto using openBytesCounted_step, countersNonneg_step. }
  destruct (Hrun trace _ (openBytesCounted_start prev os batch)) as [Hinv He].
  { rewrite emitted_start.
    destruct (zeroWork batch); repeat constructor; simpl; lia. }
  destruct (openBytesCounted_nonneg _ Hinv) as [Ha Hs].
  repeat split; auto. apply Hinv.
Qed.
(** ** A resolved batch has downloaded every file *)

Lemma allAccounted_move st w file attempt phase new :
  nth_error (workers st) w = Some (Busy file attempt phase) ->
  isDone new = false ->
  allAccounted st -> allAccounted (setWorker st w new).
Proof.
  intros Hw Hnew [Hsum Hidle]. unfold allAccounted. fields.
  rewrite (sumOver_update _ _ _ _ _ Hw).
  split.
  - destruct new; try discriminate; simpl; lia.
  - destruct Hidle as [Hq | Hall]; [now left|right].
    now apply Forall_update.
Qed.

Lemma allAccounted_catch st w file attempt phase message :
  nth_error (workers st) w = Some (Busy file attempt phase) ->
  allAccounted st ->
  allAccounted (downloadFileWithRetry_catch st w file attempt message).
Proof.
  intros Hw Hinv. unfold downloadFileWithRetry_catch.
  destruct (attempt <? 5)%nat.
  - eapply allAccounted_move; eauto.
  - pose proof (allAccounted_move st w file attempt phase Failed Hw eq_refl
                  Hinv) as Hm.
    fields. destruct (outcome st); exact Hm.
Qed.

Lemma allAccounted_then st w file attempt phase :
  nth_error (workers st) w = Some (Busy file attempt phase) ->
  allAccounted st ->
  allAccounted (downloadFileWithRetry_then st w).
Proof.
  intros Hw [Hsum Hidle]. unfold downloadFileWithRetry_then.
  cbn [queue setThis].
  destruct (queue st) as [|next rest] eqn:Hq.
  - unfold allAccounted.
    assert (Hqs : queue (settleAll
                           (setWorker (setThis st (incrAmount (this st)))
                                      w Done)) = []).
    { unfold settleAll. fields. destruct (outcome st); fields; auto.
      destruct (forallb isDone _); fields; auto. }
    rewrite Hqs, workers_settleAll, this_settleAll. fields.
    rewrite (sumOver_update _ _ _ _ _ Hw).
    simpl in *. split; [lia|now left].
  - unfold allAccounted. fields.
    rewrite (sumOver_update _ _ _ _ _ Hw).
    change (List.length (next :: rest)) with (S (List.length rest)) in Hsum.
    simpl notDone. split; [lia|].
    destruct Hidle as [Hnil | Hall]; [discriminate|].
    destruct rest; [now left|right]. now apply Forall_update.
Qed.

Lemma allAccounted_step st ev :
  allAccounted st -> allAccounted (step st ev).
Proof.
  intros Hinv.
  assert (Hthis : forall d,
             amount d = amount (this st) ->
             Counts.amount (downloaded d)
             = Counts.amount (downloaded (this st)) ->
             allAccounted (setThis st d)).
  { intros d Ha Hd. destruct Hinv as [Hsum Hidle].
    unfold allAccounted. fields. rewrite Ha, Hd. auto. }
  step_cases st ev; auto.
  - destruct err; [eapply allAccounted_catch; eauto|].
    apply (allAccounted_move (logRequest st file) w file attempt Mkdir);
      auto.
  - destruct res as [m|ok hasBody statusText];
      [|destruct (negb ok || negb hasBody)];
      try (eapply allAccounted_catch; eauto).
    eapply allAccounted_move; eauto.
  - destruct (onData_fields (this st) len now) as (_ & _ & Ha & Hda & _).
    apply (allAccounted_move
             (emit (setThis st (onData (this st) len now))
                   (progressEvent (onData (this st) len now) file))
             w file attempt (Streaming bytes)); auto.
  - eapply allAccounted_catch with (st := setThis st _); eauto.
  - destruct (chmodJavaFiles st file).
    + eapply allAccounted_move; eauto.
    + eapply allAccounted_then; eauto.
  - eapply allAccounted_catch with (st := setThis st _); eauto.
  - destruct err; [eapply allAccounted_catch; eauto
                  |eapply allAccounted_then; eauto].
  - eapply allAccounted_move; eauto.
Qed.

Lemma allAccounted_run trace :
  forall st, allAccounted st -> allAccounted (run st trace).
Proof.
  unfold run; induction trace as [|ev rest IH]; simpl;
    auto using allAccounted_step.
Qed.

Lemma allAccounted_start prev os batch :
  zeroWork batch = false -> allAccounted (startBatch prev os batch).
Proof.
  intros Hz. pose proof (spawn_amount CONCURRENCY_LIMIT batch) as Hs.
  rewrite spawn_firstn in Hs. cbn [fst snd] in Hs.
  rewrite (startBatch_started prev os batch Hz).
  unfold allAccounted.
  cbn [this queue workers downloaded Counts.amount amount].
  split; [lia|].
  destruct (skipn CONCURRENCY_LIMIT batch) as [|f rest] eqn:Hskip;
    [now left|right].
  assert (Hlen : (CONCURRENCY_LIMIT < List.length batch)%nat).
  { destruct (Nat.lt_ge_cases CONCURRENCY_LIMIT (List.length batch)); auto.
    rewrite skipn_all2 in Hskip by lia. discriminate. }
  replace (CONCURRENCY_LIMIT - List.length batch)%nat with 0%nat by lia.
  simpl repeat. rewrite app_nil_r.
  apply Forall_forall. intros x Hx. apply in_map_iff in Hx.
  destruct Hx as (g & <- & _). reflexivity.
Qed.

Lemma all_done_sum ws :
  forallb isDone ws = true -> sumOver notDone ws = 0.
Proof.
  induction ws as [|x ws IH]; simpl; auto.
  intros Hall; apply andb_true_iff in Hall as [Hx Hws].
  destruct x; try discriminate. simpl. rewrite IH; auto.
Qed.

(** X3: when a batch that was not returned at once resolves, every file of
    the resolved list has been downloaded: [downloaded.amount] is the length
    of the list, the queue is empty, every worker has returned, and the
    [download_end] event, the last of the log, carries that amount. *)
Theorem resolved_batch_is_complete prev os batch trace :
  zeroWork batch = false ->
  outcome (run (startBatch prev os batch) trace) = Resolved ->
  Counts.amount (downloaded (this (run (startBatch prev os batch) trace)))
  = Z.of_nat (List.length batch)
  /\ queue (run (startBatch prev os batch) trace) = []
  /\ forallb isDone (workers (run (startBatch prev os batch) trace)) = true
  /\ exists log size,
       emitted (run (startBatch prev os batch) trace)
       = log ++ [download_end (Counts.mk (Z.of_nat (List.length batch)) size)].
Proof.
  intros Hz Hres.
  pose proof (endMatchesOutcome_run trace _
                (endMatchesOutcome_start prev os batch)) as Hend.
  pose proof (allAccounted_run trace _ (allAccounted_start prev os batch Hz))
    as [Hsum Hidle].
  destruct (totals_run trace (startBatch prev os batch)) as (_ & _ & Ha & _).
  rewrite this_start in Ha. cbn [amount] in Ha.
  pose proof (pool_length prev os batch trace) as Hlen.
  rewrite Hz in Hlen.
  set (st := run (startBatch prev os batch) trace) in *.
  unfold endMatchesOutcome in Hend. rewrite Hres in Hend.
  destruct Hend as [Hall (log & Hlog & _)].
  assert (Hq : queue st = []).
  { destruct Hidle as [Hq | Hnone]; auto.
    destruct (workers st) as [|x ws]; [discriminate|].
    inversion Hnone; subst. simpl in Hall.
    apply andb_true_iff in Hall as [Hx _]. congruence. }
  rewrite Hq, (all_done_sum _ Hall), Ha in Hsum. simpl in Hsum.
  assert (Hamount : Counts.amount (downloaded (this st))
                    = Z.of_nat (List.length batch)) by lia.
  repeat split; auto.
  exists log, (Counts.size (downloaded (this st))).
  rewrite Hlog. do 3 f_equal.
  destruct (downloaded (this st)) as [a s]. simpl in Hamount. now subst.
Qed.

Lemma resolved_batch_is_complete_witness :
  zeroWork [exJar] = false
  /\ outcome (run (startBatch exPrev "linux" [exJar]) exCleanRun) = Resolved
  /\ Counts.amount
       (downloaded (this (run (startBatch exPrev "linux" [exJar]) exCleanRun)))
     = 1.
Proof.
  assert (Hz : zeroWork [exJar] = false) by reflexivity.
  assert (Ho : outcome (run (startBatch exPrev "linux" [exJar]) exCleanRun)
               = Resolved) by reflexivity.
  split; [exact Hz|split; [exact Ho|]].
  exact (proj1 (resolved_batch_is_complete exPrev "linux" [exJar] exCleanRun
                  Hz Ho)).
Defined.
(** ** Rejection and exhausted files *)









(** ** Attempts and requests are bounded *)

Lemma fetchesLeft_nonneg x : attemptBounded x -> 0 <= fetchesLeft x.
Proof.
  destruct x as [file attempt [| |bytes| |delay]| |];
    cbn [attemptBounded fetchesLeft]; lia.
Qed.

Lemma withinFetchBudget_move batch st w old new :
  nth_error (workers st) w = Some old ->
  attemptBounded new ->
  fetchesLeft new <= fetchesLeft old ->
  withinFetchBudget batch st -> withinFetchBudget batch (setWorker st w new).
Proof.
  intros Hw Hnew Hle [Hws Hsum]. unfold withinFetchBudget. fields.
  rewrite (sumOver_update _ _ _ _ _ Hw).
  split; [now apply Forall_update|lia].
Qed.

Lemma withinFetchBudget_catch batch st w file attempt phase message :
  nth_error (workers st) w = Some (Busy file attempt phase) ->
  withinFetchBudget batch st ->
  withinFetchBudget batch
    (downloadFileWithRetry_catch st w file attempt message).
Proof.
  intros Hw Hinv.
  pose proof (nth_error_Forall _ _ _ _ (proj1 Hinv) Hw) as Hold.
  unfold downloadFileWithRetry_catch.
  destruct (attempt <? 5)%nat eqn:Hlt.
  - apply Nat.ltb_lt in Hlt.
    eapply withinFetchBudget_move; eauto.
    destruct phase as [| |bytes| |delay]; cbn [fetchesLeft]; lia.
  - pose proof (withinFetchBudget_move batch st w _ Failed Hw I) as Hm.
    fields. destruct (outcome st); apply Hm; auto;
      cbn [fetchesLeft]; apply (fetchesLeft_nonneg _ Hold).
Qed.

Lemma withinFetchBudget_then batch st w old :
  nth_error (workers st) w = Some old ->
  withinFetchBudget batch st ->
  withinFetchBudget batch (downloadFileWithRetry_then st w).
Proof.
  intros Hw [Hws Hsum].
  pose proof (fetchesLeft_nonneg _ (nth_error_Forall _ _ _ _ Hws Hw))
    as Hleft.
  unfold downloadFileWithRetry_then. cbn [queue setThis].
  destruct (queue st) as [|next rest] eqn:Hq.
  - unfold withinFetchBudget. rewrite workers_settleAll.
    assert (Hsame : forall s, queue (settleAll s) = queue s
                              /\ requests (settleAll s) = requests s).
    { intros s. unfold settleAll. destruct (outcome s); auto.
      destruct (forallb isDone (workers s)); auto. }
    destruct (Hsame (setWorker (setThis st (incrAmount (this st))) w Done))
      as [-> ->].
    fields. rewrite (sumOver_update _ _ _ _ _ Hw), Hq.
    cbn [fetchesLeft].
    split; [apply Forall_update; simpl; auto|lia].
  - unfold withinFetchBudget. fields.
    rewrite (sumOver_update _ _ _ _ _ Hw).
    change (List.length (next :: rest)) with (S (List.length rest)) in Hsum.
    rewrite Nat2Z.inj_succ in Hsum.
    cbn [fetchesLeft].
    split; [apply Forall_update; cbn [attemptBounded]; auto; lia|lia].
Qed.

Lemma withinFetchBudget_step batch st ev :
  withinFetchBudget batch st -> withinFetchBudget batch (step st ev).
Proof.
  intros Hinv.
  assert (Hold : forall w x, nth_error (workers st) w = Some x ->
                             attemptBounded x)
    by (intros w x; apply nth_error_Forall; apply Hinv).
  step_cases st ev; auto;
    try (pose proof (Hold _ _ Hw) as Hb; cbn [attemptBounded] in Hb).
  - destruct err.
    + eapply withinFetchBudget_catch; eauto.
    + destruct Hinv as [Hws Hsum]. unfold withinFetchBudget. fields.
      rewrite (sumOver_update _ _ _ _ _ Hw), length_app, Nat2Z.inj_add.
      cbn [fetchesLeft List.length].
      split; [apply Forall_update; cbn [attemptBounded]; auto|lia].
  - destruct res as [m|ok hasBody statusText];
      [|destruct (negb ok || negb hasBody)];
      try (eapply withinFetchBudget_catch; eauto).
    eapply withinFetchBudget_move; eauto;
      cbn [attemptBounded fetchesLeft]; auto; lia.
  - apply (withinFetchBudget_move batch
             (emit (setThis st (onData (this st) len now))
                   (progressEvent (onData (this st) len now) file))
             w _ _ Hw); cbn [attemptBounded fetchesLeft]; auto; lia.
  - eapply withinFetchBudget_catch with (st := setThis st _); eauto.
  - destruct (chmodJavaFiles st file).
    + eapply withinFetchBudget_move; eauto;
        cbn [attemptBounded fetchesLeft]; auto; lia.
    + eapply withinFetchBudget_then; eauto.
  - eapply withinFetchBudget_catch with (st := setThis st _); eauto.
  - destruct err.
    + eapply withinFetchBudget_catch; eauto.
    + eapply withinFetchBudget_then; eauto.
  - eapply withinFetchBudget_move; eauto; cbn [attemptBounded fetchesLeft]; lia.
Qed.

Lemma withinFetchBudget_start prev os batch :
  withinFetchBudget batch (startBatch prev os batch).
Proof.
  unfold withinFetchBudget.
  destruct (zeroWork batch) eqn:Hz.
  - destruct (startBatch_zero prev os batch Hz) as [-> ->].
    unfold startBatch. unfold zeroWork in Hz. cbn [size]. rewrite Hz.
    cbn [requests List.length sumOver fold_right].
    split; [constructor|lia].
  - rewrite (startBatch_started prev os batch Hz).
    cbn [workers requests queue].
    assert (Hmap : forall l : list File.t,
               Forall attemptBounded (map (fun f => Busy f 0 Mkdir) l)
               /\ sumOver fetchesLeft (map (fun f => Busy f 0 Mkdir) l)
                  = 6 * Z.of_nat (List.length l)).
    { induction l as [|f l [IH1 IH2]]; [split; [constructor|reflexivity]|].
      cbn [map List.length]. rewrite sumOver_cons, Nat2Z.inj_succ, IH2.
      cbn [fetchesLeft].
      split; [constructor; cbn [attemptBounded]; auto; lia|lia]. }
    assert (Hrep : forall n,
               Forall attemptBounded (repeat Done n)
               /\ sumOver fetchesLeft (repeat Done n) = 0).
    { induction n as [|n [IH1 IH2]]; [split; [constructor|reflexivity]|].
      cbn [repeat]. rewrite sumOver_cons, IH2.
      split; [constructor; simpl; auto|reflexivity]. }
    assert (Happ : forall a b : list Worker,
               sumOver fetchesLeft (a ++ b)
               = sumOver fetchesLeft a + sumOver fetchesLeft b).
    { induction a as [|x a IH]; intros b; [reflexivity|].
      cbn [app]. rewrite !sumOver_cons, IH. lia. }
    destruct (Hmap (firstn CONCURRENCY_LIMIT batch)) as [Hm1 Hm2].
    destruct (Hrep (CONCURRENCY_LIMIT - List.length batch)%nat) as [Hr1 Hr2].
    split; [apply Forall_app; auto|].
    rewrite Happ, Hm2, Hr2.
    pose proof (firstn_skipn CONCURRENCY_LIMIT batch) as Hsplit.
    apply (f_equal (@List.length File.t)) in Hsplit.
    rewrite length_app in Hsplit. cbn [List.length]. lia.
Qed.

Lemma fetchesLeftFor_nonneg file x :
  attemptBounded x -> 0 <= fetchesLeftFor file x.
Proof.
  intros Hx. pose proof (fetchesLeft_nonneg x Hx).
  destruct x as [held attempt phase| |]; cbn [fetchesLeftFor]; try lia.
  destruct (File_eq_dec held file); lia.
Qed.

Lemma fetchesLeftFor_held file held attempt phase attempt' phase' :
  fetchesLeft (Busy held attempt' phase')
  <= fetchesLeft (Busy held attempt phase) ->
  fetchesLeftFor file (Busy held attempt' phase')
  <= fetchesLeftFor file (Busy held attempt phase).
Proof.
  intros Hle. cbn [fetchesLeftFor]. destruct (File_eq_dec held file); lia.
Qed.

Lemma withinFileBudget_move batch file st w old new :
  nth_error (workers st) w = Some old ->
  fetchesLeftFor file new <= fetchesLeftFor file old ->
  withinFileBudget batch file st ->
  withinFileBudget batch file (setWorker st w new).
Proof.
  intros Hw Hle Hsum. unfold withinFileBudget in *. fields.
  rewrite (sumOver_update _ _ _ _ _ Hw). lia.
Qed.

Lemma withinFileBudget_catch batch file st w held attempt phase message :
  nth_error (workers st) w = Some (Busy held attempt phase) ->
  attemptBounded (Busy held attempt phase) ->
  withinFileBudget batch file st ->
  withinFileBudget batch file
    (downloadFileWithRetry_catch st w held attempt message).
Proof.
  intros Hw Hold Hinv.
  unfold downloadFileWithRetry_catch.
  destruct (attempt <? 5)%nat eqn:Hlt.
  - apply Nat.ltb_lt in Hlt.
    eapply withinFileBudget_move; eauto.
    apply fetchesLeftFor_held.
    destruct phase as [| |bytes| |delay]; cbn [fetchesLeft]; lia.
  - pose proof (withinFileBudget_move batch file st w _ Failed Hw) as Hm.
    pose proof (fetchesLeftFor_nonneg file _ Hold) as Hleft.
    fields. destruct (outcome st); apply Hm; auto.
Qed.

Lemma withinFileBudget_then batch file st w old :
  nth_error (workers st) w = Some old ->
  attemptBounded old ->
  withinFileBudget batch file st ->
  withinFileBudget batch file (downloadFileWithRetry_then st w).
Proof.
  intros Hw Hold Hsum.
  pose proof (fetchesLeftFor_nonneg file _ Hold) as Hleft.
  unfold downloadFileWithRetry_then. cbn [queue setThis].
  unfold withinFileBudget in *.
  destruct (queue st) as [|next rest] eqn:Hq.
  - rewrite workers_settleAll.
    assert (Hsame : forall s, queue (settleAll s) = queue s
                              /\ requests (settleAll s) = requests s).
    { intros s. unfold settleAll. destruct (outcome s); auto.
      destruct (forallb isDone (workers s)); auto. }
    destruct (Hsame (setWorker (setThis st (incrAmount (this st))) w Done))
      as [-> ->].
    fields. rewrite (sumOver_update _ _ _ _ _ Hw), Hq.
    cbn [fetchesLeftFor count_occ]. cbn [count_occ] in Hsum. lia.
  - fields. rewrite (sumOver_update _ _ _ _ _ Hw).
    cbn [fetchesLeftFor fetchesLeft count_occ] in *.
    destruct (File_eq_dec next file);
      rewrite ?Nat2Z.inj_succ in Hsum; cbn [Z.of_nat] in *; lia.
Qed.

Lemma withinFileBudget_step batch target st ev :
  withinFetchBudget batch st ->
  withinFileBudget batch target st ->
  withinFileBudget batch target (step st ev).
Proof.
  intros Hbound Hinv.
  assert (Hold : forall w x, nth_error (workers st) w = Some x ->
                             attemptBounded x)
    by (intros w x; apply nth_error_Forall; apply Hbound).
  step_cases st ev; auto; try (pose proof (Hold _ _ Hw) as Hb).
  - destruct err.
    + eapply withinFileBudget_catch; eauto.
    + unfold withinFileBudget in *. fields.
      rewrite (sumOver_update _ _ _ _ _ Hw), count_occ_app.
      cbn [fetchesLeftFor fetchesLeft count_occ].
      destruct (File_eq_dec file target); lia.
  - destruct res as [m|ok hasBody statusText];
      [|destruct (negb ok || negb hasBody)];
      try (eapply withinFileBudget_catch; eauto).
    eapply withinFileBudget_move; eauto.
    apply fetchesLeftFor_held. cbn [fetchesLeft]. lia.
  - apply (withinFileBudget_move batch target
             (emit (setThis st (onData (this st) len now))
                   (progressEvent (onData (this st) len now) file))
             w _ _ Hw); [|exact Hinv].
    apply fetchesLeftFor_held. cbn [fetchesLeft]. lia.
  - eapply withinFileBudget_catch with (st := setThis st _); eauto.
  - destruct (chmodJavaFiles st file).
    + eapply withinFileBudget_move; eauto.
      apply fetchesLeftFor_held. cbn [fetchesLeft]. lia.
    + eapply withinFileBudget_then; eauto.
  - eapply withinFileBudget_catch with (st := setThis st _); eauto.
  - destruct err.
    + eapply withinFileBudget_catch; eauto.
    + eapply withinFileBudget_then; eauto.
  - eapply withinFileBudget_move; eauto.
    cbn [attemptBounded] in Hb.
    cbn [fetchesLeftFor fetchesLeft]. destruct (File_eq_dec file target); lia.
Qed.

Lemma withinFileBudget_start prev os batch file :
  withinFileBudget batch file (startBatch prev os batch).
Proof.
  unfold withinFileBudget.
  destruct (zeroWork batch) eqn:Hz.
  - destruct (startBatch_zero prev os batch Hz) as [-> ->].
    unfold startBatch. unfold zeroWork in Hz. cbn [size]. rewrite Hz.
    cbn [requests count_occ sumOver fold_right]. lia.
  - rewrite (startBatch_started prev os batch Hz).
    cbn [workers requests queue].
    assert (Hmap : forall l : list File.t,
               sumOver (fetchesLeftFor file) (map (fun f => Busy f 0 Mkdir) l)
               = 6 * Z.of_nat (count_occ File_eq_dec l file)).
    { induction l as [|f l IH]; [reflexivity|].
      cbn [map count_occ]. rewrite sumOver_cons, IH.
      cbn [fetchesLeftFor fetchesLeft].
      destruct (File_eq_dec f file); rewrite ?Nat2Z.inj_succ;
        cbn [Z.of_nat]; lia. }
    assert (Hrep : forall n, sumOver (fetchesLeftFor file) (repeat Done n) = 0).
    { induction n as [|n IH]; [reflexivity|].
      cbn [repeat]. now rewrite sumOver_cons, IH. }
    assert (Happ : forall a b : list Worker,
               sumOver (fetchesLeftFor file) (a ++ b)
               = sumOver (fetchesLeftFor file) a
                 + sumOver (fetchesLeftFor file) b).
    { induction a as [|x a IH]; intros b; [reflexivity|].
      cbn [app]. rewrite !sumOver_cons, IH. lia. }
    rewrite Happ, Hmap, Hrep.
    pose proof (firstn_skipn CONCURRENCY_LIMIT batch) as Hsplit.
    apply (f_equal (fun l => count_occ File_eq_dec l file)) in Hsplit.
    rewrite count_occ_app in Hsplit. cbn [count_occ]. lia.
Qed.

(** X5: attempts are numbered 0 to 5 in every state; a batch never calls
    [fetch] more than six times per file of the resolved list; and for
    each file, it never calls [fetch] more than six times for each time
    the file is listed (never, for a file that is not). *)
Theorem attempts_and_requests_bounded prev os batch trace :
  Forall attemptBounded (workers (run (startBatch prev os batch) trace))
  /\ (forall w file attempt phase,
         nth_error (workers (run (startBatch prev os batch) trace)) w
         = Some (Busy file attempt phase) ->
         (attempt <= 5)%nat)
  /\ (List.length (requests (run (startBatch prev os batch) trace))
      <= 6 * List.length batch)%nat
  /\ (forall file,
         (count_occ File_eq_dec
                    (requests (run (startBatch prev os batch) trace)) file
          <= 6 * count_occ File_eq_dec batch file)%nat).
Proof.
  assert (Hrun : forall tr st,
             withinFetchBudget batch st -> withinFetchBudget batch (run st tr)).
  { unfold run; induction tr as [|ev rest IH]; simpl;
      auto using withinFetchBudget_step. }
  assert (Hfile : forall file tr st,
             withinFetchBudget batch st -> withinFileBudget batch file st ->
             withinFileBudget batch file (run st tr)).
  { intros file. unfold run; induction tr as [|ev rest IH]; simpl; auto.
    intros st Hb Hf. apply IH.
    - now apply withinFetchBudget_step.
    - now apply withinFileBudget_step. }
  destruct (Hrun trace _ (withinFetchBudget_start prev os batch))
    as [Hws Hsum].
  split; [exact Hws|split; [|split]].
  - intros w file attempt phase Hw.
    pose proof (nth_error_Forall _ _ _ _ Hws Hw) as Hb.
    destruct phase; cbn [attemptBounded] in Hb; lia.
  - assert (0 <= sumOver fetchesLeft
                   (workers (run (startBatch prev os batch) trace))).
    { clear Hsum. induction Hws as [|x ws Hx _ IH]; simpl; [lia|].
      pose proof (fetchesLeft_nonneg x Hx). lia. }
    lia.
  - intros file.
    pose proof (Hfile file trace _ (withinFetchBudget_start prev os batch)
                      (withinFileBudget_start prev os batch file)) as Hf.
    unfold withinFileBudget in Hf.
    assert (0 <= sumOver (fetchesLeftFor file)
                   (workers (run (startBatch prev os batch) trace))).
    { clear Hsum Hf. induction Hws as [|x ws Hx _ IH]; simpl; [lia|].
      pose proof (fetchesLeftFor_nonneg file x Hx). lia. }
    lia.
Qed.

(** ** A rejected batch keeps working *)

Lemma sameWork_catch st1 st2 w file attempt message :
  sameWork st1 st2 ->
  sameWork (downloadFileWithRetry_catch st1 w file attempt message)
           (downloadFileWithRetry_catch st2 w file attempt message).
Proof.
  intros (Ht & Hq & Hw & Hr & Hp). unfold downloadFileWithRetry_catch.
  destruct (attempt <? 5)%nat; fields.
  - repeat split; fields; congruence.
  - destruct (outcome st1), (outcome st2); repeat split; fields; congruence.
Qed.

Lemma sameWork_settleAll st1 st2 :
  sameWork st1 st2 -> sameWork (settleAll st1) (settleAll st2).
Proof.
  intros (Ht & Hq & Hw & Hr & Hp). unfold settleAll. rewrite Hw.
  destruct (outcome st1), (outcome st2), (forallb isDone (workers st2));
    repeat split; fields; congruence.
Qed.

Lemma sameWork_then st1 st2 w :
  sameWork st1 st2 ->
  sameWork (downloadFileWithRetry_then st1 w)
           (downloadFileWithRetry_then st2 w).
Proof.
  intros (Ht & Hq & Hw & Hr & Hp). unfold downloadFileWithRetry_then.
  cbn [queue setThis]. rewrite Hq.
  destruct (queue st2) eqn:Hq2.
  - apply sameWork_settleAll. repeat split; fields; congruence.
  - repeat split; fields; congruence.
Qed.

Lemma sameWork_step st1 st2 ev :
  sameWork st1 st2 -> sameWork (step st1 ev) (step st2 ev).
Proof.
  intros Hsame.
  pose proof Hsame as (Ht & Hq & Hw & Hr & Hp).
  assert (Hchmod : forall file,
             chmodJavaFiles st1 file = chmodJavaFiles st2 file)
    by (intros file; unfold chmodJavaFiles; now rewrite Hp).
  destruct ev as [w err|w res|w len now|w|w msg|w|w msg|w err|w];
    unfold step; rewrite ?Hw; auto;
    destruct (nth_error (workers st2) w)
      as [[file attempt [ | |bytes| |delay]| |]|]; auto;
    try (destruct err); try (destruct res as [m|ok hasBody statusText]);
    try (destruct (negb ok || negb hasBody));
    try (rewrite Hchmod; destruct (chmodJavaFiles st2 file));
    try (apply sameWork_catch); try (apply sameWork_then); auto;
    repeat split; fields; congruence.
Qed.

(** X10: rejecting the call stops nothing.  Whatever the promise of
    [download] has become, the same events bring the same counters, the
    same queue, the same workers and the same [fetch] calls: the other
    workers go on exactly as if no file had run out of attempts. *)
Theorem rejection_stops_nothing st o trace :
  this (run (setOutcome st o) trace) = this (run st trace)
  /\ queue (run (setOutcome st o) trace) = queue (run st trace)
  /\ workers (run (setOutcome st o) trace) = workers (run st trace)
  /\ requests (run (setOutcome st o) trace) = requests (run st trace).
Proof.
  assert (Hrun : forall tr st1 st2,
             sameWork st1 st2 -> sameWork (run st1 tr) (run st2 tr)).
  { unfold run; induction tr as [|ev rest IH]; simpl;
      auto using sameWork_step. }
  destruct (Hrun trace (setOutcome st o) st) as (H1 & H2 & H3 & H4 & _).
  - repeat split.
  - auto.
Qed.
(** ** A rejected [chmod] *)

Lemma platform_step st ev : platform (step st ev) = platform st.
Proof.
  assert (Hcatch : forall s w file attempt message,
             platform (downloadFileWithRetry_catch s w file attempt message)
             = platform s).
  { intros. unfold downloadFileWithRetry_catch.
    destruct (attempt <? 5)%nat; fields; auto. destruct (outcome s); auto. }
  assert (Hthen : forall w, platform (downloadFileWithRetry_then st w)
                            = platform st).
  { intros w. unfold downloadFileWithRetry_then. cbn [queue setThis].
    destruct (queue st); auto.
    unfold settleAll. fields. destruct (outcome st); fields; auto.
    destruct (forallb isDone _); auto. }
  step_cases st ev; auto;
    repeat match goal with
      | |- context [match ?x with _ => _ end] => destruct x
      | |- context [if ?x then _ else _] => destruct x
      end;
    rewrite ?Hcatch, ?Hthen; auto.
Qed.

Lemma mkdir_settled_step st w file attempt :
  nth_error (workers st) w = Some (Busy file attempt Mkdir) ->
  this (step st (MkdirSettled w None)) = this st
  /\ nth_error (workers (step st (MkdirSettled w None))) w
     = Some (Busy file attempt Fetching).
Proof.
  intros Hw. unfold step. rewrite Hw. split; [reflexivity|].
  fields. eapply nth_error_update_same; eauto.
Qed.

Lemma fetch_settled_step st w file attempt statusText :
  nth_error (workers st) w = Some (Busy file attempt Fetching) ->
  this (step st (FetchSettled w (HttpResponse true true statusText))) = this st
  /\ nth_error
       (workers (step st (FetchSettled w (HttpResponse true true statusText))))
       w
     = Some (Busy file attempt (Streaming 0)).
Proof.
  intros Hw. unfold step. rewrite Hw. cbn [negb orb]. split; [reflexivity|].
  fields. eapply nth_error_update_same; eauto.
Qed.

Lemma body_data_step st w file attempt bytes len now :
  nth_error (workers st) w = Some (Busy file attempt (Streaming bytes)) ->
  this (step st (BodyData w len now)) = onData (this st) len now
  /\ nth_error (workers (step st (BodyData w len now))) w
     = Some (Busy file attempt (Streaming (bytes + Z.of_N len))).
Proof.
  intros Hw. unfold step. rewrite Hw. split; [reflexivity|].
  fields. eapply nth_error_update_same; eauto.
Qed.

Lemma stream_finish_chmod_step st w file attempt bytes :
  nth_error (workers st) w = Some (Busy file attempt (Streaming bytes)) ->
  chmodJavaFiles st file = true ->
  this (step st (StreamFinish w)) = this st
  /\ nth_error (workers (step st (StreamFinish w))) w
     = Some (Busy file attempt Chmod).
Proof.
  intros Hw Hch. unfold step. rewrite Hw, Hch. split; [reflexivity|].
  fields. eapply nth_error_update_same; eauto.
Qed.

Lemma chmod_rejected_step st w file attempt message :
  nth_error (workers st) w = Some (Busy file attempt Chmod) ->
  this (step st (ChmodSettled w (Some message))) = this st
  /\ nth_error (workers (step st (ChmodSettled w (Some message)))) w
     = Some (if (attempt <? 5)%nat
             then Busy file attempt (Sleeping (retryDelay attempt))
             else Failed).
Proof.
  intros Hw. unfold step. rewrite Hw, this_catch. split; [reflexivity|].
  unfold downloadFileWithRetry_catch.
  destruct (attempt <? 5)%nat; fields; [|destruct (outcome st); fields];
    eapply nth_error_update_same; eauto.
Qed.

Lemma timer_fired_step st w file attempt delay :
  nth_error (workers st) w = Some (Busy file attempt (Sleeping delay)) ->
  this (step st (TimerFired w)) = this st
  /\ nth_error (workers (step st (TimerFired w))) w
     = Some (Busy file (S attempt) Mkdir).
Proof.
  intros Hw. unfold step. rewrite Hw. split; [reflexivity|].
  fields. eapply nth_error_update_same; eauto.
Qed.

(** X9: when the [chmod] that follows a finished write rejects, the
    attempt fails without giving back its bytes (the stream error handlers
    do give them back): the counters are left as they are and the file is
    retried.  So for any executable file received whole, on a platform other
    than win32, a rejected [chmod] followed by a retry that receives the
    file whole again counts its bytes twice, and [downloaded.size] ends at
    twice the total of the batch. *)
Theorem rejected_chmod_counts_bytes_twice prev os file len :
  String.eqb os "win32" = false ->
  File.executable file = true ->
  File.size file = Some len ->
  len <> 0%N ->
  (forall st w attempt message,
      nth_error (workers st) w = Some (Busy file attempt Chmod) ->
      this (step st (ChmodSettled w (Some message))) = this st)
  /\ size (this (run (startBatch prev os [file]) (chmodRetry len)))
     = Z.of_N len
  /\ Counts.size
       (downloaded (this (run (startBatch prev os [file]) (chmodRetry len))))
     = 2 * Z.of_N len
  /\ Counts.amount
       (downloaded (this (run (startBatch prev os [file]) (chmodRetry len))))
     = 0.
Proof.
  intros Hos Hexec Hsize Hlen.
  split; [intros st w attempt message Hw;
          apply (chmod_rejected_step st w file attempt message Hw)|].
  assert (Hsum : sumSizes [file] = Z.of_N len)
    by (unfold sumSizes, sizeOrZero; simpl; now rewrite Hsize).
  assert (Hz : zeroWork [file] = false).
  { unfold zeroWork. rewrite Hsum. simpl.
    rewrite orb_false_r. apply Z.eqb_neq. lia. }
  assert (Hch : forall st, platform st = os -> chmodJavaFiles st file = true)
    by (intros st Hp; unfold chmodJavaFiles; now rewrite Hp, Hos, Hexec).
  unfold run, chmodRetry. cbn [fold_left].
  set (s0 := startBatch prev os [file]).
  assert (Hp0 : platform s0 = os)
    by (unfold s0; rewrite (startBatch_started prev os [file] Hz); reflexivity).
  assert (Ht0 : this s0
                = mkDownloader (dest prev) (Z.of_N len) 1 (Counts.mk 0 0)
                               false 0%Q 0%Q [])
    by (unfold s0; rewrite this_start, Hsum; reflexivity).
  assert (Hw0 : nth_error (workers s0) 0 = Some (Busy file 0 Mkdir))
    by (unfold s0; rewrite (startBatch_started prev os [file] Hz);
        reflexivity).
  destruct (mkdir_settled_step s0 0 file 0 Hw0) as [Ht1 Hw1].
  set (s1 := step s0 (MkdirSettled 0 None)) in *.
  destruct (fetch_settled_step s1 0 file 0 "OK" Hw1) as [Ht2 Hw2].
  set (s2 := step s1 (FetchSettled 0 (HttpResponse true true "OK"))) in *.
  destruct (body_data_step s2 0 file 0 0 len 0 Hw2) as [Ht3 Hw3].
  set (s3 := step s2 (BodyData 0 len 0)) in *.
  change (step s3 (BodyEnd 0)) with s3.
  assert (Hp3 : platform s3 = os)
    by (unfold s3, s2, s1; now rewrite !platform_step).
  destruct (stream_finish_chmod_step s3 0 file 0 _ Hw3 (Hch s3 Hp3))
    as [Ht5 Hw5].
  set (s5 := step s3 (StreamFinish 0)) in *.
  destruct (chmod_rejected_step s5 0 file 0 "EPERM" Hw5) as [Ht6 Hw6].
  set (s6 := step s5 (ChmodSettled 0 (Some "EPERM"))) in *.
  cbn [Nat.ltb Nat.leb] in Hw6.
  destruct (timer_fired_step s6 0 file 0 _ Hw6) as [Ht7 Hw7].
  set (s7 := step s6 (TimerFired 0)) in *.
  destruct (mkdir_settled_step s7 0 file 1 Hw7) as [Ht8 Hw8].
  set (s8 := step s7 (MkdirSettled 0 None)) in *.
  destruct (fetch_settled_step s8 0 file 1 "OK" Hw8) as [Ht9 Hw9].
  set (s9 := step s8 (FetchSettled 0 (HttpResponse true true "OK"))) in *.
  destruct (body_data_step s9 0 file 1 0 len 0 Hw9) as [Ht10 _].
  rewrite Ht10, Ht9, Ht8, Ht7, Ht6, Ht5, Ht3, Ht2, Ht1, Ht0.
  destruct (onData_fields
              (onData (mkDownloader (dest prev) (Z.of_N len) 1 (Counts.mk 0 0)
                                    false 0%Q 0%Q []) len 0) len 0)
    as (_ & -> & _ & -> & -> & _).
  destruct (onData_fields
              (mkDownloader (dest prev) (Z.of_N len) 1 (Counts.mk 0 0)
                            false 0%Q 0%Q []) len 0)
    as (_ & -> & _ & -> & -> & _).
  cbn [size downloaded Counts.size Counts.amount]. repeat split; lia.
Qed.

Lemma rejected_chmod_counts_bytes_twice_witness :
  String.eqb "linux" "win32" = false
  /\ File.executable exTool = true
  /\ File.size exTool = Some 10%N
  /\ Counts.size
       (downloaded (this (run (startBatch exPrev "linux" [exTool])
                              (chmodRetry 10))))
     = 2 * Z.of_N 10.
Proof.
  split; [reflexivity|split; [reflexivity|split; [reflexivity|]]].
  assert (Hlen : 10%N <> 0%N) by discriminate.
  exact (proj1 (proj2 (proj2
           (rejected_chmod_counts_bytes_twice exPrev "linux" exTool 10%N
              eq_refl eq_refl eq_refl Hlen)))).
Defined.
(** ** The history spans at most six seconds *)

Lemma last_suffix {A} (a b : list A) d : b <> [] -> last (a ++ b) d = last b d.
Proof.
  intros Hb. induction a as [|x a IH]; [reflexivity|].
  cbn [app]. destruct (a ++ b) eqn:Hab.
  - destruct a; [simpl in Hab; contradiction|discriminate].
  - rewrite <- IH. reflexivity.
Qed.

Lemma windowed_later t t' h : windowed t h -> t <= t' -> windowed t' h.
Proof.
  intros (Hc & Ht & Hw) Hle. repeat split; auto.
  eapply Forall_impl; [|exact Ht]. simpl; intros; lia.
Qed.

Lemma windowed_onData t d len now :
  windowed t (history d) -> t <= now ->
  windowed now (history (onData d len now)).
Proof.
  intros (Hc & Ht & _) Hle.
  assert (Hpushed : chronological (history d ++ [Sample.mk (Z.of_N len) now])
                    = true).
  { apply chronological_push; auto.
    eapply Forall_impl; [|exact Ht]. simpl; intros; lia. }
  change (history (onData d len now))
    with (prune now (history d ++ [Sample.mk (Z.of_N len) now])).
  destruct (prune_suffix now (history d ++ [Sample.mk (Z.of_N len) now]))
    as (old & Heq & _).
  pose proof (prune_push_nonempty now (history d) (Z.of_N len)) as Hne.
  pose proof (chronological_last _ _ Hpushed) as Hall.
  assert (Hnew : newestTime
                   (prune now (history d ++ [Sample.mk (Z.of_N len) now]))
                 = now).
  { unfold newestTime.
    rewrite <- (last_suffix old _ (Sample.mk 0 0) Hne), <- Heq, last_last.
    reflexivity. }
  repeat split.
  - rewrite Heq in Hpushed. eapply chronological_suffix; eauto.
  - rewrite Heq in Hall. now apply Forall_app in Hall.
  - rewrite Hnew, (prune_withinWindow _ _ Hpushed).
    apply Forall_forall. intros s Hs. apply filter_In in Hs as [_ Hs].
    now apply Z.leb_le.
Qed.

Lemma history_step st ev :
  history (this (step st ev)) = history (this st)
  \/ exists w len now,
       ev = BodyData w len now
       /\ history (this (step st ev)) = history (onData (this st) len now).
Proof.
  destruct (this_step st ev)
    as [-> | [(w & file & attempt & bytes & len & now & Hev & _ & ->)
             | [(file & attempt & bytes & _ & ->) | ->]]]; auto.
  right. now exists w, len, now.
Qed.

Lemma windowed_run trace :
  forall t st,
    windowed t (history (this st)) ->
    clockNeverGoesBack t trace = true ->
    windowed (clockAfter t trace) (history (this (run st trace))).
Proof.
  unfold run; induction trace as [|ev rest IH]; intros t st Hw Hclock;
    [exact Hw|].
  cbn [fold_left].
  destruct (history_step st ev) as [Hsame | (w & len & now & -> & Hdata)].
  - destruct ev; cbn [clockNeverGoesBack clockAfter] in *;
      try (apply IH; [rewrite Hsame; exact Hw|exact Hclock]).
    apply andb_true_iff in Hclock as [Hle Hrest]. apply Z.leb_le in Hle.
    apply IH; auto. rewrite Hsame. eapply windowed_later; eauto.
  - cbn [clockNeverGoesBack clockAfter] in *.
    apply andb_true_iff in Hclock as [Hle Hrest]. apply Z.leb_le in Hle.
    apply IH; auto. rewrite Hdata. eapply windowed_onData; eauto.
Qed.

(** X11: with a clock that never goes back, in every state the history is
    in arrival order, none of its samples is ahead of the clock, and all of
    them are at most 6000 ms older than the newest one. *)
Theorem history_spans_six_seconds prev os batch t trace :
  clockNeverGoesBack t trace = true ->
  chronological (history (this (run (startBatch prev os batch) trace))) = true
  /\ Forall (fun s => Sample.time s <= clockAfter t trace)
            (history (this (run (startBatch prev os batch) trace)))
  /\ Forall (fun s =>
               newestTime
                 (history (this (run (startBatch prev os batch) trace)))
               - Sample.time s <= 6000)
            (history (this (run (startBatch prev os batch) trace))).
Proof.
  intros Hclock. apply windowed_run; auto.
  rewrite this_start. cbn [history]. repeat split; constructor.
Qed.

Lemma history_spans_six_seconds_witness :
  clockNeverGoesBack 0 exCleanRun = true
  /\ chronological
       (history (this (run (startBatch exPrev "linux" [exJar]) exCleanRun)))
     = true
  /\ history (this (run (startBatch exPrev "linux" [exJar]) exCleanRun))
     = [Sample.mk 4 0; Sample.mk 6 500].
Proof.
  assert (Hclock : clockNeverGoesBack 0 exCleanRun = true) by reflexivity.
  split; [exact Hclock|split; [|reflexivity]].
  exact (proj1 (history_spans_six_seconds exPrev "linux" [exJar] 0 exCleanRun
                  Hclock)).
Defined.
(** ** More on the diff pass *)








(** ** The Yggdrasil endpoint *)

Lemma endsWithSlash_push url : endsWithSlash (url ++ "/") = true.
Proof.
  induction url as [|c rest IH]; [reflexivity|].
  cbn [append endsWithSlash]. rewrite IH.
  destruct (rest ++ "/")%string eqn:Hr; auto.
  destruct rest; discriminate.
Qed.

Lemma sliceButLast_push url : sliceButLast (url ++ "/") = url.
Proof.
  induction url as [|c rest IH]; [reflexivity|].
  cbn [append sliceButLast]. rewrite IH.
  destruct (rest ++ "/")%string eqn:Hr; auto.
  destruct rest; discriminate.
Qed.

(** X14: the constructor of the Yggdrasil client ignores one trailing
    slash of the URL it is given, and only one: the endpoint built from
    [url/] is [url/authserver] whatever [url] is, and a URL that does not
    end with a slash gets [/authserver] appended as it is. *)
Theorem Yggdrasil_ignores_one_trailing_slash url :
  Yggdrasil (url ++ "/") = (url ++ "/authserver")%string
  /\ (endsWithSlash url = false ->
      Yggdrasil url = (url ++ "/authserver")%string
      /\ Yggdrasil (url ++ "/") = Yggdrasil url)
  /\ Yggdrasil (url ++ "//") = (url ++ "//authserver")%string.
Proof.
  assert (Hone : forall u, Yggdrasil (u ++ "/") = (u ++ "/authserver")%string).
  { intros u. unfold Yggdrasil.
    now rewrite endsWithSlash_push, sliceButLast_push. }
  split; [apply Hone|split].
  - intros Hno. unfold Yggdrasil at 1 3. rewrite Hno. split; [reflexivity|].
    apply Hone.
  - replace (url ++ "//")%string with ((url ++ "/") ++ "/")%string.
    + rewrite Hone. induction url as [|c rest IH]; [reflexivity|].
      cbn [append]. now rewrite IH.
    + induction url as [|c rest IH]; [reflexivity|].
      cbn [append]. now rewrite IH.
Qed.

Lemma Yggdrasil_ignores_one_trailing_slash_witness :
  endsWithSlash "https://auth.example" = false
  /\ Yggdrasil "https://auth.example/" = "https://auth.example/authserver"
  /\ Yggdrasil "https://auth.example/" = Yggdrasil "https://auth.example".
Proof.
  split; [reflexivity|split; [reflexivity|]].
  exact (proj2 (proj1 (proj2
           (Yggdrasil_ignores_one_trailing_slash "https://auth.example"))
           eq_refl)).
Defined.
(** ** A resolved batch has fetched every file *)

Lemma catch_fields st w file attempt message :
  workers (downloadFileWithRetry_catch st w file attempt message)
  = update (workers st) w
           (if (attempt <? 5)%nat
            then Busy file attempt (Sleeping (retryDelay attempt))
            else Failed)
  /\ queue (downloadFileWithRetry_catch st w file attempt message) = queue st
  /\ requests (downloadFileWithRetry_catch st w file attempt message)
     = requests st.
Proof.
  unfold downloadFileWithRetry_catch.
  destruct (attempt <? 5)%nat; fields; auto.
  destruct (outcome st); fields; auto.
Qed.

Lemma then_fields st w :
  requests (downloadFileWithRetry_then st w) = requests st
  /\ match queue st with
     | [] => workers (downloadFileWithRetry_then st w)
             = update (workers st) w Done
             /\ queue (downloadFileWithRetry_then st w) = []
     | next :: rest =>
         workers (downloadFileWithRetry_then st w)
         = update (workers st) w (Busy next 0 Mkdir)
         /\ queue (downloadFileWithRetry_then st w) = rest
     end.
Proof.
  assert (Hsame : forall s, queue (settleAll s) = queue s
                            /\ requests (settleAll s) = requests s).
  { intros s. unfold settleAll. destruct (outcome s); auto.
    destruct (forallb isDone (workers s)); auto. }
  unfold downloadFileWithRetry_then. cbn [queue setThis].
  destruct (queue st) eqn:Hq.
  - rewrite workers_settleAll.
    destruct (Hsame (setWorker (setThis st (incrAmount (this st))) w Done))
      as [-> ->].
    fields. auto.
  - fields. auto.
Qed.

Lemma requestMade_more reqs reqs' x :
  incl reqs reqs' -> requestMade reqs x -> requestMade reqs' x.
Proof.
  intros Hincl. destruct x as [file attempt [| |bytes| |delay]| |]; simpl; auto.
Qed.

(** The worker of an event keeps its file (or rejects), the queue stays. *)
Lemma noFileForgotten_keep batch st st' w file attempt phase new :
  nth_error (workers st) w = Some (Busy file attempt phase) ->
  workers st' = update (workers st) w new ->
  queue st' = queue st ->
  incl (requests st) (requests st') ->
  heldOrLost file new ->
  requestMade (requests st') new ->
  noFileForgotten batch st -> noFileForgotten batch st'.
Proof.
  intros Hw Hws Hq Hr Hnew Hreq [Hall Hfiles]. split.
  - rewrite Hws. apply Forall_update; auto.
    eapply Forall_impl; [|exact Hall]. intros x. now apply requestMade_more.
  - intros g Hg. rewrite Hq, Hws.
    destruct (Hfiles g Hg) as [Hin | [Hin | (i & x & Hi & Hx)]]; auto.
    right; right.
    destruct (Nat.eq_dec w i) as [<- | Hne].
    + rewrite Hw in Hi. injection Hi as <-. simpl in Hx. subst g.
      exists w, new. split; auto. eapply nth_error_update_same; eauto.
    + exists i, x. split; auto. now rewrite nth_error_update_other.
Qed.

Lemma noFileForgotten_then batch st w file attempt phase :
  nth_error (workers st) w = Some (Busy file attempt phase) ->
  In file (requests st) ->
  noFileForgotten batch st ->
  noFileForgotten batch (downloadFileWithRetry_then st w).
Proof.
  intros Hw Hdone [Hall Hfiles].
  destruct (then_fields st w) as [Hr Hrest].
  assert (Hother : forall g i x new,
             nth_error (workers st) i = Some x -> heldOrLost g x ->
             In g (requests st)
             \/ exists j y, nth_error (update (workers st) w new) j = Some y
                            /\ heldOrLost g y).
  { intros g i x new Hi Hx.
    destruct (Nat.eq_dec w i) as [<- | Hne].
    - rewrite Hw in Hi. injection Hi as <-. simpl in Hx. subst g. now left.
    - right. exists i, x. split; auto. now rewrite nth_error_update_other. }
  destruct (queue st) as [|next rest] eqn:Hq; destruct Hrest as [Hws Hq'].
  - split.
    + rewrite Hws, Hr. apply Forall_update; simpl; auto.
    + intros g Hg. rewrite Hq', Hr, Hws.
      destruct (Hfiles g Hg) as [[] | [Hin | (i & x & Hi & Hx)]]; auto.
      destruct (Hother g i x Done Hi Hx); auto.
  - split.
    + rewrite Hws, Hr. apply Forall_update; simpl; auto.
    + intros g Hg. rewrite Hq', Hr, Hws.
      destruct (Hfiles g Hg) as [[<- | Hin] | [Hin | (i & x & Hi & Hx)]]; auto.
      * right; right. exists w, (Busy next 0 Mkdir).
        split; [eapply nth_error_update_same; eauto|reflexivity].
      * destruct (Hother g i x (Busy next 0 Mkdir) Hi Hx); auto.
Qed.

Lemma noFileForgotten_step batch st ev :
  noFileForgotten batch st -> noFileForgotten batch (step st ev).
Proof.
  intros Hinv.
  assert (Hcatch : forall s file attempt phase message,
             workers s = workers st -> queue s = queue st ->
             requests s = requests st ->
             nth_error (workers st) (eventWorker ev)
             = Some (Busy file attempt phase) ->
             noFileForgotten batch
               (downloadFileWithRetry_catch s (eventWorker ev) file attempt
                                            message)).
  { intros s file attempt phase message Hws Hq Hr Hw.
    destruct (catch_fields s (eventWorker ev) file attempt message)
      as (Hws' & Hq' & Hr').
    eapply noFileForgotten_keep; eauto.
    - rewrite Hws', Hws. reflexivity.
    - congruence.
    - rewrite Hr', Hr. apply incl_refl.
    - destruct (attempt <? 5)%nat; simpl; auto.
    - destruct (attempt <? 5)%nat; simpl; auto. }
  assert (Hmade : forall w x, nth_error (workers st) w = Some x ->
                              requestMade (requests st) x)
    by (intros w x; apply nth_error_Forall; apply Hinv).
  assert (Hkeep : forall st' w file attempt phase new,
             nth_error (workers st) w = Some (Busy file attempt phase) ->
             workers st' = update (workers st) w new ->
             queue st' = queue st ->
             requests st' = requests st ->
             heldOrLost file new ->
             requestMade (requests st) new ->
             noFileForgotten batch st').
  { intros st' w file attempt phase new Hw Hws Hq Hr Hnew Hreq.
    eapply noFileForgotten_keep with (new := new); eauto.
    - rewrite Hr. apply incl_refl.
    - now rewrite Hr. }
  step_cases st ev; auto; simpl eventWorker in *;
    try (pose proof (Hmade _ _ Hw) as Hreq; simpl in Hreq).
  - destruct err; [eapply Hcatch; eauto|].
    eapply noFileForgotten_keep
      with (new := Busy file attempt Fetching); eauto; fields;
      try (apply incl_appl, incl_refl); try reflexivity.
    simpl. apply in_or_app; right; now left.
  - destruct res as [m|ok hasBody statusText];
      [|destruct (negb ok || negb hasBody)]; try (eapply Hcatch; eauto).
    apply (Hkeep _ w file attempt Fetching
                 (Busy file attempt (Streaming 0)) Hw); auto; reflexivity.
  - apply (Hkeep _ w file attempt (Streaming bytes)
                 (Busy file attempt (Streaming (bytes + Z.of_N len))) Hw);
      auto; reflexivity.
  - eapply Hcatch; eauto.
  - destruct (chmodJavaFiles st file).
    + apply (Hkeep _ w file attempt (Streaming bytes)
                   (Busy file attempt Chmod) Hw); auto; reflexivity.
    + eapply noFileForgotten_then; eauto.
  - eapply Hcatch; eauto.
  - destruct err; [eapply Hcatch; eauto|].
    eapply noFileForgotten_then; eauto.
  - apply (Hkeep _ w file attempt (Sleeping delay)
                 (Busy file (S attempt) Mkdir) Hw); auto; try reflexivity.
Qed.

Lemma noFileForgotten_start prev os batch :
  zeroWork batch = false -> noFileForgotten batch (startBatch prev os batch).
Proof.
  intros Hz. rewrite (startBatch_started prev os batch Hz).
  split; cbn [workers requests queue].
  - apply Forall_app; split; apply Forall_forall; intros x Hx.
    + apply in_map_iff in Hx. destruct Hx as (f & <- & _). exact I.
    + apply repeat_spec in Hx. subst; exact I.
  - intros file Hin.
    rewrite <- (firstn_skipn CONCURRENCY_LIMIT batch) in Hin.
    apply in_app_or in Hin as [Hfirst | Hrest]; [|now left].
    right; right.
    apply In_nth_error in Hfirst as [i Hi].
    exists i, (Busy file 0 Mkdir). split; [|reflexivity].
    rewrite nth_error_app1.
    + now rewrite nth_error_map, Hi.
    + rewrite length_map. apply nth_error_Some. congruence.
Qed.

Lemma all_done_none_held ws w x file :
  forallb isDone ws = true -> nth_error ws w = Some x -> ~ heldOrLost file x.
Proof.
  intros Hall Hw.
  destruct (all_done_lookup ws w Hall) as [Hd | Hn]; rewrite Hw in *;
    [injection Hd as ->; auto|discriminate].
Qed.

(** X15: when a batch that was not returned at once resolves, [fetch] has
    been called for every file of the resolved list (and for nothing
    else). *)
Theorem resolved_batch_fetched_every_file prev os batch trace file :
  zeroWork batch = false ->
  outcome (run (startBatch prev os batch) trace) = Resolved ->
  (In file batch
   <-> In file (requests (run (startBatch prev os batch) trace))).
Proof.
  intros Hz Hres. split; [|apply requests_from_batch].
  intros Hin.
  assert (Hrun : forall tr st, noFileForgotten batch st ->
                               noFileForgotten batch (run st tr)).
  { unfold run; induction tr as [|ev rest IH]; simpl;
      auto using noFileForgotten_step. }
  destruct (Hrun trace _ (noFileForgotten_start prev os batch Hz))
    as [_ Hfiles].
  pose proof (endMatchesOutcome_run trace _
                (endMatchesOutcome_start prev os batch)) as Hend.
  unfold endMatchesOutcome in Hend. rewrite Hres in Hend.
  destruct Hend as [Hall _].
  pose proof (allAccounted_run trace _ (allAccounted_start prev os batch Hz))
    as [_ Hidle].
  pose proof (pool_length prev os batch trace) as Hlen.
  rewrite Hz in Hlen.
  destruct (Hfiles file Hin) as [Hq | [Hr | (w & x & Hw & Hx)]]; auto.
  - exfalso. destruct Hidle as [Hnil | Hnone]; [rewrite Hnil in Hq; auto|].
    destruct (workers (run (startBatch prev os batch) trace)) as [|y ws];
      [discriminate|].
    inversion Hnone; subst. simpl in Hall.
    apply andb_true_iff in Hall as [Hy _]. congruence.
  - exfalso. eapply all_done_none_held; eauto.
Qed.

Lemma resolved_batch_fetched_every_file_witness :
  zeroWork [exJar] = false
  /\ outcome (run (startBatch exPrev "linux" [exJar]) exCleanRun) = Resolved
  /\ In exJar (requests (run (startBatch exPrev "linux" [exJar]) exCleanRun)).
Proof.
  assert (Hz : zeroWork [exJar] = false) by reflexivity.
  assert (Ho : outcome (run (startBatch exPrev "linux" [exJar]) exCleanRun)
               = Resolved) by reflexivity.
  split; [exact Hz|split; [exact Ho|]].
  exact (proj1 (resolved_batch_fetched_every_file exPrev "linux" [exJar]
                  exCleanRun exJar Hz Ho) (or_introl eq_refl)).
Defined.

(** * The diff pass, interleaved *)

Lemma in_update {A} (l : list A) i x c :
  In c (update l i x) -> c = x \/ In c l.
Proof.
  revert i; induction l as [|h t IH]; intros [|j]; simpl; auto.
  - intros [<- | Hin]; auto.
  - intros [<- | Hin]; auto. destruct (IH _ Hin); auto.
Qed.

Lemma map_fst_update {A B} (l : list (A * B)) i a b b' :
  nth_error l i = Some (a, b) -> map fst (update l i (a, b')) = map fst l.
Proof.
  revert i; induction l as [|h t IH]; intros [|j]; simpl; try discriminate.
  - now intros [= ->].
  - intros Hj. now rewrite (IH _ Hj).
Qed.

Lemma update_split {A} (l : list A) i x :
  nth_error l i = Some x ->
  exists before after,
    l = before ++ x :: after
    /\ forall y, update l i y = before ++ y :: after.
Proof.
  revert i; induction l as [|h t IH]; intros [|j]; simpl; try discriminate.
  - intros [= ->]. now exists [], t.
  - intros Hj. destruct (IH _ Hj) as (before & after & -> & Hupd).
    exists (h :: before), after. split; [reflexivity|].
    intros y. now rewrite Hupd.
Qed.

Lemma pass_snoc {FS : Type} `{FileSystem FS} root (fs : FS) files order i :
  Interleaved.pass root fs files (order ++ [i])
  = Interleaved.settle root (Interleaved.pass root fs files order) i.
Proof.
  unfold Interleaved.pass. now rewrite fold_left_app.
Qed.

Lemma firstn_snoc {A} (l : list A) x k :
  firstn (Nat.min k (List.length l)) (l ++ [x]) = firstn k l.
Proof.
  rewrite firstn_app.
  replace (Nat.min k (List.length l) - List.length l)%nat with O by lia.
  cbn [firstn]. rewrite app_nil_r.
  destruct (Nat.le_ge_cases k (List.length l)) as [Hle | Hge].
  - now rewrite Nat.min_l.
  - rewrite Nat.min_r by assumption.
    now rewrite firstn_all, firstn_all2.
Qed.

(** A property of the pass that every settled promise keeps, as long as
    the disk satisfies [Q] when the promise settles. *)
Lemma pass_invariant {FS : Type} `{FileSystem FS} root (Q : FS -> Prop)
      (Inv : Interleaved.Pass FS -> Prop) (fs : FS) files :
  Inv (Interleaved.begin fs files) ->
  (forall d i, Q (Interleaved.disk d) -> Inv d ->
               Inv (Interleaved.settle root d i)) ->
  forall order,
    (forall k, Q (Interleaved.disk
                    (Interleaved.pass root fs files (firstn k order)))) ->
    Inv (Interleaved.pass root fs files order).
Proof.
  intros Hbegin Hstep order.
  induction order as [|i order IH] using rev_ind; intros HQ.
  - exact Hbegin.
  - rewrite pass_snoc. apply Hstep.
    + specialize (HQ (List.length order)).
      rewrite firstn_app, firstn_all, Nat.sub_diag in HQ.
      cbn [firstn] in HQ. now rewrite app_nil_r in HQ.
    + apply IH. intros k.
      specialize (HQ (Nat.min k (List.length order))).
      now rewrite firstn_snoc in HQ.
Qed.

Ltac settle_cases root d i :=
  unfold Interleaved.settle;
  destruct (nth_error (Interleaved.callbacks d) i)
    as [[f [ | | | | | ]]|] eqn:Hi;
  [ destruct (access (Interleaved.disk d)
                     (join [root; File.path f; File.name f])) eqn:Ha
  | destruct (mkdir (Interleaved.disk d)
                    (join [root; File.path f; File.name f]))
      as [fs'|] eqn:Hm
  | destruct (access (Interleaved.disk d)
                     (join [root; File.path f; File.name f])) eqn:Ha;
    [destruct (truthy (File.sha1 f)) eqn:Ht|]
  | destruct (getFileHash (Interleaved.disk d)
                          (join [root; File.path f; File.name f]))
      as [local'|] eqn:Hh;
    [destruct (File.sha1 f) as [h'|] eqn:Hs|]
  | | | ].

Ltac pass_fields :=
  unfold Interleaved.suspend, Interleaved.finish;
  cbn [Interleaved.disk Interleaved.callbacks Interleaved.filesToDownload
       andb fst snd].

Lemma settle_files {FS : Type} `{FileSystem FS} root (d : Interleaved.Pass FS)
      i :
  map fst (Interleaved.callbacks (Interleaved.settle root d i))
  = map fst (Interleaved.callbacks d).
Proof.
  settle_cases root d i; pass_fields; eauto using map_fst_update.
Qed.

Lemma pass_files {FS : Type} `{FileSystem FS} root (fs : FS) files order :
  map fst (Interleaved.callbacks (Interleaved.pass root fs files order))
  = files.
Proof.
  induction order as [|i order IH] using rev_ind.
  - unfold Interleaved.pass, Interleaved.begin.
    cbn [fold_left Interleaved.callbacks].
    rewrite map_map. unfold Interleaved.called. cbn [fst]. apply map_id.
  - now rewrite pass_snoc, settle_files.
Qed.

(** What a fulfilled pass says of its callbacks. *)
Lemma fulfilled_all_returned {FS : Type} `{FileSystem FS} root (fs : FS) files
      order selected :
  Interleaved.getFilesToDownload root fs files order
  = Interleaved.Fulfilled selected ->
  selected
  = Interleaved.filesToDownload (Interleaved.pass root fs files order)
  /\ forall file,
      In file files ->
      In (file, Interleaved.Returned)
         (Interleaved.callbacks (Interleaved.pass root fs files order)).
Proof.
  unfold Interleaved.getFilesToDownload.
  destruct (existsb _ _); [discriminate|].
  destruct (forallb _ _) eqn:Hall; [|discriminate].
  intros [= <-]. split; [reflexivity|].
  intros file Hin.
  rewrite <- (pass_files root fs files order) in Hin.
  apply in_map_iff in Hin. destruct Hin as ([f stage] & Hf & Hin).
  cbn [fst] in Hf. subst f.
  rewrite forallb_forall in Hall. specialize (Hall _ Hin).
  unfold Interleaved.returned in Hall. cbn [snd] in Hall.
  destruct stage; try discriminate. exact Hin.
Qed.

(** ** One entry of the manifest *)

Lemma in_pushed_last {A} (x y : A) (l : list A) :
  In x (l ++ [y]) -> In x l \/ x = y.
Proof.
  intros Hin. apply in_app_or in Hin as [Hin | [<- | []]]; auto.
Qed.

Lemma in_update_stage {A B} (l : list (A * B)) i a b a' b' :
  In (a, b) (update l i (a', b')) -> (a' = a /\ b' = b) \/ In (a, b) l.
Proof.
  intros Hin. apply in_update in Hin as [[= -> ->] | Hin]; auto.
Qed.

(** An entry that is present with the hash of its descriptor whenever a
    promise settles is never pushed. *)
Lemma never_pushed_same_hash {FS : Type} `{FileSystem FS} root (fs : FS)
      files order file h :
  File.sha1 file = Some h ->
  (forall k,
      access (Interleaved.disk
                (Interleaved.pass root fs files (firstn k order)))
             (join [root; File.path file; File.name file]) = true
      /\ getFileHash (Interleaved.disk
                        (Interleaved.pass root fs files (firstn k order)))
                     (join [root; File.path file; File.name file]) = Some h) ->
  ~ In file (Interleaved.filesToDownload
               (Interleaved.pass root fs files order)).
Proof.
  intros Hsha Hdisk.
  apply (pass_invariant root
           (fun x => access x (join [root; File.path file; File.name file])
                     = true
                     /\ getFileHash x (join [root; File.path file;
                                             File.name file]) = Some h)
           (fun d => ~ In file (Interleaved.filesToDownload d)));
    [intros [] | | exact Hdisk].
  intros d i [Hacc Hhash] Hinv.
  settle_cases root d i; pass_fields; try exact Hinv;
    match goal with
    | |- ~ In _ (if ?b then _ else _) => destruct b eqn:Hpush; [|exact Hinv]
    end;
    intros Hin; apply in_pushed_last in Hin as [Hin | <-]; auto;
    try congruence.
  assert (h' = h) by congruence. assert (local' = h) by congruence.
  subst. now rewrite String.eqb_refl in Hpush.
Qed.

(** An entry without a hash that is present whenever a promise settles is
    never pushed: its callbacks never ask for the local hash. *)
Lemma never_pushed_without_hash {FS : Type} `{FileSystem FS} root (fs : FS)
      files order file :
  truthy (File.sha1 file) = false ->
  (forall k,
      access (Interleaved.disk
                (Interleaved.pass root fs files (firstn k order)))
             (join [root; File.path file; File.name file]) = true) ->
  ~ In file (Interleaved.filesToDownload
               (Interleaved.pass root fs files order)).
Proof.
  intros Hsha Hdisk.
  apply (pass_invariant root
           (fun x => access x (join [root; File.path file; File.name file])
                     = true)
           (fun d => ~ In file (Interleaved.filesToDownload d)
                     /\ ~ In (file, Interleaved.FileHash)
                             (Interleaved.callbacks d)))
    in Hdisk; [tauto | |].
  - split; [intros []|].
    unfold Interleaved.begin. cbn [Interleaved.callbacks].
    intros Hin. apply in_map_iff in Hin.
    destruct Hin as (f & Hf & _). unfold Interleaved.called in Hf.
    destruct (File.type f); discriminate.
  - intros d i Hacc [Hinv Hstage].
    assert (Hf : forall f,
               nth_error (Interleaved.callbacks d) i
               = Some (f, Interleaved.FileHash) -> file <> f).
    { intros f Hi <-. apply nth_error_In in Hi. auto. }
    settle_cases root d i; pass_fields; try (split; assumption);
      (split;
       [ try exact Hinv;
         match goal with
         | |- ~ In _ (if ?b then _ else _) => destruct b; [|exact Hinv]
         end;
         intros Hin; apply in_pushed_last in Hin as [Hin | Heq]; auto;
         try (subst f; congruence); now apply (Hf f)
       | intros Hin; apply in_update_stage in Hin as [[-> Hstg] | Hin]; auto;
         congruence ]).
Qed.

(** The list only grows. *)
Lemma settle_keeps_pushed {FS : Type} `{FileSystem FS} root
      (d : Interleaved.Pass FS) i file :
  In file (Interleaved.filesToDownload d) ->
  In file (Interleaved.filesToDownload (Interleaved.settle root d i)).
Proof.
  intros Hin.
  settle_cases root d i; pass_fields; auto;
    match goal with
    | |- In _ (if ?b then _ else _) => destruct b; auto
    end;
    apply in_or_app; auto.
Qed.

(** An entry with a URL that is absent whenever a promise settles has
    been pushed by each of its callbacks that have returned. *)
Lemma pushed_when_absent {FS : Type} `{FileSystem FS} root (fs : FS)
      files order file :
  truthy (File.url file) = true ->
  (forall k,
      access (Interleaved.disk
                (Interleaved.pass root fs files (firstn k order)))
             (join [root; File.path file; File.name file]) = false) ->
  In (file, Interleaved.Returned)
     (Interleaved.callbacks (Interleaved.pass root fs files order)) ->
  In file (Interleaved.filesToDownload
             (Interleaved.pass root fs files order)).
Proof.
  intros Hurl Hdisk.
  apply (pass_invariant root
           (fun x => access x (join [root; File.path file; File.name file])
                     = false)
           (fun d => ~ In (file, Interleaved.FileHash)
                          (Interleaved.callbacks d)
                     /\ (In (file, Interleaved.Returned)
                            (Interleaved.callbacks d) ->
                         In file (Interleaved.filesToDownload d))))
    in Hdisk; [tauto | |].
  - unfold Interleaved.begin.
    cbn [Interleaved.callbacks Interleaved.filesToDownload].
    split; intros Hin; apply in_map_iff in Hin;
      destruct Hin as (f & Hf & _); unfold Interleaved.called in Hf;
      destruct (File.type f); discriminate.
  - intros d i Hacc [Hstage Hinv].
    assert (Hf : forall f,
               nth_error (Interleaved.callbacks d) i
               = Some (f, Interleaved.FileHash) -> file <> f).
    { intros f Hi <-. apply nth_error_In in Hi. auto. }
    settle_cases root d i; pass_fields; try (split; assumption);
      (split;
       [ intros Hin; apply in_update_stage in Hin as [[-> Hstg] | Hin]; auto;
         congruence
       | intros Hin; apply in_update_stage in Hin as [[-> Hstg] | Hin];
         [ try congruence; try (now destruct (Hf file));
           rewrite ?Hurl; apply in_or_app; right; now left
         | specialize (Hinv Hin);
           try exact Hinv;
           match goal with
           | |- In _ (if ?b then _ else _) => destruct b; auto
           end;
           apply in_or_app; auto ] ]).
Qed.

(** An entry with a URL whose hash is set and differs from the local one
    whenever a promise settles has been pushed by each of its callbacks
    that have returned. *)
Lemma pushed_when_stale {FS : Type} `{FileSystem FS} root (fs : FS)
      files order file h :
  truthy (File.url file) = true ->
  File.sha1 file = Some h -> h <> "" ->
  (forall k,
      exists local,
        getFileHash (Interleaved.disk
                       (Interleaved.pass root fs files (firstn k order)))
                    (join [root; File.path file; File.name file]) = Some local
        /\ h <> local) ->
  In (file, Interleaved.Returned)
     (Interleaved.callbacks (Interleaved.pass root fs files order)) ->
  In file (Interleaved.filesToDownload
             (Interleaved.pass root fs files order)).
Proof.
  intros Hurl Hsha Hset Hdisk.
  assert (Htruthy : truthy (File.sha1 file) = true)
    by (rewrite Hsha; destruct h; [contradiction|reflexivity]).
  refine (pass_invariant root
           (fun x => exists local,
                getFileHash x (join [root; File.path file; File.name file])
                = Some local /\ h <> local)
           (fun d => In (file, Interleaved.Returned)
                        (Interleaved.callbacks d) ->
                     In file (Interleaved.filesToDownload d))
           fs files _ _ order Hdisk).
  - unfold Interleaved.begin.
    cbn [Interleaved.callbacks Interleaved.filesToDownload].
    intros Hin; apply in_map_iff in Hin;
      destruct Hin as (f & Hf & _); unfold Interleaved.called in Hf;
      destruct (File.type f); discriminate.
  - intros d i (local & Hhash & Hdiff) Hinv.
    apply String.eqb_neq in Hdiff.
    settle_cases root d i; pass_fields; try assumption;
      (intros Hin; apply in_update_stage in Hin as [[-> Hstg] | Hin];
       [ try congruence;
         try (assert (h' = h) by congruence;
              assert (local' = local) by congruence; subst;
              rewrite Hdiff; cbn [negb andb]);
         rewrite ?Hurl; apply in_or_app; right; now left
       | specialize (Hinv Hin);
         try exact Hinv;
         match goal with
         | |- In _ (if ?b then _ else _) => destruct b; auto
         end;
         apply in_or_app; auto ]).
Qed.

(** ** The pass comes to an end *)

Lemma settle_other {FS : Type} `{FileSystem FS} root (d : Interleaved.Pass FS)
      i j :
  i <> j ->
  nth_error (Interleaved.callbacks (Interleaved.settle root d i)) j
  = nth_error (Interleaved.callbacks d) j.
Proof.
  intros Hij.
  settle_cases root d i; pass_fields;
    auto using nth_error_update_other.
Qed.

Lemma settle_advances {FS : Type} `{FileSystem FS} root
      (d : Interleaved.Pass FS) i c :
  nth_error (Interleaved.callbacks d) i = Some c ->
  exists c',
    nth_error (Interleaved.callbacks (Interleaved.settle root d i)) i
    = Some c'
    /\ (Interleaved.awaitsLeft (snd c')
        <= Interleaved.awaitsLeft (snd c) - 1)%nat.
Proof.
  intros Hc.
  settle_cases root d i; pass_fields; try discriminate;
    injection Hc as <-;
    (eexists; split; [eauto using nth_error_update_same|];
     cbn [snd Interleaved.awaitsLeft]; lia).
Qed.

Lemma settled_advances {FS : Type} `{FileSystem FS} root order i :
  forall (d : Interleaved.Pass FS) c,
    nth_error (Interleaved.callbacks d) i = Some c ->
    exists c',
      nth_error (Interleaved.callbacks
                   (fold_left (Interleaved.settle root) order d)) i
      = Some c'
      /\ (Interleaved.awaitsLeft (snd c')
          <= Interleaved.awaitsLeft (snd c)
             - count_occ Nat.eq_dec order i)%nat.
Proof.
  induction order as [|j order IH]; intros d c Hc.
  - exists c. split; [exact Hc|]. cbn [count_occ]. lia.
  - cbn [fold_left count_occ].
    destruct (Nat.eq_dec j i) as [-> | Hji].
    + destruct (settle_advances root d i c Hc) as (c1 & Hc1 & Hle1).
      destruct (IH _ _ Hc1) as (c' & Hc' & Hle).
      exists c'. split; [exact Hc'|]. lia.
    + apply IH. now rewrite settle_other.
Qed.

Lemma begin_lookup {FS : Type} `{FileSystem FS} (fs : FS) files i :
  (i < List.length files)%nat ->
  exists file,
    nth_error files i = Some file
    /\ nth_error (Interleaved.callbacks (Interleaved.begin fs files)) i
       = Some (Interleaved.called file).
Proof.
  intros Hi. destruct (nth_error files i) as [file|] eqn:Hf.
  - exists file. split; [reflexivity|].
    unfold Interleaved.begin. cbn [Interleaved.callbacks].
    now apply map_nth_error.
  - apply nth_error_None in Hf. lia.
Qed.

Lemma pass_length {FS : Type} `{FileSystem FS} root (fs : FS) files order :
  List.length (Interleaved.callbacks (Interleaved.pass root fs files order))
  = List.length files.
Proof.
  rewrite <- (pass_files root fs files order) at 2. now rewrite length_map.
Qed.

(** Once every callback has had [n] of its promises settled, where no
    callback waits for more than [n], every callback has returned or
    thrown. *)
Lemma pass_callbacks_end {FS : Type} `{FileSystem FS} root (fs : FS) files
      order n :
  Forall (fun file => (Interleaved.awaitsLeft (snd (Interleaved.called file))
                       <= n)%nat) files ->
  (forall i, (i < List.length files)%nat ->
             (n <= count_occ Nat.eq_dec order i)%nat) ->
  Forall (fun c => Interleaved.awaitsLeft (snd c) = O)
         (Interleaved.callbacks (Interleaved.pass root fs files order)).
Proof.
  intros Hn Hcount. apply Forall_forall. intros c Hin.
  apply In_nth_error in Hin. destruct Hin as (i & Hi).
  assert (Hlt : (i < List.length files)%nat).
  { rewrite <- (pass_length root fs files order).
    apply nth_error_Some. congruence. }
  destruct (begin_lookup fs files i Hlt) as (file & Hfile & Hbegin).
  destruct (settled_advances root order i _ _ Hbegin) as (c' & Hc' & Hle).
  unfold Interleaved.pass in Hi. rewrite Hi in Hc'. injection Hc' as <-.
  rewrite Forall_forall in Hn.
  specialize (Hn file (nth_error_In _ _ Hfile)).
  specialize (Hcount i Hlt). lia.
Qed.

Lemma ended_not_waiting {FS : Type} `{FileSystem FS} root (fs : FS) files
      order :
  Forall (fun c => Interleaved.awaitsLeft (snd c) = O)
         (Interleaved.callbacks (Interleaved.pass root fs files order)) ->
  Interleaved.getFilesToDownload root fs files order
  = Interleaved.Thrown
  \/ Interleaved.getFilesToDownload root fs files order
     = Interleaved.Fulfilled
         (Interleaved.filesToDownload (Interleaved.pass root fs files order)).
Proof.
  intros Hend. unfold Interleaved.getFilesToDownload.
  destruct (existsb _ _) eqn:Hthrew; [now left|right].
  replace (forallb _ _) with true; [reflexivity|].
  symmetry. apply forallb_forall. intros [f stage] Hin.
  rewrite Forall_forall in Hend. specialize (Hend _ Hin).
  assert (Hno : Interleaved.threw (f, stage) = false).
  { destruct (Interleaved.threw (f, stage)) eqn:Ht; [|reflexivity].
    assert (existsb Interleaved.threw
              (Interleaved.callbacks (Interleaved.pass root fs files order))
            = true) by (apply existsb_exists; eauto).
    congruence. }
  unfold Interleaved.returned, Interleaved.threw in *. cbn [snd] in *.
  destruct stage; try discriminate; reflexivity.
Qed.

(** No callback waits for more than four promises: once four promises
    have settled for every callback, [getFilesToDownload] has returned or
    thrown. *)
Lemma pass_ends {FS : Type} `{FileSystem FS} root (fs : FS) files order :
  (forall i, (i < List.length files)%nat ->
             (4 <= count_occ Nat.eq_dec order i)%nat) ->
  Interleaved.getFilesToDownload root fs files order <> Interleaved.Waiting.
Proof.
  intros Hcount.
  assert (Hend : Forall (fun c => Interleaved.awaitsLeft (snd c) = O)
                   (Interleaved.callbacks
                      (Interleaved.pass root fs files order))).
  { apply pass_callbacks_end with (n := 4%nat); [|exact Hcount].
    apply Forall_forall. intros f _. unfold Interleaved.called. cbn [snd].
    destruct (File.type f); cbn [Interleaved.awaitsLeft]; lia. }
  destruct (ended_not_waiting root fs files order Hend) as [-> | ->];
    discriminate.
Qed.

(** ** A manifest without folders *)

Lemma truthy_set (s : option string) :
  match s with
  | Some u => negb (String.eqb u "")
  | None => false
  end = truthy s.
Proof.
  destruct s as [[|c u]|]; reflexivity.
Qed.

Lemma filter_returned_suspend (l : list (File.t * Interleaved.Stage)) i f
      stage stage' :
  nth_error l i = Some (f, stage) ->
  Interleaved.returned (f, stage) = false ->
  Interleaved.returned (f, stage') = false ->
  filter Interleaved.returned (update l i (f, stage'))
  = filter Interleaved.returned l.
Proof.
  intros Hi Hs Hs'.
  destruct (update_split l i _ Hi) as (before & after & -> & Hupd).
  rewrite Hupd, !filter_app. cbn [filter]. now rewrite Hs, Hs'.
Qed.

Lemma permutation_finish (keep : File.t -> bool)
      (l : list (File.t * Interleaved.Stage)) i f stage pushed :
  nth_error l i = Some (f, stage) ->
  Interleaved.returned (f, stage) = false ->
  Permutation pushed
              (filter keep (map fst (filter Interleaved.returned l))) ->
  Permutation (if keep f then pushed ++ [f] else pushed)
              (filter keep
                 (map fst (filter Interleaved.returned
                                  (update l i (f, Interleaved.Returned))))).
Proof.
  intros Hi Hs Hperm.
  destruct (update_split l i _ Hi) as (before & after & -> & Hupd).
  rewrite Hupd. rewrite !filter_app, !map_app, !filter_app in *.
  cbn [filter] in *. rewrite Hs in Hperm.
  replace (Interleaved.returned (f, Interleaved.Returned)) with true
    by reflexivity.
  cbn [map fst filter].
  destruct (keep f); [|exact Hperm].
  apply Permutation_trans with (f :: pushed).
  - apply Permutation_sym, Permutation_cons_append.
  - now apply Permutation_cons_app.
Qed.

Lemma files_only_invariant {FS : Type} `{FileSystem FS} root (fs : FS) files
      order :
  Forall (fun f => File.type f = File.FILE) files ->
  Interleaved.disk (Interleaved.pass root fs files order) = fs
  /\ Forall (fileStage root fs)
            (Interleaved.callbacks (Interleaved.pass root fs files order))
  /\ Permutation
       (Interleaved.filesToDownload (Interleaved.pass root fs files order))
       (filter (toFetch root fs)
          (map fst (filter Interleaved.returned
                      (Interleaved.callbacks
                         (Interleaved.pass root fs files order))))).
Proof.
  intros Hfiles.
  induction order as [|i order IH] using rev_ind.
  - unfold Interleaved.pass, Interleaved.begin.
    cbn [fold_left Interleaved.disk Interleaved.callbacks
         Interleaved.filesToDownload].
    split; [reflexivity|].
    assert (Hnone : filter Interleaved.returned (map Interleaved.called files)
                    = []).
    { clear Hfiles. induction files as [|f files IHf]; [reflexivity|].
      cbn [map filter]. unfold Interleaved.returned at 1.
      unfold Interleaved.called at 1. cbn [snd].
      destruct (File.type f); exact IHf. }
    rewrite Hnone. split; [|constructor].
    apply Forall_forall. intros c Hc. apply in_map_iff in Hc.
    destruct Hc as (f & <- & Hf). rewrite Forall_forall in Hfiles.
    unfold fileStage, Interleaved.called. cbn [snd].
    now rewrite (Hfiles f Hf).
  - rewrite pass_snoc.
    set (d := Interleaved.pass root fs files order) in *.
    destruct IH as (Hdisk & Hstage & Hperm).
    assert (Hat : forall c, In c (Interleaved.callbacks d) ->
                            fileStage root fs c)
      by (apply Forall_forall; exact Hstage).
    settle_cases root d i; pass_fields;
      try (pose proof (Hat _ (nth_error_In _ _ Hi)) as Hc;
           unfold fileStage in Hc; cbn [fst snd] in Hc);
      try contradiction; try (repeat split; assumption);
      (split; [exact Hdisk|]);
      (split; [apply Forall_update; [exact Hstage|];
               unfold fileStage; cbn [fst snd]; try exact I;
               split; congruence|]).
    + now rewrite (filter_returned_suspend _ _ _ _ _ Hi).
    + pose proof (permutation_finish (toFetch root fs) _ _ _ _ _ Hi eq_refl
                    Hperm) as Hp.
      replace (toFetch root fs f) with false in Hp; [exact Hp|].
      unfold toFetch. rewrite <- Hdisk, Ha.
      destruct (File.sha1 f) as [[|c h]|]; try discriminate;
        cbn [negb orb andb String.eqb]; now rewrite andb_false_r.
    + pose proof (permutation_finish (toFetch root fs) _ _ _ _ _ Hi eq_refl
                    Hperm) as Hp.
      replace (toFetch root fs f) with (truthy (File.url f)) in Hp;
        [exact Hp|].
      unfold toFetch. rewrite <- Hdisk, Ha, truthy_set.
      cbn [negb orb]. now rewrite andb_true_r.
    + destruct Hc as [Hacc Hset].
      pose proof (permutation_finish (toFetch root fs) _ _ _ _ _ Hi eq_refl
                    Hperm) as Hp.
      replace (toFetch root fs f)
        with (negb (h' =? local')%string && truthy (File.url f)) in Hp;
        [exact Hp|].
      unfold toFetch. rewrite Hacc, Hs, truthy_set.
      rewrite Hdisk in Hh. rewrite Hh.
      rewrite Hs in Hset. rewrite <- (truthy_set (Some h')) in Hset.
      rewrite Hset. cbn [negb orb andb]. apply andb_comm.
    + destruct Hc as [Hacc Hset].
      rewrite Hs in Hset. discriminate.
    + destruct Hc as [Hacc Hset].
      pose proof (permutation_finish (toFetch root fs) _ _ _ _ _ Hi eq_refl
                    Hperm) as Hp.
      replace (toFetch root fs f) with (truthy (File.url f)) in Hp;
        [exact Hp|].
      unfold toFetch. rewrite Hacc, truthy_set.
      rewrite Hdisk in Hh. rewrite Hh.
      destruct (File.sha1 f) as [[|c h]|]; try discriminate.
      cbn [negb orb andb String.eqb]. now rewrite andb_true_r.
Qed.

(** X12: on a manifest without FOLDER entries, in whatever order the
    promises of the diff pass settle: the disk is left as it is and no
    callback throws; when [getFilesToDownload] returns, its list holds, in
    the order in which the callbacks completed, exactly the entries that
    have a URL and are either absent locally or carry a hash that is not
    the one computed for the local file (or cannot be computed): it is a
    permutation of that filter of the manifest; and it returns once two
    promises have settled for every callback. *)
Theorem diff_of_files_is_a_filter {FS : Type} `{FileSystem FS} root (fs : FS)
        files order :
  Forall (fun f => File.type f = File.FILE) files ->
  Interleaved.disk (Interleaved.pass root fs files order) = fs
  /\ Interleaved.getFilesToDownload root fs files order
     <> Interleaved.Thrown
  /\ (forall selected,
         Interleaved.getFilesToDownload root fs files order
         = Interleaved.Fulfilled selected ->
         Permutation selected (filter (toFetch root fs) files))
  /\ ((forall i, (i < List.length files)%nat ->
                 (2 <= count_occ Nat.eq_dec order i)%nat) ->
      exists selected,
        Interleaved.getFilesToDownload root fs files order
        = Interleaved.Fulfilled selected).
Proof.
  intros Hfiles.
  destruct (files_only_invariant root fs files order Hfiles)
    as (Hdisk & Hstage & Hperm).
  assert (Hthrew : existsb Interleaved.threw
                     (Interleaved.callbacks
                        (Interleaved.pass root fs files order)) = false).
  { destruct (existsb _ _) eqn:He; [|reflexivity].
    apply existsb_exists in He. destruct He as ([f stage] & Hin & Ht).
    rewrite Forall_forall in Hstage. specialize (Hstage _ Hin).
    unfold fileStage, Interleaved.threw in *. cbn [snd] in *.
    destruct stage; try discriminate; contradiction. }
  assert (Hnot : Interleaved.getFilesToDownload root fs files order
                 <> Interleaved.Thrown).
  { unfold Interleaved.getFilesToDownload. rewrite Hthrew.
    destruct (forallb _ _); discriminate. }
  split; [exact Hdisk|]. split; [exact Hnot|]. split.
  - intros selected Hsel.
    unfold Interleaved.getFilesToDownload in Hsel. rewrite Hthrew in Hsel.
    destruct (forallb _ _) eqn:Hall; [|discriminate].
    injection Hsel as <-.
    assert (Hfilter : forall l, forallb Interleaved.returned l = true ->
                                filter Interleaved.returned l = l).
    { induction l as [|c l IHl]; [reflexivity|]. cbn [forallb filter].
      intros Hc. apply andb_true_iff in Hc as [Hc Hl].
      now rewrite Hc, IHl. }
    rewrite (Hfilter _ Hall), pass_files in Hperm. exact Hperm.
  - intros Hcount.
    assert (Hend : Forall (fun c => Interleaved.awaitsLeft (snd c) = O)
                     (Interleaved.callbacks
                        (Interleaved.pass root fs files order))).
    { apply pass_callbacks_end with (n := 2%nat); [|exact Hcount].
      apply Forall_forall. intros f Hf. rewrite Forall_forall in Hfiles.
      unfold Interleaved.called. cbn [snd]. rewrite (Hfiles f Hf).
      cbn [Interleaved.awaitsLeft]. lia. }
    destruct (ended_not_waiting root fs files order Hend) as [Hth | Hful];
      [contradiction|eauto].
Qed.

Lemma diff_of_files_is_a_filter_witness :
  Forall (fun f => File.type f = File.FILE) [exStale; exMissing]
  /\ Interleaved.getFilesToDownload "game" exStaleDisk [exStale; exMissing]
                                    [0; 1; 0]%nat
     = Interleaved.Fulfilled [exMissing; exStale]
  /\ Interleaved.getFilesToDownload "game" exStaleDisk [exStale; exMissing]
                                    [0; 0; 1]%nat
     = Interleaved.Fulfilled [exStale; exMissing]
  /\ Permutation [exMissing; exStale]
                 (filter (toFetch "game" exStaleDisk) [exStale; exMissing]).
Proof.
  assert (Hfiles : Forall (fun f => File.type f = File.FILE)
                          [exStale; exMissing])
    by (repeat constructor).
  split; [exact Hfiles|]. split; [reflexivity|]. split; [reflexivity|].
  exact (proj1 (proj2 (proj2 (diff_of_files_is_a_filter
                                "game" exStaleDisk [exStale; exMissing]
                                [0; 1; 0]%nat Hfiles)))
               [exMissing; exStale] eq_refl).
Defined.

(** ** The list order is one of the interleavings *)

Lemma update_update {A} (l : list A) i x y :
  update (update l i x) i y = update l i y.
Proof.
  revert i; induction l as [|h t IH]; intros [|j]; simpl; auto.
  now rewrite IH.
Qed.

Lemma update_middle {A} (before : list A) x y after :
  update (before ++ x :: after) (List.length before) y = before ++ y :: after.
Proof.
  induction before as [|h t IH]; simpl; auto. now rewrite IH.
Qed.

Lemma settle_at {FS : Type} `{FileSystem FS} root (d : Interleaved.Pass FS)
      n file stage :
  nth_error (Interleaved.callbacks d) n = Some (file, stage) ->
  Interleaved.settle root d n
  = match stage with
    | Interleaved.FolderAccess =>
        if access (Interleaved.disk d)
                  (join [root; File.path file; File.name file])
        then Interleaved.suspend d n file Interleaved.FileAccess
        else Interleaved.suspend d n file Interleaved.FolderMkdir
    | Interleaved.FolderMkdir =>
        match mkdir (Interleaved.disk d)
                    (join [root; File.path file; File.name file]) with
        | Some fs' =>
            Interleaved.mkPass
              fs' (update (Interleaved.callbacks d) n
                          (file, Interleaved.FileAccess))
              (Interleaved.filesToDownload d)
        | None => Interleaved.suspend d n file Interleaved.Threw
        end
    | Interleaved.FileAccess =>
        if access (Interleaved.disk d)
                  (join [root; File.path file; File.name file])
        then
          if truthy (File.sha1 file)
          then Interleaved.suspend d n file Interleaved.FileHash
          else Interleaved.finish d n file false
        else Interleaved.finish d n file true
    | Interleaved.FileHash =>
        match getFileHash (Interleaved.disk d)
                          (join [root; File.path file; File.name file]),
              File.sha1 file with
        | Some local, Some h =>
            Interleaved.finish d n file (negb (String.eqb h local))
        | _, _ => Interleaved.finish d n file true
        end
    | _ => d
    end.
Proof.
  intros Hn. unfold Interleaved.settle. rewrite Hn. reflexivity.
Qed.

Ltac settle_once root n :=
  match goal with
  | |- context [Interleaved.settle root ?d n] =>
      erewrite (settle_at root d n)
        by (cbn [Interleaved.callbacks]; rewrite ?update_update;
            first [eassumption | eapply nth_error_update_same; eassumption]);
      unfold Interleaved.suspend, Interleaved.finish;
      cbn [Interleaved.disk Interleaved.callbacks Interleaved.filesToDownload];
      rewrite ?update_update
  end.

Lemma four_settles {FS : Type} `{FileSystem FS} root
      (d : Interleaved.Pass FS) n file :
  nth_error (Interleaved.callbacks d) n = Some (Interleaved.called file) ->
  fold_left (Interleaved.settle root) [n; n; n; n] d
  = afterCallback root d n file.
Proof.
  unfold Interleaved.called, afterCallback, checkFile, ensureFolder,
    needsDownload.
  intros Hn. cbn [fold_left].
  destruct (File.type file); settle_once root n.
  - destruct (access (Interleaved.disk d) _) eqn:Ha.
    + repeat settle_once root n. rewrite ?Ha.
      destruct (File.sha1 file) as [[|c h]|] eqn:Hs; cbn [truthy];
        repeat settle_once root n; rewrite ?Hs; try reflexivity.
      destruct (getFileHash _ _); repeat settle_once root n; reflexivity.
    + repeat settle_once root n; rewrite ?Ha;
        repeat settle_once root n; reflexivity.
  - destruct (access (Interleaved.disk d) _) eqn:Ha.
    + settle_once root n. rewrite Ha.
      destruct (File.sha1 file) as [[|c h]|] eqn:Hs; cbn [truthy];
        repeat settle_once root n; rewrite ?Hs; try reflexivity.
      destruct (getFileHash _ _); repeat settle_once root n; reflexivity.
    + settle_once root n.
      destruct (mkdir (Interleaved.disk d) _) as [fs1|] eqn:Hm.
      * settle_once root n.
        destruct (access fs1 _) eqn:Ha1.
        -- destruct (File.sha1 file) as [[|c h]|] eqn:Hs; cbn [truthy];
             repeat settle_once root n; rewrite ?Hs; try reflexivity.
           destruct (getFileHash _ _); repeat settle_once root n;
             reflexivity.
        -- repeat settle_once root n. reflexivity.
      * repeat settle_once root n. reflexivity.
Qed.

Lemma settle_keeps_threw {FS : Type} `{FileSystem FS} root
      (d : Interleaved.Pass FS) i :
  existsb Interleaved.threw (Interleaved.callbacks d) = true ->
  existsb Interleaved.threw
          (Interleaved.callbacks (Interleaved.settle root d i)) = true.
Proof.
  intros Hex. apply existsb_exists in Hex.
  destruct Hex as ([f stage] & Hin & Ht).
  apply In_nth_error in Hin. destruct Hin as (j & Hj).
  apply existsb_exists. exists (f, stage). split; [|exact Ht].
  unfold Interleaved.threw in Ht. cbn [snd] in Ht.
  destruct (Nat.eq_dec i j) as [-> | Hij].
  - rewrite (settle_at root d j f stage Hj).
    destruct stage; try discriminate. eapply nth_error_In; eauto.
  - apply nth_error_In with (n := j). now rewrite settle_other.
Qed.

Lemma settled_keep_threw {FS : Type} `{FileSystem FS} root order :
  forall d : Interleaved.Pass FS,
    existsb Interleaved.threw (Interleaved.callbacks d) = true ->
    existsb Interleaved.threw
            (Interleaved.callbacks
               (fold_left (Interleaved.settle root) order d)) = true.
Proof.
  induction order as [|i order IH]; intros d Hd; [exact Hd|].
  cbn [fold_left]. apply IH. now apply settle_keeps_threw.
Qed.

Lemma in_turn_from {FS : Type} `{FileSystem FS} root rest :
  forall finished (d : Interleaved.Pass FS),
    Interleaved.callbacks d = finished ++ map Interleaved.called rest ->
    forallb Interleaved.returned finished = true ->
    match getFilesToDownload root (Interleaved.disk d) rest with
    | Some (fs', selected) =>
        Interleaved.disk
          (fold_left (Interleaved.settle root)
                     (flat_map (fun i => [i; i; i; i])
                               (seq (List.length finished) (List.length rest)))
                     d) = fs'
        /\ Interleaved.filesToDownload
             (fold_left (Interleaved.settle root)
                        (flat_map (fun i => [i; i; i; i])
                                  (seq (List.length finished)
                                       (List.length rest)))
                        d)
           = Interleaved.filesToDownload d ++ selected
        /\ forallb Interleaved.returned
                   (Interleaved.callbacks
                      (fold_left (Interleaved.settle root)
                                 (flat_map (fun i => [i; i; i; i])
                                           (seq (List.length finished)
                                                (List.length rest)))
                                 d)) = true
    | None =>
        existsb Interleaved.threw
                (Interleaved.callbacks
                   (fold_left (Interleaved.settle root)
                              (flat_map (fun i => [i; i; i; i])
                                        (seq (List.length finished)
                                             (List.length rest)))
                              d)) = true
    end.
Proof.
  induction rest as [|f rest IH]; intros finished d Hcalls Hret.
  - cbn [getFilesToDownload List.length seq flat_map fold_left].
    rewrite Hcalls. cbn [map]. rewrite !app_nil_r. auto.
  - cbn [List.length seq flat_map]. rewrite fold_left_app.
    assert (Hn : nth_error (Interleaved.callbacks d) (List.length finished)
                 = Some (Interleaved.called f)).
    { rewrite Hcalls, nth_error_app2, Nat.sub_diag by lia. reflexivity. }
    rewrite (four_settles root d _ f Hn).
    cbn [getFilesToDownload]. unfold afterCallback.
    destruct (checkFile root (Interleaved.disk d) f) as [[fs1 pushed]|].
    + set (d1 := Interleaved.mkPass fs1 _ _).
      specialize (IH (finished ++ [(f, Interleaved.Returned)]) d1).
      rewrite length_app, Nat.add_comm in IH. cbn [List.length Nat.add] in IH.
      assert (Hcalls1 : Interleaved.callbacks d1
                        = (finished ++ [(f, Interleaved.Returned)])
                          ++ map Interleaved.called rest).
      { unfold d1. cbn [Interleaved.callbacks].
        rewrite Hcalls. cbn [map]. rewrite update_middle, <- app_assoc.
        reflexivity. }
      assert (Hret1 : forallb Interleaved.returned
                              (finished ++ [(f, Interleaved.Returned)])
                      = true)
        by (rewrite forallb_app, Hret; reflexivity).
      specialize (IH Hcalls1 Hret1).
      change (Interleaved.disk d1) with fs1 in IH.
      destruct (getFilesToDownload root fs1 rest) as [[fs2 selected]|];
        [|exact IH].
      destruct IH as (Hdisk & Hlist & Hall).
      split; [exact Hdisk|]. split; [|exact Hall].
      rewrite Hlist. unfold d1. cbn [Interleaved.filesToDownload].
      destruct pushed; [rewrite <- app_assoc|]; reflexivity.
    + apply settled_keep_threw. cbn [Interleaved.callbacks].
      apply existsb_exists. exists (f, Interleaved.Threw).
      split; [|reflexivity].
      eapply nth_error_In, nth_error_update_same; eauto.
Qed.

(** The callbacks settled to their end one after the other, in the order
    of the manifest, is one of the interleavings: it returns the list of
    the pass in list order, and throws when that pass does. *)
Lemma list_order_is_an_interleaving {FS : Type} `{FileSystem FS} root
      (fs : FS) files :
  Interleaved.getFilesToDownload root fs files
                                 (Interleaved.inTurn (List.length files))
  = match getFilesToDownload root fs files with
    | Some (_, selected) => Interleaved.Fulfilled selected
    | None => Interleaved.Thrown
    end
  /\ forall fs' selected,
      getFilesToDownload root fs files = Some (fs', selected) ->
      Interleaved.disk
        (Interleaved.pass root fs files
                          (Interleaved.inTurn (List.length files)))
      = fs'.
Proof.
  pose proof (in_turn_from root files [] (Interleaved.begin fs files)
                           eq_refl eq_refl) as Hturn.
  change (Interleaved.disk (Interleaved.begin fs files)) with fs in Hturn.
  change (Interleaved.filesToDownload (Interleaved.begin fs files))
    with (@nil File.t) in Hturn.
  cbn [List.length app] in Hturn.
  unfold Interleaved.getFilesToDownload, Interleaved.pass,
    Interleaved.inTurn.
  destruct (getFilesToDownload root fs files) as [[fs' selected]|].
  - destruct Hturn as (Hdisk & Hlist & Hall).
    split; [|intros ? ? [= <- <-]; exact Hdisk].
    rewrite Hall, Hlist.
    replace (existsb _ _) with false; [reflexivity|].
    symmetry. apply not_true_is_false. intros Hex.
    apply existsb_exists in Hex. destruct Hex as ([f stage] & Hin & Ht).
    rewrite forallb_forall in Hall. specialize (Hall _ Hin).
    unfold Interleaved.returned, Interleaved.threw in *. cbn [snd] in *.
    destruct stage; discriminate.
  - split; [now rewrite Hturn|discriminate].
Qed.

(** ** The disk during the pass *)

(** Only the callbacks of FOLDER entries wait for the first [fs.access]
    or for [fs.mkdir]. *)
Lemma folder_stages {FS : Type} `{FileSystem FS} root (fs : FS) files order :
  Forall (fun c => snd c = Interleaved.FolderAccess
                   \/ snd c = Interleaved.FolderMkdir ->
                   File.type (fst c) = File.FOLDER)
         (Interleaved.callbacks (Interleaved.pass root fs files order)).
Proof.
  induction order as [|i order IH] using rev_ind.
  - unfold Interleaved.pass, Interleaved.begin.
    cbn [fold_left Interleaved.callbacks].
    apply Forall_forall. intros c Hc. apply in_map_iff in Hc.
    destruct Hc as (f & <- & _). unfold Interleaved.called. cbn [fst snd].
    destruct (File.type f); [intros [Hx | Hx]; discriminate|reflexivity].
  - rewrite pass_snoc.
    set (d := Interleaved.pass root fs files order) in *.
    assert (Hat : forall c, In c (Interleaved.callbacks d) ->
                            snd c = Interleaved.FolderAccess
                            \/ snd c = Interleaved.FolderMkdir ->
                            File.type (fst c) = File.FOLDER)
      by (intros c Hc; rewrite Forall_forall in IH; exact (IH c Hc)).
    settle_cases root d i; pass_fields; try exact IH;
      (apply Forall_update; [exact IH|]); cbn [fst snd];
      try (intros [Hx | Hx]; discriminate).
    intros _. apply (Hat _ (nth_error_In _ _ Hi)). now left.
Qed.

(** The pass changes the disk by [fs.mkdir] on the paths of FOLDER entries
    only: what [fs.mkdir] on those paths leaves as it is, is during the
    pass as it was when [download] was called. *)
Lemma disk_kept_during_pass {FS : Type} `{FileSystem FS} {A : Type} root
      (observe : FS -> A) (fs : FS) files order :
  (forall folder s s',
      In folder files -> File.type folder = File.FOLDER ->
      mkdir s (join [root; File.path folder; File.name folder]) = Some s' ->
      observe s' = observe s) ->
  forall k, observe (Interleaved.diskAt root fs files order k) = observe fs.
Proof.
  intros Hkept k. unfold Interleaved.diskAt.
  induction (firstn k order) as [|i prefix IH] using rev_ind;
    [reflexivity|].
  rewrite pass_snoc.
  pose proof (folder_stages root fs files prefix) as Hstages.
  pose proof (pass_files root fs files prefix) as Hfiles.
  set (d := Interleaved.pass root fs files prefix) in *.
  settle_cases root d i; pass_fields; try exact IH.
  rewrite <- IH. apply (Hkept f); [| |exact Hm].
  - rewrite <- Hfiles. apply in_map_iff. exists (f, Interleaved.FolderMkdir).
    split; [reflexivity|]. eapply nth_error_In; eauto.
  - rewrite Forall_forall in Hstages.
    apply (Hstages _ (nth_error_In _ _ Hi)). now right.
Qed.

(** ** The diff pass on one entry (claim C6) *)

(** Once a batch that was not returned at once has resolved, every file
    of the resolved list has been fetched. *)
Lemma fetched_once_resolved prev os batch trace file :
  zeroWork batch = false ->
  outcome (run (startBatch prev os batch) trace) = Resolved ->
  In file batch ->
  In file (requests (run (startBatch prev os batch) trace)).
Proof.
  intros Hz Hres Hin.
  assert (Hrun : forall tr st, noFileForgotten batch st ->
                               noFileForgotten batch (run st tr)).
  { unfold run; induction tr as [|ev rest IH]; simpl;
      auto using noFileForgotten_step. }
  destruct (Hrun trace _ (noFileForgotten_start prev os batch Hz))
    as [_ Hfiles].
  pose proof (endMatchesOutcome_run trace _
                (endMatchesOutcome_start prev os batch)) as Hend.
  unfold endMatchesOutcome in Hend. rewrite Hres in Hend.
  destruct Hend as [Hall _].
  pose proof (allAccounted_run trace _ (allAccounted_start prev os batch Hz))
    as [_ Hidle].
  pose proof (pool_length prev os batch trace) as Hlen.
  rewrite Hz in Hlen.
  destruct (Hfiles file Hin) as [Hq | [Hr | (w & x & Hw & Hx)]]; auto.
  - exfalso. destruct Hidle as [Hnil | Hnone]; [rewrite Hnil in Hq; auto|].
    destruct (workers (run (startBatch prev os batch) trace)) as [|y ws];
      [discriminate|].
    inversion Hnone; subst. simpl in Hall.
    apply andb_true_iff in Hall as [Hy _]. congruence.
  - exfalso. eapply all_done_none_held; eauto.
Qed.

(** C6: let the diff pass of [download] (no [skipCheck]) return [selected],
    its promises settling in any order; the batch of [download] is then the
    batch of [selected].  For an entry of the manifest (a FILE entry, or a
    FOLDER for that matter), with "locally" read as: on the disk whenever a
    promise of the pass settles,
    - present locally with a hash that is set (a non-empty string) and is
      the hash computed for the local file: the entry is not in [selected],
      and no [fetch] is ever made for it;
    - present locally and hash unset: the same;
    - absent locally, or hash set and different from the hash computed for
      the local file: the entry needs download, that is, provided it has a
      URL it is in [selected], and it is fetched by the time a batch that
      was not returned at once resolves.
    The pass changes the disk by [fs.mkdir] on the paths of the FOLDER
    entries only: whatever those calls leave as it is, is whenever a
    promise settles as it was on the disk [download] was called on (the
    whole disk, when the manifest has no FOLDER entry). *)
Theorem diff_resolver_on_file_entry {FS : Type} `{FileSystem FS} prev os
        (fs : FS) files order selected file :
  In file files ->
  Interleaved.getFilesToDownload (dest prev) fs files order
  = Interleaved.Fulfilled selected ->
  Interleaved.download prev os fs files false order
  = Interleaved.Fulfilled (startBatch prev os selected)
  /\ (forall h,
         File.sha1 file = Some h -> h <> "" ->
         (forall k,
             access (Interleaved.diskAt (dest prev) fs files order k)
                    (join [dest prev; File.path file; File.name file]) = true
             /\ getFileHash (Interleaved.diskAt (dest prev) fs files order k)
                            (join [dest prev; File.path file; File.name file])
                = Some h) ->
         ~ In file selected
         /\ forall trace,
             ~ In file (requests (run (startBatch prev os selected) trace)))
  /\ (File.sha1 file = None \/ File.sha1 file = Some "" ->
      (forall k,
          access (Interleaved.diskAt (dest prev) fs files order k)
                 (join [dest prev; File.path file; File.name file]) = true) ->
      ~ In file selected
      /\ forall trace,
          ~ In file (requests (run (startBatch prev os selected) trace)))
  /\ ((forall k,
          access (Interleaved.diskAt (dest prev) fs files order k)
                 (join [dest prev; File.path file; File.name file]) = false)
      \/ (exists h,
             File.sha1 file = Some h /\ h <> ""
             /\ forall k,
                 exists local,
                   getFileHash
                     (Interleaved.diskAt (dest prev) fs files order k)
                     (join [dest prev; File.path file; File.name file])
                   = Some local
                   /\ h <> local) ->
      forall u,
        File.url file = Some u -> u <> "" ->
        In file selected
        /\ forall trace,
            zeroWork selected = false ->
            outcome (run (startBatch prev os selected) trace) = Resolved ->
            In file (requests (run (startBatch prev os selected) trace)))
  /\ (forall (A : Type) (observe : FS -> A),
         (forall folder s s',
             In folder files -> File.type folder = File.FOLDER ->
             mkdir s (join [dest prev; File.path folder; File.name folder])
             = Some s' ->
             observe s' = observe s) ->
         forall k,
           observe (Interleaved.diskAt (dest prev) fs files order k)
           = observe fs).
Proof.
  intros Hfile Hsel.
  destruct (fulfilled_all_returned _ _ _ _ _ Hsel) as [-> Hret].
  specialize (Hret file Hfile).
  assert (Hnever : forall batch,
             ~ In file batch ->
             ~ In file batch
             /\ forall trace,
                 ~ In file (requests (run (startBatch prev os batch) trace))).
  { intros batch Hnot. split; [exact Hnot|].
    intros trace Hin. apply Hnot. eapply requests_from_batch; eauto. }
  unfold Interleaved.diskAt.
  split; [|split; [|split; [|split]]].
  - unfold Interleaved.download. cbn [negb]. now rewrite Hsel.
  - intros h Hsha Hset Hdisk. apply Hnever.
    eapply never_pushed_same_hash; eauto.
  - intros Hunset Hdisk. apply Hnever.
    apply never_pushed_without_hash; [|exact Hdisk].
    destruct Hunset as [-> | ->]; reflexivity.
  - intros Hneeds u Hurl Hu.
    assert (Htruthy : truthy (File.url file) = true)
      by (rewrite Hurl; destruct u; [contradiction|reflexivity]).
    assert (Hin : In file (Interleaved.filesToDownload
                             (Interleaved.pass (dest prev) fs files order))).
    { destruct Hneeds as [Habsent | (h & Hsha & Hset & Hdiff)].
      - now apply pushed_when_absent.
      - eapply pushed_when_stale; eauto. }
    split; [exact Hin|].
    intros trace Hz Hres. now apply fetched_once_resolved.
  - intros A observe Hkept k.
    now apply (disk_kept_during_pass (dest prev) observe fs files order).
Qed.

Lemma diff_resolver_on_file_entry_witness :
  In exJar [exFolder; exJar; exTool]
  /\ In exTool [exFolder; exJar; exTool]
  /\ Interleaved.getFilesToDownload (dest exPrev) exDisk
                                    [exFolder; exJar; exTool]
                                    [2; 0; 1; 0; 1; 0]%nat
     = Interleaved.Fulfilled [exTool]
  /\ Interleaved.download exPrev "linux" exDisk [exFolder; exJar; exTool]
                          false [2; 0; 1; 0; 1; 0]%nat
     = Interleaved.Fulfilled (startBatch exPrev "linux" [exTool])
  /\ ~ In exJar [exTool]
  /\ In exTool [exTool].
Proof.
  assert (Hjar : In exJar [exFolder; exJar; exTool])
    by (right; left; reflexivity).
  assert (Htool : In exTool [exFolder; exJar; exTool])
    by (right; right; left; reflexivity).
  assert (Hsel : Interleaved.getFilesToDownload
                   (dest exPrev) exDisk [exFolder; exJar; exTool]
                   [2; 0; 1; 0; 1; 0]%nat
                 = Interleaved.Fulfilled [exTool])
    by reflexivity.
  destruct (diff_resolver_on_file_entry exPrev "linux" exDisk _ _ _ exJar
              Hjar Hsel) as (Hdl & Hsame & _).
  destruct (diff_resolver_on_file_entry exPrev "linux" exDisk _ _ _ exTool
              Htool Hsel) as (_ & _ & _ & Hneeds & _).
  split; [exact Hjar|]. split; [exact Htool|]. split; [exact Hsel|].
  split; [exact Hdl|]. split.
  - refine (proj1 (Hsame "abc" eq_refl _ _)); [discriminate|].
    intros k.
    do 7 (destruct k as [|k]; [split; reflexivity|]).
    split; reflexivity.
  - refine (proj1 (Hneeds (or_introl _) "http://h/java" eq_refl _));
      [|discriminate].
    intros k.
    do 7 (destruct k as [|k]; [reflexivity|]).
    reflexivity.
Defined.
